(** * Rolling synthetic crime assignment: a shallow embedding

    Embeds [cj_pipeline/synthetic_assignment.py]: the unobserved-count
    estimator ([_count_unobserved]), the weighted sampler
    ([_sample_unobserved]), the per-partition imputation
    ([_add_unobserved]), the window assembler ([_window_sampler]), the
    rolling driver ([rolling_crime_assignment]) and the age re-derivation
    ([_add_age]).

    Conventions of the embedding.
    - A pandas frame is a list of records, one record per row, in row order.
    - A float column holds [float64] values: a finite value is the exact
      rational value of the double, and NaN and the two infinities are
      kept apart because the code branches on them ([np.where], [isna],
      [sum] skipping NaN).  The estimator rounds every operation to
      binary64 ([Float.fl]): its result is rounded to an integer, where
      one unit in the last place decides.  The sampler divides and adds
      exactly: there only signs, orders and sums of counts are used.
    - An int64 column holds [Z].  The estimator casts to int64 and
      subtracts in int64, as numpy does on x86-64; sums of counts are not
      wrapped.
    - A date is a calendar date inside the range of a pandas timestamp,
      and two dates are less than 292 years apart (the range of a
      nanosecond difference).
    - Memory is unbounded: a sample of any size can be drawn.
    - An exception is a value [Raise e]; side effects (the random stream,
      the reads of the three data providers) live in an explicit [world]
      that is threaded through every call and survives an exception. *)

From Stdlib Require Import ZArith QArith Qround Qabs String Bool List Lia Lqa.
Import ListNotations.

Local Open Scope Z_scope.

(** ** Floats *)

Module Float.

Inductive float64 : Type :=
| FNum (q : Q)
| FInf (negative : bool)
| FNaN.

Definition of_int (z : Z) : float64 := FNum (inject_Z z).

Definition isna (x : float64) : bool :=
  match x with FNaN => true | _ => false end.

(** [x > 0], [x <= 0], [x < 0]: every comparison with NaN is false. *)
Definition gt0 (x : float64) : bool :=
  match x with
  | FNum q => negb (Qle_bool q 0)
  | FInf negative => negb negative
  | FNaN => false
  end.

Definition le0 (x : float64) : bool :=
  match x with
  | FNum q => Qle_bool q 0
  | FInf negative => negative
  | FNaN => false
  end.

Definition lt0 (x : float64) : bool :=
  match x with
  | FNum q => negb (Qle_bool 0 q)
  | FInf negative => negative
  | FNaN => false
  end.

Definition Qsign_neg (q : Q) : bool := negb (Qle_bool 0 q).
Definition Qis_zero (q : Q) : bool := Qeq_bool q 0.

(** Division as numpy does it on float64 arrays: a zero divisor gives an
    infinity (NaN for 0/0) and a warning, never an exception.  The sign of
    a zero divisor is not tracked. *)
Definition div (x y : float64) : float64 :=
  match x, y with
  | FNaN, _ | _, FNaN => FNaN
  | FInf _, FInf _ => FNaN
  | FInf s, FNum b => FInf (xorb s (Qsign_neg b))
  | FNum _, FInf _ => FNum 0
  | FNum a, FNum b =>
      if Qis_zero b
      then if Qis_zero a then FNaN else FInf (Qsign_neg a)
      else FNum (a / b)
  end.

Definition mul (x y : float64) : float64 :=
  match x, y with
  | FNaN, _ | _, FNaN => FNaN
  | FInf s, FInf t => FInf (xorb s t)
  | FInf s, FNum b | FNum b, FInf s =>
      if Qis_zero b then FNaN else FInf (xorb s (Qsign_neg b))
  | FNum a, FNum b => FNum (a * b)
  end.

Definition add (x y : float64) : float64 :=
  match x, y with
  | FNaN, _ | _, FNaN => FNaN
  | FInf s, FInf t => if Bool.eqb s t then FInf s else FNaN
  | FInf s, FNum _ | FNum _, FInf s => FInf s
  | FNum a, FNum b => FNum (a + b)
  end.

(** Round half to even, the rounding of [numpy.round] and of
    [Series.round]. *)
Definition round_half_even (q : Q) : Z :=
  let f := Qfloor q in
  match Qcompare (q - inject_Z f) (1 # 2) with
  | Lt => f
  | Gt => f + 1
  | Eq => if Z.even f then f else f + 1
  end.

Definition round (x : float64) : float64 :=
  match x with
  | FNum q => of_int (round_half_even q)
  | other => other
  end.

(** Truncation toward zero: [int(x)] and [astype('int')] on a finite
    float. *)
Definition Qtrunc (q : Q) : Z :=
  if Qle_bool 0 q then Qfloor q else Qceiling q.

(** *** Binary64

    Rounding of a rational to the nearest double, ties to even: the
    exponent of the last place is 52 below the exponent of the number and
    never below -1074 (the subnormal numbers); a result of magnitude
    [2^1024] or more is an infinity. *)
Definition Qpow2 (e : Z) : Q :=
  if 0 <=? e then inject_Z (2 ^ e) else / inject_Z (2 ^ (- e)).

(** The exponent of a positive rational: [2^(Qlog2 q) <= q < 2^(Qlog2 q + 1)]. *)
Definition Qlog2 (q : Q) : Z :=
  let k := Z.log2 (Qnum q) - Z.log2 (Zpos (Qden q)) in
  if Qle_bool (Qpow2 k) q then k else k - 1.

Definition ulp_exponent (q : Q) : Z := Z.max (Qlog2 (Qabs q) - 52) (-1074).

Definition round64 (q : Q) : Q :=
  let e := ulp_exponent q in
  (inject_Z (round_half_even (q / Qpow2 e)) * Qpow2 e)%Q.

Definition fl (q : Q) : float64 :=
  let r := round64 q in
  if Qle_bool (Qpow2 1024) (Qabs r) then FInf (Qsign_neg q) else FNum r.

Definition rounded (x : float64) : float64 :=
  match x with
  | FNum q => fl q
  | other => other
  end.

(** The conversion of an int64 to float64, and the two operations of the
    estimator on doubles. *)
Definition of_int64 (z : Z) : float64 := fl (inject_Z z).
Definition div64 (x y : float64) : float64 := rounded (div x y).
Definition mul64 (x y : float64) : float64 := rounded (mul x y).

(** *** int64 *)
Definition int64_min : Z := - 2 ^ 63.
Definition int64_max : Z := 2 ^ 63 - 1.

Definition wrap64 (z : Z) : Z := (z + 2 ^ 63) mod 2 ^ 64 - 2 ^ 63.

(** [ndarray.astype('int')].  numpy performs the C conversion and raises
    nothing (only a RuntimeWarning); on NaN, on the infinities and on a
    value outside int64 the conversion of x86-64 ([cvttsd2si]) returns
    [-2**63]. *)
Definition astype_int64 (x : float64) : Z :=
  match x with
  | FNum q =>
      let t := Qtrunc q in
      if (int64_min <=? t) && (t <=? int64_max) then t else int64_min
  | _ => int64_min
  end.

(** [Series.sum()]: missing values are skipped. *)
Definition sum (xs : list float64) : float64 :=
  fold_left (fun acc x => if isna x then acc else add acc x) xs (FNum 0).

End Float.

Import Float.

(** ** Exceptions, results and the threaded world *)

Inductive exn : Type :=
| ValueError_conflicting (values : list (option Z))
    (* 'Conflicting no. of unobserved crimes to be generated ...' *)
| ValueError_nan_to_int        (* int(float('nan')) *)
| OverflowError_inf_to_int     (* int(float('inf')) *)
| ValueError_weights           (* pandas: negative or infinite weight *)
| IndexError_take              (* position outside the sampled series *)
| KeyError_column (name : string)
| ValueError_no_objects        (* pd.concat of an empty list *)
| RuntimeError_assign          (* 'Failed to assign unobserved offenses' *)
| RuntimeError_size
    (* 'Bug: sampling of unobserved changed the size of the data' *)
| ValueError_window (window_end start_year window : Z)
    (* 'Last year ... not compatible with start year ... and window ...' *)
| AttributeError_to_frame
    (* 'DataFrame' object has no attribute 'to_frame' (line 136) *)
| ValueError_seed.
    (* np.random.RandomState: 'Seed must be between 0 and 2**32 - 1' *)

(** [Unspecified] is the outcome of a run that no constructor above
    describes; no function of this file produces it. *)
Inductive result (A : Type) : Type :=
| Ok (a : A)
| Raise (e : exn)
| Unspecified.

Arguments Ok {A} a.
Arguments Raise {A} e.
Arguments Unspecified {A}.

(** The random source behind [np.random.RandomState]: a state, its seeding
    and one uniform draw from [0, 1). *)
Class RandomSource : Type := {
  rng_state : Type;
  RandomState : Z -> rng_state;
  random_sample : rng_state -> Q * rng_state
}.

Inductive provider : Type := Neulaw | Ncvs | Nsduh.

Inductive read_event : Type :=
| Read (p : provider) (year : Z).

Record world `{RandomSource} : Type := mkWorld {
  rng : rng_state;
  reads : list read_event
}.

Definition M `{RandomSource} (A : Type) : Type := world -> result A * world.

Definition ret `{RandomSource} {A} (a : A) : M A := fun w => (Ok a, w).

Definition bind `{RandomSource} {A B} (m : M A) (f : A -> M B) : M B :=
  fun w =>
    match m w with
    | (Ok a, w') => f a w'
    | (Raise e, w') => (Raise e, w')
    | (Unspecified, w') => (Unspecified, w')
    end.

Definition raise `{RandomSource} {A} (e : exn) : M A := fun w => (Raise e, w).

Definition lift `{RandomSource} {A} (r : result A) : M A := fun w => (r, w).

Definition draw_uniform `{RandomSource} : M Q :=
  fun w => let (u, s) := random_sample (rng w) in
           (Ok u, mkWorld _ s (reads w)).

Definition log_read `{RandomSource} (p : provider) (year : Z) : M unit :=
  fun w => (Ok tt, mkWorld _ (rng w) (reads w ++ [Read p year])).

Declare Scope m_scope.
Delimit Scope m_scope with m.
Notation "x <- m ;; k" := (bind m (fun x => k))
  (at level 100, m at next level, right associativity) : m_scope.
Notation "m ;;; k" := (bind m (fun _ => k))
  (at level 100, right associativity) : m_scope.

(** [mapM]: run [f] on every element, left to right; the first exception
    stops the traversal. *)
Fixpoint mapM `{RandomSource} {A B} (f : A -> M B) (l : list A) : M (list B) :=
  match l with
  | [] => ret []
  | a :: l' => (b <- f a ;; bs <- mapM f l' ;; ret (b :: bs))%m
  end.

Fixpoint repeatM `{RandomSource} {A} (n : nat) (m : M A) : M (list A) :=
  match n with
  | O => ret []
  | S n' => (a <- m ;; l <- repeatM n' m ;; ret (a :: l))%m
  end.

(** ** Dates *)

Record date : Type := mkDate { d_year : Z; d_month : Z; d_day : Z }.

(** Days since 1970-01-01 in the proleptic Gregorian calendar, the day
    count behind a pandas [Timestamp]. *)
Definition days_from_civil (d : date) : Z :=
  let y := if d_month d <=? 2 then d_year d - 1 else d_year d in
  let era := y / 400 in
  let yoe := y - era * 400 in
  let mp := if d_month d >? 2 then d_month d - 3 else d_month d + 9 in
  let doy := (153 * mp + 2) / 5 + d_day d - 1 in
  let doe := yoe * 365 + yoe / 4 - yoe / 100 + doy in
  era * 146097 + doe - 719468.

(** [pd.to_datetime(str(end_year))] is midnight of January 1st. *)
Definition year_start (y : Z) : date := mkDate y 1 1.

Definition date_compare (a b : date) : comparison :=
  Z.compare (days_from_civil a) (days_from_civil b).

(** ** Frames *)

Definition key : Type := list string.

Definition key_eqb (a b : key) : bool :=
  if list_eq_dec string_dec a b then true else false.

Fixpoint key_compare (a b : key) : comparison :=
  match a, b with
  | [], [] => Eq
  | [], _ :: _ => Lt
  | _ :: _, [] => Gt
  | x :: a', y :: b' =>
      match String.compare x y with
      | Eq => key_compare a' b'
      | c => c
      end
  end.

(** The wide cohort row handed out by the cohort provider: identity,
    date of birth, the categorical columns by name ('def.gender',
    'calc.race', 'age_cat' and whatever else the provider adds) and one
    observed count per offense column. *)
Record wide_row : Type := mkWide {
  wd_uid : Z;
  wd_dob : date;
  wd_attr : string -> string;
  wd_counts : list (string * Z)
}.

(** A row of the melted cohort. *)
Record long_row : Type := mkLong {
  uid : Z;
  dob : date;
  attr : string -> string;
  offense_category : string;
  offense_count : Z
}.

(** A row of a rate table: its values in the key columns ([CRIMES_GROUP])
    and its rate columns by name. *)
Record rate_row : Type := mkRate {
  r_key : key;
  r_col : string -> float64
}.

Definition col (r : long_row) (name : string) : string :=
  if String.eqb name "offense_category" then offense_category r
  else attr r name.

Definition key_of (cols : list string) (r : long_row) : key :=
  map (col r) cols.

(** *** Sorting and grouping *)

Section Sorting.
Context {A : Type} (cmp : A -> A -> comparison).

Fixpoint insert_sorted (x : A) (l : list A) : list A :=
  match l with
  | [] => [x]
  | y :: l' =>
      match cmp x y with
      | Gt => y :: insert_sorted x l'
      | _ => x :: l
      end
  end.

Definition sort (l : list A) : list A :=
  fold_right insert_sorted [] l.
End Sorting.

(** Distinct elements in order of first appearance. *)
Fixpoint unique {A} (eqb : A -> A -> bool) (l : list A) : list A :=
  match l with
  | [] => []
  | x :: l' => x :: filter (fun y => negb (eqb x y)) (unique eqb l')
  end.

(** The group keys of [df.groupby(cols)]: distinct, in sorted order. *)
Definition group_keys {R} (key_of : R -> key) (df : list R) : list key :=
  sort key_compare (unique key_eqb (map key_of df)).

Definition group {R} (key_of : R -> key) (k : key) (df : list R) : list R :=
  filter (fun r => key_eqb (key_of r) k) df.

(** [pd.merge(left, right, how='left')]: every left row, in order, once per
    matching right row; a left row without a match is kept with missing
    values on the right. *)
Definition merge_left {L R} (matches : L -> R -> bool)
    (left : list L) (right : list R) : list (L * option R) :=
  flat_map
    (fun l =>
       match filter (matches l) right with
       | [] => [(l, None)]
       | rs => map (fun r => (l, Some r)) rs
       end)
    left.

Definition sumZ (l : list Z) : Z := fold_right Z.add 0 l.

(** ** The unobserved-count estimator *)

(** A row of [offenses] after the group-by and the two merges: the group
    key, the summed observed count, the population size (a float column,
    missing when the merge finds no match) and the rate columns of the
    matched rate row (all missing when there is none). *)
Record offenses_row : Type := mkOffenses {
  o_key : key;
  o_offense_count : Z;
  o_pop_size : float64;
  o_rate : string -> float64
}.

Record counted_row : Type := mkCounted {
  c_offenses : offenses_row;
  total_crimes : Z;
  unobserved_crimes : Z;
  unobserved_per_person : float64
}.

(** Lines 107-111 up to the cast: the float that [astype('int')] receives.
    The count is converted to a double, divided and multiplied in doubles;
    [np.where] takes the count as a double too. *)
Definition total_crimes_float
    (count : Z) (arrest lambda_rate : float64) (lam : option Q) : float64 :=
  let total_crimes := div64 (of_int64 count) arrest in
  let total_crimes :=
    mul64 total_crimes
      (match lam with None => lambda_rate | Some l => FNum l end) in
  Float.round (if gt0 arrest then total_crimes else of_int64 count).

(** Lines 109-113 on one row.  No step of them raises. *)
Definition count_row (lam : option Q) (arrest_col lambda_col : string)
    (r : offenses_row) : result counted_row :=
  let total :=
    astype_int64
      (total_crimes_float (o_offense_count r) (o_rate r arrest_col)
         (o_rate r lambda_col) lam) in
  let unobserved := wrap64 (total - o_offense_count r) in
  Ok (mkCounted r total unobserved
        (Float.div (of_int unobserved) (o_pop_size r))).

Fixpoint map_result {A B} (f : A -> result B) (l : list A) : result (list B) :=
  match l with
  | [] => Ok []
  | a :: l' =>
      match f a with
      | Ok b =>
          match map_result f l' with
          | Ok bs => Ok (b :: bs)
          | Raise e => Raise e
          | Unspecified => Unspecified
          end
      | Raise e => Raise e
      | Unspecified => Unspecified
      end
  end.

Definition _count_unobserved (pop : list offenses_row) (lam : option Q)
    (arrest_col lambda_col : string) : result (list counted_row) :=
  map_result (count_row lam arrest_col lambda_col) pop.

(** ** The weighted sampler *)

Record weighted_row : Type := mkWeighted {
  w_row : long_row;
  w_unobserved_per_person : float64;
  w_unobserved_crimes : option Z;
  crime_weight : float64
}.

Definition w_key (cols : list string) (r : weighted_row) : key :=
  key_of cols (w_row r).

(** A row of the frame returned by [_sample_unobserved]. *)
Record sample_row : Type := mkSample {
  s_key : key;
  s_uid : Z;
  s_offense_unobserved : Z
}.

(** The non-missing values of a column. *)
Definition present {A} (l : list (option A)) : list A :=
  flat_map (fun o => match o with Some a => [a] | None => [] end) l.

(** [Series.nunique()] and [Series.unique()] on an integer column. *)
Definition distinct (l : list Z) : list Z := unique Z.eqb l.
Definition nunique (l : list Z) : Z := Z.of_nat (length (distinct l)).

Definition option_Z_eqb (a b : option Z) : bool :=
  match a, b with
  | Some x, Some y => Z.eqb x y
  | None, None => true
  | _, _ => false
  end.

(** [Series.unique()] keeps a missing value among the distinct values. *)
Definition unique_values (l : list (option Z)) : list (option Z) :=
  unique option_Z_eqb l.

(** [Series.mean()]: the mean of the non-missing values, NaN if none. *)
Definition mean (l : list Z) : float64 :=
  match l with
  | [] => FNaN
  | _ => Float.div (of_int (sumZ l)) (of_int (Z.of_nat (length l)))
  end.

(** Python's [int(x)] on a float. *)
Definition py_int (x : float64) : result Z :=
  match x with
  | FNum q => Ok (Qtrunc q)
  | FInf _ => Raise OverflowError_inf_to_int
  | FNaN => Raise ValueError_nan_to_int
  end.

(** [collections.Counter(xs).items()]: distinct elements in order of first
    appearance, each with its number of occurrences. *)
Fixpoint counter_incr (x : Z) (c : list (Z * Z)) : list (Z * Z) :=
  match c with
  | [] => [(x, 1)]
  | (y, n) :: c' =>
      if Z.eqb x y then (y, n + 1) :: c' else (y, n) :: counter_incr x c'
  end.

Definition Counter (xs : list Z) : list (Z * Z) :=
  fold_left (fun c x => counter_incr x c) xs [].

(** The weights as [Series.sample] prepares them: an infinite or negative
    weight is refused, a missing weight counts as zero, a zero total is
    refused, the rest is divided by the total. *)
Definition finite_or_zero (x : float64) : Q :=
  match x with FNum q => q | _ => 0%Q end.

Definition is_inf (x : float64) : bool :=
  match x with FInf _ => true | _ => false end.

Definition Qsum (l : list Q) : Q := fold_right Qplus 0%Q l.

Definition preprocess_weights (ws : list float64) : result (list Q) :=
  if existsb is_inf ws then Raise ValueError_weights
  else if existsb lt0 ws then Raise ValueError_weights
  else
    let qs := map finite_or_zero ws in
    let total := Qsum qs in
    if Qis_zero total then Raise ValueError_weights
    else Ok (map (fun q => q / total)%Q qs).

(** [RandomState.choice(len, size=n, replace=True, p=p)]: the cumulative
    distribution, [n] uniform draws, and for each draw the number of
    cumulative values not above it. *)
Fixpoint cumsum (acc : Q) (ps : list Q) : list Q :=
  match ps with
  | [] => []
  | p :: ps' => (acc + p)%Q :: cumsum (acc + p)%Q ps'
  end.

Definition searchsorted_right (cdf : list Q) (u : Q) : nat :=
  length (filter (fun c => Qle_bool c u) cdf).

Definition choice `{RandomSource} (n : nat) (p : list Q) : M (list nat) :=
  (us <- repeatM n draw_uniform ;;
   ret (map (searchsorted_right (cumsum 0 p)) us))%m.

Definition take {A} (xs : list A) (locs : list nat) : result (list A) :=
  map_result
    (fun i => match nth_error xs i with
              | Some x => Ok x
              | None => Raise IndexError_take
              end)
    locs.

(** The inner function [_sample] of [_sample_unobserved] (lines 118-133). *)
Definition _sample `{RandomSource} (n_samples_div : Q)
    (group : list weighted_row) : M (option (list (Z * Z))) :=
  let column := map w_unobserved_crimes group in
  let unobserved := present column in
  if nunique unobserved >? 1
  then raise (ValueError_conflicting (unique_values column))
  else
    (n_samples <- lift (py_int (Float.div (mean unobserved) (FNum n_samples_div))) ;;
     if le0 (Float.sum (map crime_weight group)) || (n_samples <? 1)
     then ret None
     else
       p <- lift (preprocess_weights (map crime_weight group)) ;;
       locs <- choice (Z.to_nat n_samples) p ;;
       samples <- lift (take (map (fun r => uid (w_row r)) group) locs) ;;
       ret (Some (Counter samples)))%m.

(** [df.groupby(groups).apply(_sample)], the removal of the groups without
    samples and the [explode] into one row per (group, individual). *)
Definition explode (applied : list (key * option (list (Z * Z))))
    : list sample_row :=
  flat_map
    (fun kv =>
       match snd kv with
       | None => []
       | Some items =>
           map (fun it => mkSample (fst kv) (fst it) (snd it)) items
       end)
    applied.

Definition without_samples (kv : key * option (list (Z * Z))) : bool :=
  match snd kv with None => true | Some _ => false end.

(** Lines 136-142.  When [_sample] returned [None] for every group, or
    there is no group, [groupby.apply] returns an empty DataFrame, which
    has no [to_frame]: line 136 raises [AttributeError]. *)
Definition _sample_unobserved `{RandomSource} (df : list weighted_row)
    (groups : list string) (n_samples_div : Q) : M (list sample_row) :=
  (applied <-
     mapM (fun k => s <- _sample n_samples_div (group (w_key groups) k df) ;;
                    ret (k, s))
          (group_keys (w_key groups) df) ;;
   if forallb without_samples applied
   then raise AttributeError_to_frame
   else ret (explode applied))%m.

(** ** Imputation on one partition: [_add_unobserved] *)

Record out_row : Type := mkOut {
  x_row : weighted_row;
  offense_unobserved : Z;
  offense_total : Z
}.

Definition x_long (r : out_row) : long_row := w_row (x_row r).

Definition not_offense_category (c : string) : bool :=
  negb (String.eqb c "offense_category").

(** The values of the demographic columns inside a key over [group_all]. *)
Definition sub_key (group_all : list string) (k : key) : key :=
  map snd (filter (fun p => not_offense_category (fst p)) (combine group_all k)).

(** Lines 150-157: the observed count per group, the number of distinct
    individuals per demographic group, and the matching rate row. *)
Definition offenses_frame (df : list long_row) (group_all : list string)
    (crimes : list rate_row) : list offenses_row :=
  let groups := filter not_offense_category group_all in
  let offenses :=
    map (fun k => (k, sumZ (map offense_count (group (key_of group_all) k df))))
        (group_keys (key_of group_all) df) in
  let pop_size :=
    map (fun g => (g, nunique (map uid (group (key_of groups) g df))))
        (group_keys (key_of groups) df) in
  let offenses :=
    merge_left (fun o p => key_eqb (sub_key group_all (fst o)) (fst p))
               offenses pop_size in
  let offenses :=
    merge_left (fun o c => key_eqb (fst (fst o)) (r_key c)) offenses crimes in
  map (fun o =>
         mkOffenses (fst (fst (fst o))) (snd (fst (fst o)))
           (match snd (fst o) with
            | Some p => of_int (snd p)
            | None => FNaN
            end)
           (match snd o with
            | Some c => r_col c
            | None => fun _ => FNaN
            end))
      offenses.

(** Lines 175-176: the per-group columns joined onto the rows, and the
    sampling weight. *)
Definition weighted_frame (df : list long_row) (group_all : list string)
    (omega : Q) (counted : list counted_row) : list weighted_row :=
  map (fun rc =>
         let upp := match snd rc with
                    | Some c => unobserved_per_person c
                    | None => FNaN
                    end in
         mkWeighted (fst rc) upp (option_map unobserved_crimes (snd rc))
           (Float.add upp
              (Float.mul (FNum omega) (of_int (offense_count (fst rc))))))
      (merge_left
         (fun r c => key_eqb (key_of group_all r) (o_key (c_offenses c)))
         df counted).

(** Lines 181-183: the samples joined back, a missing count filled with
    zero, and the total. *)
Definition assigned_frame (df : list weighted_row) (group_all : list string)
    (samples : list sample_row) : list out_row :=
  map (fun rs =>
         let unobserved := match snd rs with
                           | Some s => s_offense_unobserved s
                           | None => 0
                           end in
         mkOut (fst rs) unobserved
               (offense_count (w_row (fst rs)) + unobserved))
      (merge_left
         (fun r s => key_eqb (w_key group_all r) (s_key s)
                     && Z.eqb (uid (w_row r)) (s_uid s))
         df samples).

Definition _add_unobserved `{RandomSource} (df : list long_row)
    (group_all : list string) (crimes : list rate_row) (lam : option Q)
    (omega n_samples_div : Q) (lambda_col arrest_col : string)
    : M (list out_row) :=
  let offenses := offenses_frame df group_all crimes in
  (offenses <- lift (_count_unobserved offenses lam arrest_col lambda_col) ;;
   if existsb (fun c => isna (unobserved_per_person c)) offenses
   then raise RuntimeError_assign
   else
     let df := weighted_frame df group_all omega offenses in
     samples <- _sample_unobserved df group_all n_samples_div ;;
     ret (assigned_frame df group_all samples))%m.

(** ** The window assembler *)

(** What [synthetic_assignment.py] imports from [cj_pipeline.config] and
    [cj_pipeline.neulaw.assignment_preprocessing]: the offense columns, the
    grouping columns of the two rate sources, and the three data
    providers.  A provider is initialised with the start year and the
    window (and, for the rate sources, the smoothing mode and the rate
    multipliers) and then maps a year to a frame. *)
Class Environment : Type := {
  CRIMES : list string;
  NEULAW_TO_NCVS : list string;
  NEULAW_TO_NSDUH : list string;
  init_neulaw : Z -> Z -> Z -> list wide_row;
  init_ncvs :
    Z -> Z -> string -> option (list (string * Q)) -> Z -> list rate_row;
  init_nsduh :
    Z -> Z -> string -> option (list (string * Q)) -> Z -> list rate_row
}.

Fixpoint lookup {A} (name : string) (l : list (string * A)) : option A :=
  match l with
  | [] => None
  | (n, a) :: l' => if String.eqb name n then Some a else lookup name l'
  end.

(** [df.melt(id_vars=..., value_vars=CRIMES, ...)]: column by column, and
    inside a column row by row. *)
Definition melt (value_vars : list string) (df : list wide_row)
    : result (list long_row) :=
  map_result
    (fun cr =>
       match lookup (fst cr) (wd_counts (snd cr)) with
       | Some n =>
           Ok (mkLong (wd_uid (snd cr)) (wd_dob (snd cr)) (wd_attr (snd cr))
                      (fst cr) n)
       | None => Raise (KeyError_column (fst cr))
       end)
    (flat_map (fun c => map (fun r => (c, r)) df) value_vars).

Definition nsduh_ids (r : long_row) : bool :=
  existsb (String.eqb (offense_category r)) ["dui"; "drugs_use"; "drugs_sell"]%string.

(** The index of the pivot: 'def.gender', 'calc.race', 'def.uid',
    'def.dob', 'age_cat'. *)
Record pivot_index : Type := mkIndex {
  i_gender : string;
  i_race : string;
  i_uid : Z;
  i_dob : date;
  i_age_cat : string
}.

Definition date_eqb (a b : date) : bool :=
  (d_year a =? d_year b) && (d_month a =? d_month b) && (d_day a =? d_day b).

Definition index_eqb (a b : pivot_index) : bool :=
  String.eqb (i_gender a) (i_gender b) && String.eqb (i_race a) (i_race b)
  && (i_uid a =? i_uid b) && date_eqb (i_dob a) (i_dob b)
  && String.eqb (i_age_cat a) (i_age_cat b).

Definition index_of (r : out_row) : pivot_index :=
  let l := x_long r in
  mkIndex (attr l "def.gender") (attr l "calc.race") (uid l) (dob l)
          (attr l "age_cat").

(** A row of the wide window output: the index and, per offense column,
    the mean of [offense_total] over the rows of that cell (missing when
    the cell is empty). *)
Record pivot_row : Type := mkPivot {
  p_index : pivot_index;
  p_crimes : list (string * float64)
}.

Definition lex (c : comparison) (rest : comparison) : comparison :=
  match c with Eq => rest | _ => c end.

(** The position at which a value first occurs in a column: with
    [sort=False] the group-by numbers the values of each index level in
    this order. *)
Fixpoint first_index {A} (eqb : A -> A -> bool) (x : A) (l : list A) : nat :=
  match l with
  | [] => O
  | y :: l' => if eqb y x then O else S (first_index eqb x l')
  end.

(** The order of the rows after the [unstack] of the pivot: level by
    level, each level in the order of first occurrence of its values. *)
Definition by_level {A} (eqb : A -> A -> bool) (level : pivot_index -> A)
    (indices : list pivot_index) (a b : pivot_index) : comparison :=
  Nat.compare (first_index eqb (level a) (map level indices))
              (first_index eqb (level b) (map level indices)).

Definition index_compare (df : list out_row) (a b : pivot_index) : comparison :=
  let indices := map index_of df in
  lex (by_level String.eqb i_gender indices a b)
      (lex (by_level String.eqb i_race indices a b)
           (lex (by_level Z.eqb i_uid indices a b)
                (lex (by_level date_eqb i_dob indices a b)
                     (by_level String.eqb i_age_cat indices a b)))).

Definition pivot_table (df : list out_row) : list pivot_row :=
  let columns := unique String.eqb (map (fun r => offense_category (x_long r)) df) in
  map (fun i =>
         mkPivot i
           (map (fun c =>
                   (c, mean (map offense_total
                               (filter (fun r =>
                                          index_eqb (index_of r) i
                                          && String.eqb (offense_category (x_long r)) c)
                                       df))))
                columns))
      (sort (index_compare df) (unique index_eqb (map index_of df))).

Section Window.
Context `{RandomSource} `{Environment}.
Variables (start_year end_year window : Z) (lam : option Q) (omega : Q)
          (arrest_col smoothing : string)
          (rate_mult_ncvs rate_mult_nsduh : option (list (string * Q))).

(** Lines 200-231 of the closure [_window]: the bound check, the three
    reads, the melt and the two imputations; returns [len_before] and the
    recombined frame. *)
Definition window_recombined (window_end : Z) (n_samples_div : Q)
    : M (nat * list out_row) :=
  let neulaw_gen := init_neulaw start_year window in
  let ncvs_gen := init_ncvs start_year window smoothing rate_mult_ncvs in
  let nsduh_gen := init_nsduh start_year window smoothing rate_mult_nsduh in
  let year := window_end - window in
  if negb ((start_year <=? year) && (year <=? end_year))
  then raise (ValueError_window window_end start_year window)
  else
    (log_read Neulaw year ;;;
     log_read Ncvs year ;;;
     log_read Nsduh year ;;;
     df <- lift (melt CRIMES (neulaw_gen year)) ;;
     let len_before := List.length df in
     a <- _add_unobserved (filter (fun r => negb (nsduh_ids r)) df)
            NEULAW_TO_NCVS (ncvs_gen year) lam omega n_samples_div
            "lambda" arrest_col ;;
     b <- _add_unobserved (filter nsduh_ids df)
            NEULAW_TO_NSDUH (nsduh_gen year) lam omega n_samples_div
            "lambda_smooth" arrest_col ;;
     ret (len_before, a ++ b))%m.

(** The closure [_window] returned by [_window_sampler]. *)
Definition _window (window_end : Z) (n_samples_div : Q)
    : M (list pivot_row) :=
  (lb_df <- window_recombined window_end n_samples_div ;;
   if negb (Nat.eqb (List.length (snd lb_df)) (fst lb_df))
   then raise RuntimeError_size
   else ret (pivot_table (snd lb_df)))%m.
End Window.

Definition _window_sampler `{RandomSource} `{Environment}
    (start_year end_year window : Z) (lam : option Q) (omega : Q)
    (arrest_col smoothing : string)
    (rate_mult_ncvs rate_mult_nsduh : option (list (string * Q)))
    : Z -> Q -> M (list pivot_row) :=
  _window start_year end_year window lam omega arrest_col smoothing
          rate_mult_ncvs rate_mult_nsduh.

(** ** Age re-derivation and the rolling driver *)

(** A row of the rolling frame after the group-by over 'calc.race',
    'def.dob', 'def.gender', 'def.uid' and the sum of the offense columns. *)
Record summed_row : Type := mkSummed {
  f_race : string;
  f_dob : date;
  f_gender : string;
  f_uid : Z;
  f_crimes : list (string * float64)
}.

(** A row of the returned frame: a row of the rolling frame with its age
    category, or a row in which only the age category is present (see
    [_add_age]). *)
Inductive final_row : Type :=
| mkFinal (row : summed_row) (label : string)
| nan_row (label : string).

Definition age_cat (r : final_row) : string :=
  match r with mkFinal _ label | nan_row label => label end.

Definition f_row (r : final_row) : option summed_row :=
  match r with mkFinal row _ => Some row | nan_row _ => None end.

(** Line 94-95: whole days between January 1st of [end_year] and the date
    of birth, divided by 365.25. *)
Definition age_days (end_year : Z) (birth : date) : Z :=
  days_from_civil (year_start end_year) - days_from_civil birth.

Definition age_years (end_year : Z) (birth : date) : Q :=
  (inject_Z (age_days end_year birth) / (1461 # 4))%Q.

(** [pd.cut(age, right=True, bins=[0, 17, 29, 500], labels=...)] followed
    by [astype('str')]: intervals closed on the right, and the string of a
    missing value outside all of them. *)
Definition Qltb (a b : Q) : bool := negb (Qle_bool b a).

Definition cut_age (age : Q) : string :=
  if Qltb 0 age && Qle_bool age 17 then "< 18"
  else if Qltb 17 age && Qle_bool age 29 then "18-29"
  else if Qltb 29 age && Qle_bool age 500 then "> 29"
  else "nan".

(** Lines 93-103.  Line 98 assigns the labels of all rows, as a Series,
    to the frame filtered by [age > 10] and pandas aligns them on the
    index; when the filter left no row, pandas instead gives the empty
    frame the index of the Series: every row comes back with its label
    and missing values in all other columns. *)
Definition _add_age (df : list summed_row) (end_year : Z) : list final_row :=
  let age r := age_years end_year (f_dob r) in
  let labelled :=
    match filter (fun r => Qltb 10 (age r)) df with
    | [] => map (fun r => nan_row (cut_age (age r))) df
    | kept => map (fun r => mkFinal r (cut_age (age r))) kept
    end in
  filter (fun r => negb (String.eqb (age_cat r) "< 18")) labelled.

(** The group key of line 67 and its order. *)
Definition summed_key (r : pivot_row) : string * date * string * Z :=
  let i := p_index r in (i_race i, i_dob i, i_gender i, i_uid i).

Definition summed_key_eqb (a b : string * date * string * Z) : bool :=
  let '(r1, d1, g1, u1) := a in
  let '(r2, d2, g2, u2) := b in
  String.eqb r1 r2 && date_eqb d1 d2 && String.eqb g1 g2 && (u1 =? u2).

Definition summed_key_compare (a b : string * date * string * Z) : comparison :=
  let '(r1, d1, g1, u1) := a in
  let '(r2, d2, g2, u2) := b in
  lex (String.compare r1 r2)
      (lex (date_compare d1 d2) (lex (String.compare g1 g2) (Z.compare u1 u2))).

(** Lines 65-67: concatenate, drop 'age_cat', group and sum.  A cell that
    is missing in a window counts as zero in the sum. *)
Definition sum_windows (df : list pivot_row) : list summed_row :=
  let columns := unique String.eqb (flat_map (fun r => map fst (p_crimes r)) df) in
  map (fun k =>
         let rows := filter (fun r => summed_key_eqb (summed_key r) k) df in
         let '(race, birth, gender, u) := k in
         mkSummed race birth gender u
           (map (fun c =>
                   (c, Float.sum
                         (map (fun r => match lookup c (p_crimes r) with
                                        | Some v => v
                                        | None => FNaN
                                        end)
                              rows)))
                columns))
      (sort summed_key_compare (unique summed_key_eqb (map summed_key df))).

(** [enumerate(range(lo, hi))]. *)
Definition range (lo hi : Z) : list Z :=
  map (fun i => lo + Z.of_nat i) (seq 0 (Z.to_nat (hi - lo))).

Definition enumerate {A} (l : list A) : list (nat * A) :=
  combine (seq 0 (List.length l)) l.

Section Rolling.
Context `{RandomSource} `{Environment}.

(** Lines 55-65: one window per end year, the first at full scale, the
    others divided by the number of years in a window. *)
Definition rolling_windows (start_year end_year window : Z)
    (lam : option Q) (omega : Q) (arrest_col smoothing : string)
    (rate_mult_ncvs rate_mult_nsduh : option (list (string * Q)))
    : M (list (list pivot_row)) :=
  let sample_window :=
    _window_sampler start_year end_year window lam omega arrest_col
                    smoothing rate_mult_ncvs rate_mult_nsduh in
  let years_in_window := window + 1 in
  mapM (fun iw =>
          sample_window (snd iw)
            (if Nat.eqb (fst iw) 0 then 1%Q else inject_Z years_in_window))
       (enumerate (range (start_year + window) (end_year + 1))).

Definition rolling_crime_assignment (start_year end_year window seed : Z)
    (lam : option Q) (omega : Q) (arrest_col smoothing : string)
    (rate_mult_ncvs rate_mult_nsduh : option (list (string * Q)))
    : result (list final_row) :=
  if negb ((0 <=? seed) && (seed <? 2 ^ 32))
  then Raise ValueError_seed
  else
    let rng := RandomState seed in
    match rolling_windows start_year end_year window lam omega arrest_col
            smoothing rate_mult_ncvs rate_mult_nsduh (mkWorld _ rng []) with
    | (Ok [], _) => Raise ValueError_no_objects
    | (Ok samples, _) => Ok (_add_age (sum_windows (concat samples)) end_year)
    | (Raise e, _) => Raise e
    | (Unspecified, _) => Unspecified
    end.
End Rolling.

(** ** The specification's formulas, as written

    Definitions that follow the words of the specification rather than the
    code; they are compared with the code below. *)

Module Spec.

(** "[total_crimes = observed_count / arrest_rate] if the override is
    absent, else [observed_count / lam], but only when [arrest_rate > 0];
    if [arrest_rate <= 0], [total_crimes = observed_count]", rounded to the
    nearest integer. *)
Definition total_crimes (observed_count : Z) (arrest_rate : Q)
    (lam : option Q) : Z :=
  if Qltb 0 arrest_rate
  then round_half_even
         (match lam with
          | None => inject_Z observed_count / arrest_rate
          | Some l => inject_Z observed_count / l
          end)%Q
  else observed_count.

(** "[n_samples = round(unobserved_crimes / n_samples_div)]". *)
Definition n_samples (unobserved_crimes : Z) (n_samples_div : Q) : Z :=
  round_half_even (inject_Z unobserved_crimes / n_samples_div)%Q.

(** "a window end-year outside the configured [[start_year, end_year]]
    bound". *)
Definition window_end_in_bound (start_year end_year window_end : Z) : bool :=
  (start_year <=? window_end) && (window_end <=? end_year).

End Spec.

(** ** Predicates used in the statements *)

(** The rate that multiplies [offense_count / arrest_rate]: the global
    override when there is one, the rate column of the row otherwise. *)
Definition rate_used (lam : option Q) (lambda_col : string) (r : offenses_row)
    : float64 :=
  match lam with None => o_rate r lambda_col | Some l => FNum l end.

(** The estimator extrapolates a row: [arrest > 0] and both rates finite. *)
Definition extrapolated (lam : option Q) (arrest_col lambda_col : string)
    (r : offenses_row) (a l : Q) : Prop :=
  o_rate r arrest_col = FNum a /\ (0 < a)%Q /\ rate_used lam lambda_col r = FNum l.

(** The numbers of a row stay inside the two formats: the count converts
    to a double without rounding, the rate is a double, and the double
    that reaches the cast is finite and inside int64. *)
Definition in_range (lam : option Q) (arrest_col lambda_col : string)
    (r : offenses_row) (l : Q) : Prop :=
  Z.abs (o_offense_count r) <= 2 ^ 53
  /\ (Qabs l <= Qpow2 1024)%Q
  /\ exists y,
       total_crimes_float (o_offense_count r) (o_rate r arrest_col)
                          (o_rate r lambda_col) lam = FNum y
       /\ int64_min <= Qtrunc y <= int64_max.

(** What the estimator computes for a row, in the words of the amended
    claim: the double-precision formula, the fallback to the observed
    count, the residual, and how far the total can be from the exact
    value of the formula. *)
Definition estimated (lam : option Q) (arrest_col lambda_col : string)
    (r : offenses_row) (c : counted_row) : Prop :=
  let count := o_offense_count r in
  let arrest := o_rate r arrest_col in
  c_offenses c = r
  /\ unobserved_crimes c = wrap64 (total_crimes c - count)
  /\ (gt0 arrest = true ->
      total_crimes c
      = astype_int64
          (Float.round
             (mul64 (div64 (of_int64 count) arrest)
                    (rate_used lam lambda_col r))))
  /\ (gt0 arrest = false -> Z.abs count <= 2 ^ 53 -> total_crimes c = count)
  /\ (forall a l,
        extrapolated lam arrest_col lambda_col r a l ->
        in_range lam arrest_col lambda_col r l ->
        let exact := (inject_Z count / a * l)%Q in
        (Qabs (inject_Z (total_crimes c) - exact)
         <= (1 # 2) + (Qabs exact + 1) * Qpow2 (-50))%Q).

(** The exceptions that can leave [_sample]. *)
Definition sample_exn (column : list (option Z)) (e : exn) : Prop :=
  (1 < nunique (present column)
   /\ e = ValueError_conflicting (unique_values column))
  \/ (nunique (present column) <= 1 /\
      (e = OverflowError_inf_to_int \/ e = ValueError_nan_to_int
       \/ e = ValueError_weights \/ e = IndexError_take)).

(** The exceptions that can leave [_add_unobserved]. *)
Definition add_unobserved_exn (e : exn) : Prop :=
  match e with
  | ValueError_conflicting _ | OverflowError_inf_to_int
  | ValueError_nan_to_int | ValueError_weights | IndexError_take
  | RuntimeError_assign | AttributeError_to_frame => True
  | _ => False
  end.

(** [m] raises only exceptions in [P] and leaves the read log alone. *)
Definition quiet `{RandomSource} {A} (P : exn -> Prop) (m : M A) : Prop :=
  forall w, reads (snd (m w)) = reads w
            /\ forall e, fst (m w) = Raise e -> P e.

(** The counts of the sample rows that a weighted row matches in the
    join of line 181. *)
Definition sample_matches (group_all : list string) (r : weighted_row)
    (s : sample_row) : bool :=
  key_eqb (w_key group_all r) (s_key s) && Z.eqb (uid (w_row r)) (s_uid s).

Definition matched_count (group_all : list string)
    (samples : list sample_row) (r : weighted_row) : Z :=
  sumZ (map s_offense_unobserved (filter (sample_matches group_all r) samples)).

(** The number of tokens in one entry of the applied frame. *)
Definition entry_total (kv : key * option (list (Z * Z))) : Z :=
  match snd kv with
  | Some items => sumZ (map snd items)
  | None => 0
  end.

(** ** Concrete inputs

    A small random source, environment and frames on which the definitions
    above are evaluated. *)

Module Demo.

Local Open Scope string_scope.

(** A linear congruential generator in place of the Mersenne twister. *)
Definition lcg : RandomSource :=
  {| rng_state := Z;
     RandomState := fun seed => seed mod 1009;
     random_sample := fun s => (Qmake (s mod 1009) 1009, (s * 31 + 7) mod 1009) |}.

(** The same generator with its state stored at an offset: another object
    that delivers the same stream. *)
Definition lcg_offset : RandomSource :=
  {| rng_state := Z;
     RandomState := fun seed => seed mod 1009 + 2000;
     random_sample := fun s =>
       (Qmake ((s - 2000) mod 1009) 1009,
        ((s - 2000) * 31 + 7) mod 1009 + 2000) |}.

Definition world0 : @world lcg := @mkWorld lcg 5 [].

Definition attrs (gender race age : string) : string -> string :=
  fun name =>
    if String.eqb name "def.gender" then gender
    else if String.eqb name "calc.race" then race
    else if String.eqb name "age_cat" then age
    else "".

Definition group_all : list string :=
  ["offense_category"; "calc.race"; "def.gender"; "age_cat"].

Definition person (u : Z) (category : string) (count : Z) : long_row :=
  mkLong u (mkDate 1980 3 14) (attrs "M" "white" "18-29") category count.

Definition rates (arrest lambda_rate : float64) : string -> float64 :=
  fun name =>
    if String.eqb name "arrest_rate_smooth" then arrest
    else if String.eqb name "lambda" then lambda_rate
    else if String.eqb name "lambda_smooth" then lambda_rate
    else FNaN.

Definition rate (category : string) (arrest lambda_rate : float64) : rate_row :=
  mkRate [category; "white"; "M"; "18-29"] (rates arrest lambda_rate).

(** One group of two individuals with observed counts 10 and 0. *)
Definition cohort : list long_row :=
  [person 1 "assault" 10; person 2 "assault" 0].

(** An offenses row with observed count 10, arrest rate 1/2 and rate
    column 1/4. *)
Definition offenses_10 : offenses_row :=
  mkOffenses ["assault"; "white"; "M"; "18-29"] 10 (of_int 2)
             (rates (FNum (1 # 2)) (FNum (1 # 4))).


(** A weighted row of a population of two with [omega = 1]. *)
Definition weighted (u count unobserved : Z) : weighted_row :=
  let per_person := FNum (inject_Z unobserved / 2) in
  mkWeighted (person u "assault" count) per_person (Some unobserved)
             (Float.add per_person (of_int count)).

(** A group with 7 unobserved crimes to distribute. *)
Definition group_7 : list weighted_row :=
  [weighted 1 10 7; weighted 2 0 7].

(** A group with a negative residual. *)
Definition group_neg : list weighted_row :=
  [weighted 1 10 (-5); weighted 2 0 (-5)].

(** A group whose rows disagree on the number of unobserved crimes. *)
Definition group_conflict : list weighted_row :=
  [weighted 1 10 7; weighted 2 0 8].

Definition wide (u : Z) (birth : date) (assault dui : Z) : wide_row :=
  mkWide u birth (attrs "M" "white" "18-29") [("assault", assault); ("dui", dui)].

Definition env (ncvs nsduh : list rate_row) : Environment :=
  {| CRIMES := ["assault"; "dui"];
     NEULAW_TO_NCVS := group_all;
     NEULAW_TO_NSDUH := group_all;
     init_neulaw := fun _ _ _ =>
       [wide 1 (mkDate 1980 3 14) 10 1; wide 2 (mkDate 1975 7 1) 0 2];
     init_ncvs := fun _ _ _ _ _ => ncvs;
     init_nsduh := fun _ _ _ _ _ => nsduh |}.

Definition ncvs_table : list rate_row :=
  [rate "assault" (FNum (1 # 2)) (FNum 1)].

Definition nsduh_table : list rate_row :=
  [rate "dui" (FNum (1 # 4)) (FNum (1 # 2))].

(** The same victimization table with the row of the group repeated. *)
Definition ncvs_table_dup : list rate_row :=
  ncvs_table ++ ncvs_table.

(** One window of the configuration [start_year = 2000], [end_year = 2010],
    [window = 3] on these tables. *)
Definition recombined (ncvs : list rate_row) (window_end : Z)
    : result (nat * list out_row) * @world lcg :=
  @window_recombined lcg (env ncvs nsduh_table) 2000 2010 3 None 1
    "arrest_rate_smooth" "lr_pr" None None window_end 1 world0.

Definition window (ncvs : list rate_row) (window_end : Z)
    : result (list pivot_row) * @world lcg :=
  @_window lcg (env ncvs nsduh_table) 2000 2010 3 None 1
    "arrest_rate_smooth" "lr_pr" None None window_end 1 world0.

(** Two groups of the same two individuals.  For burglary the rate column
    lies below the arrest rate, so the residual of that group is negative;
    for assault it is positive. *)
Definition cohort_mixed : list long_row :=
  [person 1 "assault" 10; person 2 "assault" 0;
   person 1 "burglary" 10; person 2 "burglary" 0].

Definition mixed_table : list rate_row :=
  [rate "assault" (FNum (1 # 2)) (FNum 1);
   rate "burglary" (FNum (1 # 2)) (FNum (1 # 4))].

Definition add_unobserved (df : list long_row) (crimes : list rate_row)
    : result (list out_row) * @world lcg :=
  @_add_unobserved lcg df group_all crimes None 1 1 "lambda"
    "arrest_rate_smooth" world0.


Definition assault_key : key := ["assault"; "white"; "M"; "18-29"].

Definition rows_of (r : result (list out_row) * @world lcg) : list out_row :=
  match fst r with Ok out => out | _ => [] end.

Definition summed (u : Z) (birth : date) : summed_row :=
  mkSummed "white" birth "M" u [("assault", FNum 3)].

End Demo.

(** Unfolds the monad's operations in the goal and in the hypotheses. *)
Ltac munfold := unfold bind, ret, raise, lift in *.

(** * The rest of the file: definitions used below *)

From Stdlib Require Import Permutation.

(** The state of the generator after [n] draws. *)
Fixpoint advance `{RandomSource} (n : nat) (s : rng_state) : rng_state :=
  match n with
  | O => s
  | S n' => advance n' (snd (random_sample s))
  end.

(** The three reads of one window, for its first year. *)
Definition window_reads (year : Z) : list read_event :=
  [Read Neulaw year; Read Ncvs year; Read Nsduh year].

(** The exceptions that can leave a window whose year is accepted. *)
Definition window_exn (e : exn) : Prop :=
  match e with
  | ValueError_conflicting _ | OverflowError_inf_to_int
  | ValueError_nan_to_int | ValueError_weights | IndexError_take
  | KeyError_column _ | RuntimeError_size | AttributeError_to_frame => True
  | _ => False
  end.

(** ** The cache on disk: [_file_path], [get_synth] and [main]

    Conventions of this layer.
    - A frame is cached under BASE_DIR / 'data' / 'scratch' / 'synth' /
      directory / file name; a [path] holds the last two components, the
      two strings the code computes.
    - The file system, the CSV writer and reader of pandas and the product
      of two doubles belong to the platform: they are the operations of
      the class [Platform], and a theorem names every law of them it uses.
      Failures of the disk itself (permissions, a full device) are not
      modelled.
    - Log messages are dropped. *)

From Stdlib Require Import Ascii.
From Stdlib Require DecimalString DecimalZ DecimalFacts.

Local Open Scope string_scope.

(** The exceptions of this layer: what the functions above raise, and the
    [IndexError] of [k[0]] on an empty key. *)
Inductive synth_exn : Type :=
| IndexError_string_index
| Lower (e : exn).

Inductive outcome (A : Type) : Type :=
| Returned (a : A)
| Raised (e : synth_exn)
| Undetermined.

Arguments Returned {A} a.
Arguments Raised {A} e.
Arguments Undetermined {A}.

Definition of_result {A} (r : result A) : outcome A :=
  match r with
  | Ok a => Returned a
  | Raise e => Raised (Lower e)
  | Unspecified => Undetermined
  end.

Definition and_then {A B} (o : outcome A) (f : A -> outcome B) : outcome B :=
  match o with
  | Returned a => f a
  | Raised e => Raised e
  | Undetermined => Undetermined
  end.

Declare Scope outcome_scope.
Delimit Scope outcome_scope with o.
Notation "x <- o ;; k" := (and_then o (fun x => k))
  (at level 100, o at next level, right associativity) : outcome_scope.

(** A list comprehension whose element expression can raise. *)
Fixpoint comprehension {A B} (f : A -> outcome B) (l : list A)
    : outcome (list B) :=
  match l with
  | [] => Returned []
  | a :: l' => (b <- f a ;; bs <- comprehension f l' ;; Returned (b :: bs))%o
  end.

Record path : Type := mkPath {
  directory : string;
  file_name : string
}.

Class Platform : Type := {
  float_mul : Q -> Q -> float64;            (* x * y on two doubles *)
  disk : Type;
  csv : Type;
  mkdir : string -> disk -> disk;
    (* data_path.mkdir(parents=True, exist_ok=True) *)
  contents : disk -> path -> option csv;
    (* [Some c] when file_path.is_file(), with the text [c] of the file *)
  write : path -> csv -> disk -> disk;
  to_csv : list final_row -> csv;           (* df.to_csv(index=False) *)
  read_csv : csv -> outcome (list final_row)
}.

(** The two laws of the disk the theorems below rely on: a file that was
    written is there with the text written, and creating a directory
    changes no file. *)
Definition lawful_disk `{Platform} : Prop :=
  (forall p c d, contents (write p c d) p = Some c)
  /\ (forall dir d p, contents (mkdir dir d) p = contents d p).

(** [f'{n}'] for an int. *)
Definition str (n : Z) : string :=
  DecimalString.NilZero.string_of_int (Z.to_int n).

Definition two_digits (n : Z) : string :=
  if (n <? 10)%Z then "0" ++ str n else str n.

(** [f'{x:.2f}'] for a finite float: the exact value rounded to
    hundredths, ties to even, the sign kept also when the digits are all
    zero. *)
Definition format_2f (x : Q) : string :=
  let hundredths := round_half_even (Qabs x * 100)%Q in
  (if Qsign_neg x then "-" else "")
  ++ str (hundredths / 100)%Z ++ "." ++ two_digits (hundredths mod 100)%Z.

(** A string is the UTF-8 text of a Python [str]: a character is a
    leading byte and the continuation bytes ([10xxxxxx]) that follow it. *)
Definition is_continuation (c : ascii) : bool :=
  (128 <=? nat_of_ascii c)%nat && (nat_of_ascii c <? 192)%nat.

Fixpoint continuation (s : string) : string :=
  match s with
  | EmptyString => EmptyString
  | String c s' =>
      if is_continuation c then String c (continuation s') else EmptyString
  end.

(** [k[0]] for a string [k]: its first character. *)
Definition first_char (k : string) : outcome string :=
  match k with
  | EmptyString => Raised IndexError_string_index
  | String c k' => Returned (String c (continuation k'))
  end.

(** Lines 77-78: the closure [_rate2string]. *)
Definition _rate2string `{Platform} (dct : list (string * Q)) : outcome string :=
  (parts <- comprehension
              (fun kv =>
                 k0 <- first_char (fst kv) ;;
                 n <- of_result (py_int (float_mul (snd kv) 1000%Q)) ;;
                 Returned (k0 ++ str n))
              dct ;;
   Returned (String.concat "_" parts))%o.

(** Lines 73-90.  The directory is created only when the name could be
    built. *)
Definition _file_path `{Platform} (start_year end_year window : Z)
    (lam : option Q) (omega : Q) (smoothing : string) (seed : Z)
    (rate_mult_ncvs rate_mult_nsduh : option (list (string * Q)))
    (d : disk) : outcome path * disk :=
  let file_name :=
    match lam with None => "nolam" | Some l => "lam" ++ format_2f l end in
  let file_name := file_name ++ "_om" ++ format_2f omega ++ "_" ++ smoothing in
  match (file_name <- match rate_mult_ncvs with
                      | Some dct => (r <- _rate2string dct ;;
                                     Returned (file_name ++ "_mcvs" ++ r))
                      | None => Returned file_name
                      end ;;
         file_name <- match rate_mult_nsduh with
                      | Some dct => (r <- _rate2string dct ;;
                                     Returned (file_name ++ "_mduh" ++ r))
                      | None => Returned file_name
                      end ;;
         Returned (file_name ++ "-" ++ str seed ++ ".csv"))%o with
  | Returned file_name =>
      let data_path :=
        str start_year ++ "-" ++ str end_year ++ "_" ++ str window in
      (Returned (mkPath data_path file_name), mkdir data_path d)
  | Raised e => (Raised e, d)
  | Undetermined => (Undetermined, d)
  end.

(** Lines 10-48. *)
Definition get_synth `{RandomSource} `{Environment} `{Platform}
    (start_year end_year window seed : Z) (lam : option Q) (omega : Q)
    (smoothing : string)
    (rate_mult_ncvs rate_mult_nsduh : option (list (string * Q)))
    (d : disk) : outcome (list final_row) * disk :=
  let arrest_col := "arrest_rate_smooth" in
  match _file_path start_year end_year window lam omega smoothing seed
                   rate_mult_ncvs rate_mult_nsduh d with
  | (Returned file_path, d) =>
      match contents d file_path with
      | Some text => (read_csv text, d)
      | None =>
          match rolling_crime_assignment start_year end_year window seed lam
                  omega arrest_col smoothing rate_mult_ncvs
                  rate_mult_nsduh with
          | Ok df => (Returned df, write file_path (to_csv df) d)
          | Raise e => (Raised (Lower e), d)
          | Unspecified => (Undetermined, d)
          end
      end
  | (Raised e, d) => (Raised e, d)
  | (Undetermined, d) => (Undetermined, d)
  end.

(** Lines 246-270. *)
Definition main `{RandomSource} `{Environment} `{Platform} (d : disk)
    : outcome unit * disk :=
  let start_year := 1992%Z in
  let end_year := 2012%Z in
  let window := 3%Z in
  let lam := Some 1%Q in
  let omega := 1%Q in
  let seed := 0%Z in
  let smoothing := "lr_pr" in
  let rate_mult_ncvs := @None (list (string * Q)) in
  let rate_mult_nsduh := @None (list (string * Q)) in
  match rolling_crime_assignment start_year end_year window seed lam omega
          "arrest_rate_smooth" smoothing rate_mult_ncvs rate_mult_nsduh with
  | Ok df =>
      match _file_path start_year end_year window lam omega smoothing seed
                       rate_mult_ncvs rate_mult_nsduh d with
      | (Returned file_path, d) =>
          (Returned tt,
           write file_path (to_csv df) (mkdir (directory file_path) d))
      | (Raised e, d) => (Raised e, d)
      | (Undetermined, d) => (Undetermined, d)
      end
  | Raise e => (Raised (Lower e), d)
  | Unspecified => (Undetermined, d)
  end.

(** Two floats print alike under [:.2f]: same sign, same hundredths. *)
Definition same_2f (x y : Q) : Prop :=
  Qsign_neg x = Qsign_neg y
  /\ round_half_even (Qabs x * 100)%Q = round_half_even (Qabs y * 100)%Q.

(** Two multiplier dictionaries print alike: entry by entry the same first
    letter of the key and the same [int(v * 1000)]. *)
Definition same_letters `{Platform} (dct dct' : list (string * Q)) : Prop :=
  Forall2 (fun kv kv' =>
             first_char (fst kv) = first_char (fst kv')
             /\ py_int (float_mul (snd kv) 1000%Q)
                = py_int (float_mul (snd kv') 1000%Q))
          dct dct'.

(** Proof devices for reading a name back: the longest prefix of decimal
    digits, and the longest prefix that is an integer as [str] prints
    it. *)
Definition is_digit (c : ascii) : bool :=
  (48 <=? nat_of_ascii c)%nat && (nat_of_ascii c <=? 57)%nat.

Fixpoint span_digits (s : string) : string * string :=
  match s with
  | EmptyString => (EmptyString, EmptyString)
  | String c s' =>
      if is_digit c
      then let (digits, rest) := span_digits s' in (String c digits, rest)
      else (EmptyString, s)
  end.

Definition take_int (s : string) : string * string :=
  match s with
  | EmptyString => (EmptyString, EmptyString)
  | String c s' =>
      if Ascii.eqb c "-"
      then let (digits, rest) := span_digits s' in (String c digits, rest)
      else span_digits s
  end.

(** A string that no integer can run into: empty, or starting with
    something else than a digit. *)
Definition stops_digits (s : string) : Prop :=
  match s with
  | EmptyString => True
  | String c _ => is_digit c = false
  end.

Definition same_multipliers `{Platform}
    (m m' : option (list (string * Q))) : Prop :=
  match m, m' with
  | None, None => True
  | Some dct, Some dct' => same_letters dct dct'
  | _, _ => False
  end.

(** A platform for the examples: exact products, a disk that is the list
    of the files written, most recent first, and a CSV format that is the
    frame itself. *)
Module DemoDisk.

Definition path_eqb (p q : path) : bool :=
  String.eqb (directory p) (directory q)
  && String.eqb (file_name p) (file_name q).

Fixpoint find_file {A} (d : list (path * A)) (p : path) : option A :=
  match d with
  | [] => None
  | (q, c) :: d' => if path_eqb q p then Some c else find_file d' p
  end.

Definition platform : Platform :=
  {| float_mul := fun x y => FNum (x * y);
     disk := list (path * list final_row);
     csv := list final_row;
     mkdir := fun _ d => d;
     contents := find_file;
     write := fun p c d => (p, c) :: d;
     to_csv := fun df => df;
     read_csv := fun c => Returned c |}.

Definition env : Environment := Demo.env Demo.ncvs_table Demo.nsduh_table.

Definition synth (seed : Z) (lam : option Q) (omega : Q)
    (rate_mult_nsduh : option (list (string * Q)))
    (d : @disk platform) : outcome (list final_row) * @disk platform :=
  @get_synth Demo.lcg env platform 2000%Z 2005%Z 3%Z seed lam omega "lr_pr" None
             rate_mult_nsduh d.

Definition frame_of (r : outcome (list final_row) * @disk platform)
    : list final_row :=
  match fst r with Returned df => df | _ => [] end.

End DemoDisk.

Local Close Scope string_scope.

(** * Properties *)

(** ** Rounding and truncation *)

Lemma Qle_bool_true (a b : Q) : Qle_bool a b = true <-> (a <= b)%Q.
Proof. apply Qle_bool_iff. Qed.

Lemma Qle_bool_false (a b : Q) : Qle_bool a b = false <-> (b < a)%Q.
Proof.
  split; intro Hf.
  - apply Qnot_le_lt. intro Hle. apply Qle_bool_iff in Hle. congruence.
  - destruct (Qle_bool a b) eqn:E; [|reflexivity].
    apply Qle_bool_iff in E. exfalso. apply (Qlt_not_le _ _ Hf E).
Qed.

Lemma Qltb_true (a b : Q) : Qltb a b = true <-> (a < b)%Q.
Proof.
  unfold Qltb. rewrite negb_true_iff. apply Qle_bool_false.
Qed.

Lemma Qltb_false (a b : Q) : Qltb a b = false <-> (b <= a)%Q.
Proof.
  unfold Qltb. rewrite negb_false_iff. apply Qle_bool_true.
Qed.

(** [round_half_even] returns a nearest integer. *)
Lemma round_half_even_nearest (q : Q) :
  (Qabs (q - inject_Z (round_half_even q)) <= 1 # 2)%Q.
Proof.
  unfold round_half_even.
  pose proof (Qfloor_le q) as Hlo.
  pose proof (Qlt_floor q) as Hhi.
  set (f := Qfloor q) in *.
  rewrite inject_Z_plus in Hhi. change (inject_Z 1) with 1%Q in Hhi.
  apply Qabs_Qle_condition.
  destruct (Qcompare (q - inject_Z f) (1 # 2)) eqn:E.
  - apply Qeq_alt in E.
    destruct (Z.even f); [|rewrite inject_Z_plus; change (inject_Z 1) with 1%Q];
      split; lra.
  - apply Qlt_alt in E. split; lra.
  - apply Qgt_alt in E. rewrite inject_Z_plus. change (inject_Z 1) with 1%Q.
    split; lra.
Qed.

Lemma round_half_even_Z (z : Z) : round_half_even (inject_Z z) = z.
Proof.
  unfold round_half_even. rewrite Qfloor_Z.
  destruct (Qcompare (inject_Z z - inject_Z z) (1 # 2)) eqn:E.
  - apply Qeq_alt in E. lra.
  - reflexivity.
  - apply Qgt_alt in E. lra.
Qed.

Lemma Qtrunc_Z (z : Z) : Qtrunc (inject_Z z) = z.
Proof.
  unfold Qtrunc. rewrite Qfloor_Z, Qceiling_Z. destruct (Qle_bool 0 (inject_Z z)); reflexivity.
Qed.

Lemma Qtrunc_comp (a b : Q) : (a == b)%Q -> Qtrunc a = Qtrunc b.
Proof.
  intro E. unfold Qtrunc.
  rewrite (Qfloor_comp _ _ E), (Qceiling_comp _ _ E).
  destruct (Qle_bool 0 a) eqn:Ha, (Qle_bool 0 b) eqn:Hb; try reflexivity.
  - apply Qle_bool_true in Ha. apply Qle_bool_false in Hb. lra.
  - apply Qle_bool_true in Hb. apply Qle_bool_false in Ha. lra.
Qed.

(** ** Frames row by row *)

Lemma map_result_Forall2 {A B} (f : A -> result B) (P : A -> B -> Prop) :
  (forall a b, f a = Ok b -> P a b) ->
  forall l bs, map_result f l = Ok bs -> Forall2 P l bs.
Proof.
  intros HP l. induction l as [|a l IH]; simpl; intros bs Hm.
  - inversion Hm. constructor.
  - destruct (f a) eqn:Ea; try discriminate.
    destruct (map_result f l) eqn:El; try discriminate.
    inversion Hm; subst. constructor; auto.
Qed.

Lemma map_result_total {A B} (f : A -> result B) (l : list A) :
  Forall (fun a => exists b, f a = Ok b) l -> exists bs, map_result f l = Ok bs.
Proof.
  induction 1 as [|a l [b Hb] _ [bs Hbs]]; simpl.
  - eauto.
  - rewrite Hb, Hbs. eauto.
Qed.


(** ** Doubles *)

Lemma round_half_even_comp (a b : Q) :
  (a == b)%Q -> round_half_even a = round_half_even b.
Proof.
  intro E. unfold round_half_even.
  rewrite (Qfloor_comp _ _ E).
  assert (E2 : (a - inject_Z (Qfloor b) == b - inject_Z (Qfloor b))%Q) by (rewrite E; reflexivity).
  rewrite (Qcompare_comp _ _ E2 (1#2) (1#2) (Qeq_refl _)). reflexivity.
Qed.

Lemma Qpow2_pos (e : Z) : (0 < Qpow2 e)%Q.
Proof.
  unfold Qpow2. destruct (0 <=? e) eqn:E.
  - apply Z.leb_le in E. change 0%Q with (inject_Z 0). rewrite <- Zlt_Qlt.
    now apply Z.pow_pos_nonneg.
  - apply Z.leb_gt in E. apply Qinv_lt_0_compat.
    change 0%Q with (inject_Z 0). rewrite <- Zlt_Qlt.
    apply Z.pow_pos_nonneg; lia.
Qed.

Lemma Qpow2_nonneg_exp (e : Z) : 0 <= e -> Qpow2 e = inject_Z (2 ^ e).
Proof. intro H. unfold Qpow2. apply Z.leb_le in H. now rewrite H. Qed.

Lemma Qpow2_opp (e : Z) : (Qpow2 (- e) == / Qpow2 e)%Q.
Proof.
  unfold Qpow2.
  destruct (0 <=? e) eqn:E1, (0 <=? - e) eqn:E2;
    try apply Z.leb_le in E1; try apply Z.leb_le in E2;
    try apply Z.leb_gt in E1; try apply Z.leb_gt in E2.
  - assert (e = 0) by lia. subst. reflexivity.
  - rewrite Z.opp_involutive. reflexivity.
  - rewrite Qinv_involutive. reflexivity.
  - lia.
Qed.

Lemma Qpow2_add (a b : Z) : (Qpow2 (a + b) == Qpow2 a * Qpow2 b)%Q.
Proof.
  assert (Hnn : forall x y, 0 <= x -> 0 <= y ->
                            (Qpow2 (x + y) == Qpow2 x * Qpow2 y)%Q).
  { intros x y Hx Hy. rewrite !Qpow2_nonneg_exp by lia.
    rewrite Z.pow_add_r by lia. now rewrite inject_Z_mult. }
  assert (Hmix : forall x y, 0 <= x -> 0 <= y ->
                             (Qpow2 (x - y) == Qpow2 x * / Qpow2 y)%Q).
  { intros x y Hx Hy.
    pose proof (Qpow2_pos y) as Py.
    destruct (Z.le_ge_cases y x) as [L|L].
    - replace x with ((x - y) + y) at 2 by lia.
      rewrite Hnn by lia. field. lra.
    - replace (x - y) with (- (y - x)) by lia. rewrite Qpow2_opp.
      replace y with ((y - x) + x) at 2 by lia.
      rewrite (Hnn (y - x) x) by lia.
      pose proof (Qpow2_pos (y - x)). pose proof (Qpow2_pos x).
      field. split; lra. }
  destruct (Z.le_ge_cases 0 a) as [Ha|Ha], (Z.le_ge_cases 0 b) as [Hb|Hb].
  - now apply Hnn.
  - replace (a + b) with (a - (- b)) by lia. rewrite Hmix by lia.
    replace b with (- - b) at 2 by lia. rewrite (Qpow2_opp (- b)). reflexivity.
  - replace (a + b) with (b - (- a)) by lia. rewrite Hmix by lia.
    replace a with (- - a) at 2 by lia. rewrite (Qpow2_opp (- a)). ring.
  - replace (a + b) with (- ((- a) + (- b))) by lia. rewrite Qpow2_opp.
    rewrite Hnn by lia.
    replace a with (- - a) at 2 by lia. replace b with (- - b) at 2 by lia.
    rewrite (Qpow2_opp (- a)), (Qpow2_opp (- b)).
    pose proof (Qpow2_pos (- a)). pose proof (Qpow2_pos (- b)).
    field. split; lra.
Qed.

Lemma Qpow2_le (a b : Z) : a <= b -> (Qpow2 a <= Qpow2 b)%Q.
Proof.
  intro H. replace b with (a + (b - a)) by lia. rewrite Qpow2_add.
  pose proof (Qpow2_pos a) as Pa.
  assert (1 <= Qpow2 (b - a))%Q.
  { rewrite Qpow2_nonneg_exp by lia. change 1%Q with (inject_Z 1).
    rewrite <- Zle_Qle. pose proof (Z.pow_pos_nonneg 2 (b - a)). lia. }
  nra.
Qed.

(** [2^(Qlog2 q) <= q] for a positive [q]. *)
Lemma Qlog2_le (q : Q) : (0 < q)%Q -> (Qpow2 (Qlog2 q) <= q)%Q.
Proof.
  intro Hq. unfold Qlog2.
  set (k := Z.log2 (Qnum q) - Z.log2 (Zpos (Qden q))).
  destruct (Qle_bool (Qpow2 k) q) eqn:E; [now apply Qle_bool_iff|].
  destruct q as [n d]. cbn [Qnum Qden] in *.
  assert (Hn : 0 < n) by (unfold Qlt in Hq; cbn in Hq; lia).
  pose proof (Z.log2_spec n Hn) as [Hn1 _].
  pose proof (Z.log2_spec (Zpos d) (Pos2Z.is_pos d)) as [_ Hd2].
  pose proof (Z.log2_nonneg n) as Ln. pose proof (Z.log2_nonneg (Zpos d)) as Ld.
  set (a := Z.log2 n) in *. set (b := Z.log2 (Zpos d)) in *.
  replace (k - 1) with (a - (b + 1)) by (unfold k; lia).
  replace (a - (b + 1)) with (a + - (b + 1)) by lia.
  rewrite Qpow2_add, Qpow2_opp, !Qpow2_nonneg_exp by lia.
  assert (H2 : (0 < inject_Z (2 ^ (b + 1)))%Q).
  { change 0%Q with (inject_Z 0). rewrite <- Zlt_Qlt. apply Z.pow_pos_nonneg; lia. }
  apply Qle_shift_div_r; [exact H2|].
  unfold Qle, Qmult, inject_Z. cbn [Qnum Qden].
  replace (Z.succ b) with (b + 1) in Hd2 by lia.
  rewrite Z.mul_1_r, Pos.mul_1_r. nia.
Qed.

Lemma round64_error (q : Q) :
  (Qabs (round64 q - q) <= Qpow2 (ulp_exponent q) * (1 # 2))%Q.
Proof.
  unfold round64. set (e := ulp_exponent q).
  pose proof (Qpow2_pos e) as Pe.
  pose proof (round_half_even_nearest (q / Qpow2 e)) as H.
  apply Qabs_Qle_condition in H. apply Qabs_Qle_condition.
  set (m := inject_Z (round_half_even (q / Qpow2 e))) in *.
  assert (Eq : (q == q / Qpow2 e * Qpow2 e)%Q) by (field; lra).
  set (x := (q / Qpow2 e)%Q) in *.
  destruct H as [H1 H2].
  split; nra.
Qed.

Lemma round64_zero (q : Q) : (q == 0)%Q -> (round64 q == 0)%Q.
Proof.
  intro E. unfold round64.
  assert (E2 : (q / Qpow2 (ulp_exponent q) == inject_Z 0)%Q).
  { unfold Qdiv.
    transitivity (0 * / Qpow2 (ulp_exponent q))%Q; [|ring].
    apply Qmult_comp; [exact E|reflexivity]. }
  rewrite (round_half_even_comp _ _ E2), round_half_even_Z. ring.
Qed.

Lemma ulp_exponent_bound (q : Q) :
  (0 < Qabs q)%Q ->
  (Qpow2 (ulp_exponent q) <= Qabs q * Qpow2 (-52) + Qpow2 (-1074))%Q.
Proof.
  intro Hpos. unfold ulp_exponent.
  pose proof (Qpow2_pos (-1074)) as P1. pose proof (Qpow2_pos (-52)) as P2.
  destruct (Z.max_spec (Qlog2 (Qabs q) - 52) (-1074)) as [[_ ->]|[_ ->]]; [nra|].
  replace (Qlog2 (Qabs q) - 52) with (Qlog2 (Qabs q) + -52) by lia.
  rewrite Qpow2_add. pose proof (Qlog2_le _ Hpos). nra.
Qed.

(** The error of one rounding: half a unit in the last place, that is at
    most [|q| * 2^-53] for a normal number and [2^-1075] below. *)
Lemma round64_close (q : Q) :
  (Qabs (round64 q - q) <= Qabs q * Qpow2 (-53) + Qpow2 (-1075))%Q.
Proof.
  pose proof (Qabs_nonneg q) as Hq.
  pose proof (Qpow2_pos (-53)) as P1. pose proof (Qpow2_pos (-1075)) as P2.
  destruct (Qlt_le_dec 0 (Qabs q)) as [Hpos|Hz].
  - pose proof (round64_error q) as He.
    pose proof (ulp_exponent_bound q Hpos) as Hu.
    assert (E1 : (Qpow2 (-52) * (1 # 2) == Qpow2 (-53))%Q) by reflexivity.
    assert (E2 : (Qpow2 (-1074) * (1 # 2) == Qpow2 (-1075))%Q) by reflexivity.
    nra.
  - assert (Ez : (q == 0)%Q).
    { apply Qabs_Qle_condition in Hz. lra. }
    pose proof (round64_zero q Ez) as Er.
    assert (Ed : (round64 q - q == 0)%Q) by lra.
    rewrite (Qabs_wd _ _ Ed). change (Qabs 0) with 0%Q. nra.
Qed.

Lemma round64_int (z : Z) :
  Z.abs z <= 2 ^ 53 -> (round64 (inject_Z z) == inject_Z z)%Q.
Proof.
  intro Hz.
  destruct (Z.eq_dec z 0) as [->|Hnz]; [now apply round64_zero|].
  unfold round64. set (e := ulp_exponent (inject_Z z)).
  assert (He : e <= 0 \/ (e = 1 /\ Z.abs z = 2 ^ 53)).
  { unfold e, ulp_exponent.
    assert (Hpos : (0 < Qabs (inject_Z z))%Q).
    { rewrite <- (inject_Z_abs z)%Q || idtac.
      unfold Qabs, inject_Z. cbn. unfold Qlt. cbn. lia. }
    pose proof (Qlog2_le _ Hpos) as Hl.
    set (L := Qlog2 (Qabs (inject_Z z))) in *.
    assert (HL : L <= 53).
    { destruct (Z_le_gt_dec L 53) as [|G]; [assumption|exfalso].
      assert (Hp : (Qpow2 54 <= Qpow2 L)%Q) by (apply Qpow2_le; lia).
      assert (Ha : (Qabs (inject_Z z) <= inject_Z (2 ^ 53))%Q).
      { unfold Qabs, inject_Z. cbn. unfold Qle. cbn. lia. }
      assert (Hc : (inject_Z (2 ^ 53) < Qpow2 54)%Q) by reflexivity.
      lra. }
    destruct (Z.eq_dec L 53) as [E|N].
    - right. split; [lia|].
      rewrite E in Hl. 
      assert (Hc : (Qpow2 53 == inject_Z (2 ^ 53))%Q) by reflexivity.
      assert (Ha : (Qabs (inject_Z z) == inject_Z (Z.abs z))%Q) by reflexivity.
      rewrite Hc, Ha in Hl. rewrite <- Zle_Qle in Hl. lia.
    - left. lia. }
  destruct He as [He|[He Hz2]].
  - assert (Ex : (inject_Z z / Qpow2 e == inject_Z (z * 2 ^ (- e)))%Q).
    { rewrite inject_Z_mult. rewrite <- (Qpow2_nonneg_exp (- e)) by lia.
      rewrite Qpow2_opp. reflexivity. }
    rewrite (round_half_even_comp _ _ Ex), round_half_even_Z.
    rewrite inject_Z_mult, <- (Qpow2_nonneg_exp (- e)) by lia.
    rewrite Qpow2_opp. pose proof (Qpow2_pos e). field. lra.
  - rewrite He. 
    assert (Ez : z = 2 ^ 53 \/ z = - 2 ^ 53) by lia.
    destruct Ez as [-> | ->]; reflexivity.
Qed.

Lemma fl_finite (q y : Q) :
  fl q = FNum y -> y = round64 q /\ (Qabs (round64 q) < Qpow2 1024)%Q.
Proof.
  unfold fl. destruct (Qle_bool (Qpow2 1024) (Qabs (round64 q))) eqn:E;
    [discriminate|].
  intro H. inversion H. split; [reflexivity|now apply Qle_bool_false].
Qed.

(** An int64 of magnitude up to [2^53] converts to a double exactly. *)
Lemma of_int64_exact (z : Z) :
  Z.abs z <= 2 ^ 53 ->
  exists y, of_int64 z = FNum y /\ (y == inject_Z z)%Q.
Proof.
  intro Hz. unfold of_int64, fl.
  pose proof (round64_int z Hz) as E.
  assert (Hs : (Qabs (round64 (inject_Z z)) < Qpow2 1024)%Q).
  { rewrite (Qabs_wd _ _ E).
    assert (Ha : (Qabs (inject_Z z) == inject_Z (Z.abs z))%Q) by reflexivity.
    rewrite Ha.
    assert (Hb : (inject_Z (Z.abs z) <= inject_Z (2 ^ 53))%Q)
      by now rewrite <- Zle_Qle.
    assert (Hc : (inject_Z (2 ^ 53) < Qpow2 1024)%Q) by reflexivity.
    lra. }
  apply Qle_bool_false in Hs. rewrite Hs. eauto.
Qed.

Lemma positive_rate (a : Q) :
  (0 < a)%Q -> Qis_zero a = false /\ gt0 (FNum a) = true.
Proof.
  intro Hpos. split.
  - unfold Qis_zero. destruct (Qeq_bool a 0) eqn:E; [|reflexivity].
    apply Qeq_bool_eq in E. lra.
  - simpl. apply negb_true_iff. apply Qle_bool_false. exact Hpos.
Qed.

Lemma astype_int64_Z (z : Z) :
  int64_min <= z <= int64_max -> astype_int64 (of_int z) = z.
Proof.
  intro Hz. unfold astype_int64, of_int. rewrite Qtrunc_Z.
  destruct (int64_min <=? z) eqn:E1, (z <=? int64_max) eqn:E2; try reflexivity;
    try apply Z.leb_gt in E1; try apply Z.leb_gt in E2; lia.
Qed.

(** ** The unobserved-count estimator *)

(** The double that reaches the cast when a row is extrapolated and
    nothing overflows: two roundings of the exact operations. *)
Lemma extrapolated_float lam arrest_col lambda_col r a l y :
  extrapolated lam arrest_col lambda_col r a l ->
  Z.abs (o_offense_count r) <= 2 ^ 53 ->
  total_crimes_float (o_offense_count r) (o_rate r arrest_col)
                     (o_rate r lambda_col) lam = FNum y ->
  exists y0 y1 y2,
    (y0 == inject_Z (o_offense_count r))%Q
    /\ y1 = round64 (y0 / a)
    /\ y2 = round64 (y1 * l)
    /\ y = inject_Z (round_half_even y2).
Proof.
  intros (Ha & Hpos & Hl) Hc. unfold total_crimes_float.
  fold (rate_used lam lambda_col r). rewrite Ha, Hl.
  destruct (positive_rate a Hpos) as [Hnz Hgt]. rewrite Hgt.
  destruct (of_int64_exact _ Hc) as (y0 & -> & E0).
  unfold div64, Float.div. rewrite Hnz. cbn [rounded].
  destruct (fl (y0 / a)) as [y1| |] eqn:E1.
  - unfold mul64, Float.mul. cbn [rounded].
    destruct (fl (y1 * l)) as [y2| |] eqn:E2; cbn [Float.round]; try discriminate.
    intro H. inversion H.
    apply fl_finite in E1, E2. destruct E1 as [E1 _], E2 as [E2 _].
    exists y0, y1, y2. auto.
  - unfold mul64, Float.mul. destruct (Qis_zero l); cbn; discriminate.
  - unfold mul64, Float.mul. cbn. discriminate.
Qed.

(** The two roundings of the extrapolation: the product stays close to
    the exact value of the formula, with a relative error below [2^-50]. *)
Lemma product_error (c a l y0 : Q) :
  (0 < a)%Q -> (Qabs l <= Qpow2 1024)%Q -> (y0 == c)%Q ->
  let exact := (c / a * l)%Q in
  (Qabs (round64 (y0 / a) * l) <= Qabs exact * (1 + Qpow2 (-53)) + Qpow2 (-51)
   /\ Qabs (round64 (round64 (y0 / a) * l) - exact)
      <= (Qabs exact + 1) * Qpow2 (-50))%Q.
Proof.
  intros Hpos Hl E0 exact.
  set (y1 := round64 (y0 / a)). set (y2 := round64 (y1 * l)).
  pose proof (round64_close (y0 / a)) as H1. fold y1 in H1.
  pose proof (round64_close (y1 * l)) as H2. fold y2 in H2.
  assert (Ex : (exact == y0 / a * l)%Q).
  { unfold exact. rewrite E0. reflexivity. }
  assert (B1 : (Qabs (y1 * l - exact)
                <= Qabs exact * Qpow2 (-53) + Qpow2 (-1075) * Qabs l)%Q).
  { assert (E : (y1 * l - exact == (y1 - y0 / a) * l)%Q) by (rewrite Ex; ring).
    rewrite (Qabs_wd _ _ E), Qabs_Qmult.
    rewrite (Qabs_wd _ _ Ex), Qabs_Qmult.
    pose proof (Qabs_nonneg l). pose proof (Qabs_nonneg (y0 / a)).
    pose proof (Qabs_nonneg (y1 - y0 / a)). nra. }
  assert (B0 : (Qabs (y1 * l) <= Qabs exact + Qabs (y1 * l - exact))%Q).
  { assert (E : (y1 * l == exact + (y1 * l - exact))%Q) by ring.
    rewrite E at 1. apply Qabs_triangle. }
  assert (B2 : (Qabs (y2 - exact)
                <= Qabs (y2 - y1 * l) + Qabs (y1 * l - exact))%Q).
  { assert (E : (y2 - exact == (y2 - y1 * l) + (y1 * l - exact))%Q) by ring.
    rewrite E at 1. apply Qabs_triangle. }
  assert (K1 : (Qpow2 (-1075) * Qpow2 1024 <= Qpow2 (-51))%Q) by (vm_compute; discriminate).
  assert (K2 : (2 * Qpow2 (-53) + Qpow2 (-53) * Qpow2 (-53) <= Qpow2 (-50))%Q)
    by (vm_compute; discriminate).
  assert (K3 : (Qpow2 (-51) * (1 + Qpow2 (-53)) + Qpow2 (-1075) <= Qpow2 (-50))%Q)
    by (vm_compute; discriminate).
  pose proof (Qpow2_pos (-53)) as P1. pose proof (Qpow2_pos (-1075)) as P2.
  pose proof (Qpow2_pos (-50)) as P3. pose proof (Qpow2_pos (-51)) as P4.
  pose proof (Qabs_nonneg exact) as NA. pose proof (Qabs_nonneg l) as NL.
  pose proof (Qabs_nonneg (y1 * l - exact)) as NE.
  set (A := Qabs exact) in *. set (L := Qabs l) in *.
  set (E1L := Qabs (y1 * l - exact)) in *.
  set (D2 := Qabs (y2 - y1 * l)) in *. set (Y := Qabs (y1 * l)) in *.
  set (u := Qpow2 (-53)) in *. set (eta := Qpow2 (-1075)) in *.
  set (p50 := Qpow2 (-50)) in *. set (p51 := Qpow2 (-51)) in *.
  set (M := Qpow2 1024) in *.
  assert (K4 : (eta * L <= p51)%Q) by nra.
  split; [lra|].
  assert (S1 : (D2 <= (A + E1L) * u + eta)%Q) by nra.
  assert (S2 : (E1L * (1 + u) <= A * u * (1 + u) + p51 * (1 + u))%Q) by nra.
  assert (S3 : (D2 + E1L <= A * (2 * u + u * u) + (p51 * (1 + u) + eta))%Q) by nra.
  assert (S4 : (A * (2 * u + u * u) <= A * p50)%Q) by nra.
  lra.
Qed.

(** How far the extrapolated total is from the exact value of the
    formula: half a unit for the rounding to an integer and, for the two
    roundings to a double, a relative error below [2^-50]. *)
Lemma extrapolation_error (c a l y0 : Q) :
  (0 < a)%Q -> (Qabs l <= Qpow2 1024)%Q -> (y0 == c)%Q ->
  let exact := (c / a * l)%Q in
  (Qabs (inject_Z (round_half_even (round64 (round64 (y0 / a) * l))) - exact)
   <= (1 # 2) + (Qabs exact + 1) * Qpow2 (-50))%Q.
Proof.
  intros Hpos Hl E0 exact.
  destruct (product_error c a l y0 Hpos Hl E0) as [_ H2]. fold exact in H2.
  set (y2 := round64 (round64 (y0 / a) * l)) in *.
  set (t := inject_Z (round_half_even y2)).
  pose proof (round_half_even_nearest y2) as H3. fold t in H3.
  assert (B3 : (Qabs (t - exact) <= Qabs (t - y2) + Qabs (y2 - exact))%Q).
  { assert (E : (t - exact == (t - y2) + (y2 - exact))%Q) by ring.
    rewrite E at 1. apply Qabs_triangle. }
  assert (B4 : (Qabs (t - y2) <= 1 # 2)%Q).
  { assert (E : (t - y2 == - (y2 - t))%Q) by ring.
    rewrite (Qabs_wd _ _ E), Qabs_opp. exact H3. }
  lra.
Qed.

Lemma count_row_estimated lam arrest_col lambda_col r c :
  count_row lam arrest_col lambda_col r = Ok c ->
  estimated lam arrest_col lambda_col r c.
Proof.
  unfold count_row, estimated. intro Hc. inversion Hc; subst; clear Hc.
  cbn [c_offenses total_crimes unobserved_crimes].
  split; [reflexivity|]. split; [reflexivity|]. split; [|split].
  - intro Hg. unfold total_crimes_float.
    fold (rate_used lam lambda_col r). now rewrite Hg.
  - intros Hg Hz. unfold total_crimes_float. rewrite Hg.
    destruct (of_int64_exact _ Hz) as (y0 & -> & E0).
    cbn [Float.round].
    rewrite (round_half_even_comp _ _ E0), round_half_even_Z.
    apply astype_int64_Z. unfold int64_min, int64_max. lia.
  - intros a l Hex (Hz & Hl & y & Hy & Hrange).
    destruct (extrapolated_float _ _ _ _ _ _ _ Hex Hz Hy)
      as (y0 & y1 & y2 & E0 & -> & -> & ->).
    rewrite Hy. rewrite Qtrunc_Z in Hrange.
    change (FNum (inject_Z ?z)) with (of_int z).
    rewrite astype_int64_Z by exact Hrange.
    destruct Hex as (_ & Hpos & _).
    exact (extrapolation_error _ a l y0 Hpos Hl E0).
Qed.

Lemma count_row_total lam arrest_col lambda_col r :
  exists c, count_row lam arrest_col lambda_col r = Ok c.
Proof. unfold count_row. eauto. Qed.

(** C1 (as stated, refuted).  With observed count 10, arrest rate 1/2, rate
    column 1/4 and no override the code computes 10 / (1/2) * (1/4) = 5
    where the stated formula gives 10 / (1/2) = 20; with the override
    [lam = 2] the code computes 10 / (1/2) * 2 = 40 where the stated formula
    gives 10 / 2 = 5. *)
Lemma count_unobserved_not_as_stated :
  (exists c, _count_unobserved [Demo.offenses_10] None
               "arrest_rate_smooth" "lambda" = Ok [c]
             /\ total_crimes c = 5
             /\ Spec.total_crimes 10 (1 # 2) None = 20) /\
  (exists c, _count_unobserved [Demo.offenses_10] (Some 2%Q)
               "arrest_rate_smooth" "lambda" = Ok [c]
             /\ total_crimes c = 40
             /\ Spec.total_crimes 10 (1 # 2) (Some 2%Q) = 5).
Proof.
  split; eexists; (split; [vm_compute; reflexivity | split; vm_compute; reflexivity]).
Qed.

(** The exact formula does not describe the code either: with one observed
    offense, arrest rate 0.02 and rate column 0.03 (as doubles) the
    quotient is 50 and the product exactly 1.5 in doubles, which rounds to
    2, where the product of the exact values lies below 1.5 and rounds to
    1. *)
Lemma doubles_decide_the_total :
  let a := (5764607523034235 # 288230376151711744)%Q in
  let l := (1080863910568919 # 36028797018963968)%Q in
  let r := mkOffenses [] 1 (of_int 1)
             (fun name => if String.eqb name "arrest" then FNum a else FNum l) in
  (exists c, count_row None "arrest" "lambda" r = Ok c /\ total_crimes c = 2)
  /\ round_half_even (1 / a * l) = 1.
Proof.
  intros a l r. split.
  - eexists. split; [reflexivity|]. vm_compute. reflexivity.
  - vm_compute. reflexivity.
Qed.

(** C1 (amended).  For every frame the estimator returns a frame of the
    same rows, and raises nothing.  In every row: when the arrest rate is
    positive, [total_crimes] is the cast to int64 of the rounded double
    [float(observed_count) / arrest_rate * rate] (the rate column of the
    row if [lam] is absent, [lam] otherwise), each operation rounded to
    the nearest double; when the arrest rate is not positive, or missing,
    [total_crimes] is the observed count; [unobserved_crimes] is
    [total_crimes - observed_count] in int64; and as long as the numbers
    stay inside the two formats, [total_crimes] is the exact value of the
    formula up to half a unit and the error of the two double
    operations. *)
Theorem count_unobserved_formula (pop : list offenses_row) (lam : option Q)
    (arrest_col lambda_col : string) :
  exists out,
    _count_unobserved pop lam arrest_col lambda_col = Ok out /\
    Forall2 (estimated lam arrest_col lambda_col) pop out.
Proof.
  unfold _count_unobserved.
  destruct (map_result_total (count_row lam arrest_col lambda_col) pop) as [out Hout].
  - apply Forall_forall. intros r _. apply count_row_total.
  - exists out. split; [exact Hout|].
    eapply map_result_Forall2; [|exact Hout].
    intros a b. apply count_row_estimated.
Qed.

(** ** A missing rate *)




(** ** Lists: distinct values, counters, sums *)

Section Unique.
Context {A : Type} (eqb : A -> A -> bool).
Hypothesis eqb_spec : forall x y, eqb x y = true <-> x = y.

Lemma unique_In (x : A) (l : list A) : In x (unique eqb l) <-> In x l.
Proof.
  induction l as [|a l IH]; simpl; [tauto|].
  rewrite filter_In, IH. cbv beta. split.
  - intros [E | [Hin _]]; auto.
  - intros [E | Hin]; auto.
    destruct (eqb a x) eqn:Eax.
    + left. now apply eqb_spec.
    + right. split; [assumption|]. reflexivity.
Qed.

Lemma unique_NoDup (l : list A) : NoDup (unique eqb l).
Proof.
  induction l as [|a l IH]; simpl; constructor.
  - rewrite filter_In. cbv beta. intros [_ Hn].
    assert (E : eqb a a = true) by now apply eqb_spec.
    rewrite E in Hn. discriminate.
  - now apply NoDup_filter.
Qed.

End Unique.

Lemma key_eqb_spec (a b : key) : key_eqb a b = true <-> a = b.
Proof.
  unfold key_eqb. destruct (list_eq_dec string_dec a b); split; congruence.
Qed.

Lemma key_eqb_refl (a : key) : key_eqb a a = true.
Proof. now apply key_eqb_spec. Qed.

Lemma sumZ_app (a b : list Z) : sumZ (a ++ b) = sumZ a + sumZ b.
Proof. induction a; simpl; lia. Qed.

Lemma sumZ_constant (x : Z) (l : list Z) :
  Forall (eq x) l -> sumZ l = Z.of_nat (List.length l) * x.
Proof.
  induction 1 as [|a l Ha _ IH]; [reflexivity|].
  subst a. cbn [sumZ fold_right List.length]. fold (sumZ l). lia.
Qed.

Lemma counter_incr_sum (x : Z) (c : list (Z * Z)) :
  sumZ (map snd (counter_incr x c)) = sumZ (map snd c) + 1.
Proof.
  induction c as [|[y n] c IH]; simpl; [reflexivity|].
  destruct (Z.eqb x y); simpl; lia.
Qed.

Lemma Counter_sum (xs : list Z) :
  sumZ (map snd (Counter xs)) = Z.of_nat (List.length xs).
Proof.
  unfold Counter.
  assert (G : forall c, sumZ (map snd (fold_left (fun c x => counter_incr x c) xs c))
                        = sumZ (map snd c) + Z.of_nat (List.length xs)).
  { induction xs as [|x xs IH]; intro c; simpl List.length; simpl fold_left.
    - simpl. lia.
    - rewrite IH, counter_incr_sum. lia. }
  rewrite G. reflexivity.
Qed.


(** ** The monad *)

Lemma repeatM_length `{RandomSource} {A} (m : M A) (n : nat) :
  forall w l w', repeatM n m w = (Ok l, w') -> List.length l = n.
Proof.
  induction n as [|n IH]; simpl; intros w l w' Hr; munfold.
  - inversion Hr. reflexivity.
  - destruct (m w) as [[a| |] w1]; try discriminate.
    destruct (repeatM n m w1) as [[l1| |] w2] eqn:E; try discriminate.
    inversion Hr; subst. simpl. f_equal. eapply IH; eauto.
Qed.

Lemma map_result_length {A B} (f : A -> result B) (l : list A) (bs : list B) :
  map_result f l = Ok bs -> List.length bs = List.length l.
Proof.
  intro Hm. symmetry. eapply Forall2_length.
  eapply (map_result_Forall2 f (fun _ _ => True)); eauto.
Qed.

Lemma choice_length `{RandomSource} (n : nat) (p : list Q) w locs w' :
  choice n p w = (Ok locs, w') -> List.length locs = n.
Proof.
  unfold choice. munfold.
  destruct (repeatM n draw_uniform w) as [[us| |] w1] eqn:E; try discriminate.
  intro Hc. inversion Hc; subst. rewrite length_map.
  eapply repeatM_length; eauto.
Qed.

(** ** The weighted sampler: number of tokens *)

Lemma mean_constant (u : Z) (l : list Z) (d : Q) :
  l <> [] -> Forall (eq u) l -> ~ (d == 0)%Q ->
  py_int (Float.div (mean l) (FNum d)) = Ok (Qtrunc (inject_Z u / d)).
Proof.
  intros Hne Hall Hd. unfold mean.
  destruct l as [|a l]; [congruence|].
  set (n := Z.of_nat (List.length (a :: l))).
  assert (Hn : 0 < n) by (subst n; simpl List.length; lia).
  rewrite (sumZ_constant u (a :: l) Hall). fold n.
  unfold Float.div, of_int, Qis_zero.
  assert (E1 : Qeq_bool (inject_Z n) 0 = false).
  { destruct (Qeq_bool (inject_Z n) 0) eqn:E; [|reflexivity].
    apply Qeq_bool_eq in E. unfold Qeq in E. simpl in E. lia. }
  assert (E2 : Qeq_bool d 0 = false).
  { destruct (Qeq_bool d 0) eqn:E; [|reflexivity].
    apply Qeq_bool_eq in E. contradiction. }
  rewrite E1, E2. unfold py_int. f_equal. apply Qtrunc_comp.
  rewrite inject_Z_mult.
  assert (Hn' : ~ (inject_Z n == 0)%Q).
  { unfold Qeq. simpl. lia. }
  field. split; assumption.
Qed.




(** ** The weighted sampler: conflicting values *)

Lemma map_result_specified {A B} (f : A -> result B) (l : list A) :
  (forall a, f a <> Unspecified) -> map_result f l <> Unspecified.
Proof.
  intro Hf. induction l as [|a l IH]; simpl; [discriminate|].
  specialize (Hf a). destruct (f a); try congruence.
  destruct (map_result f l); congruence.
Qed.

Lemma take_raises {A} (xs : list A) (locs : list nat) (e : exn) :
  take xs locs = Raise e -> e = IndexError_take.
Proof.
  unfold take. induction locs as [|i locs IH]; simpl; [discriminate|].
  destruct (nth_error xs i); [|congruence].
  destruct (map_result _ locs); try discriminate.
  intro E. inversion E; subst. now apply IH.
Qed.

Lemma take_specified {A} (xs : list A) (locs : list nat) :
  take xs locs <> Unspecified.
Proof.
  apply map_result_specified. intro i. destruct (nth_error xs i); discriminate.
Qed.

Lemma repeatM_draw_ok `{RandomSource} (n : nat) (w : world) :
  exists us w', repeatM n draw_uniform w = (Ok us, w') /\ reads w' = reads w.
Proof.
  revert w. induction n as [|n IH]; intro w; simpl; munfold.
  - eauto.
  - unfold draw_uniform at 1.
    destruct (random_sample (rng w)) as [u s].
    destruct (IH (mkWorld _ s (reads w))) as (us & w' & E & Hr).
    rewrite E. eauto.
Qed.

Lemma choice_ok `{RandomSource} (n : nat) (p : list Q) (w : world) :
  exists locs w', choice n p w = (Ok locs, w') /\ reads w' = reads w.
Proof.
  unfold choice. munfold.
  destruct (repeatM_draw_ok n w) as (us & w' & E & Hr). rewrite E. eauto.
Qed.

Lemma preprocess_weights_raises (ws : list float64) (e : exn) :
  preprocess_weights ws = Raise e -> e = ValueError_weights.
Proof.
  unfold preprocess_weights.
  destruct (existsb is_inf ws); [congruence|].
  destruct (existsb lt0 ws); [congruence|].
  destruct (Qis_zero _); [congruence|discriminate].
Qed.

Lemma preprocess_weights_specified (ws : list float64) :
  preprocess_weights ws <> Unspecified.
Proof.
  unfold preprocess_weights.
  destruct (existsb is_inf ws); [discriminate|].
  destruct (existsb lt0 ws); [discriminate|].
  destruct (Qis_zero _); discriminate.
Qed.

Lemma py_int_raises (x : float64) (e : exn) :
  py_int x = Raise e -> e = OverflowError_inf_to_int \/ e = ValueError_nan_to_int.
Proof. destruct x; simpl; intro E; inversion E; auto. Qed.

Lemma sample_outcome `{RandomSource} (n_samples_div : Q)
    (g : list weighted_row) (w : world) :
  reads (snd (_sample n_samples_div g w)) = reads w /\
  match fst (_sample n_samples_div g w) with
  | Ok _ => nunique (present (map w_unobserved_crimes g)) <= 1
  | Raise e => sample_exn (map w_unobserved_crimes g) e
  | Unspecified => False
  end.
Proof.
  unfold _sample, sample_exn. cbv zeta.
  set (unobserved := present (map w_unobserved_crimes g)).
  destruct (nunique unobserved >? 1) eqn:En.
  - apply Z.gtb_lt in En. unfold raise. simpl. auto.
  - assert (Hle : nunique unobserved <= 1).
    { destruct (Z.gtb_spec (nunique unobserved) 1); [discriminate|lia]. }
    munfold.
    destruct (py_int _) as [n|e|] eqn:Ei; simpl.
    + destruct (le0 _ || (n <? 1)); simpl; [auto|].
      destruct (preprocess_weights _) as [p|e|] eqn:Ep; simpl.
      * destruct (choice_ok (Z.to_nat n) p w) as (locs & w1 & Ec & Hr).
        rewrite Ec.
        destruct (take _ locs) as [samples|e|] eqn:Et; simpl.
        -- auto.
        -- apply take_raises in Et. subst e. split; [exact Hr|]. right. tauto.
        -- now apply take_specified in Et.
      * apply preprocess_weights_raises in Ep. subst e. split; [reflexivity|].
        right. tauto.
      * now apply preprocess_weights_specified in Ep.
    + apply py_int_raises in Ei. split; [reflexivity|]. right. tauto.
    + destruct (Float.div _ _); discriminate.
Qed.

Lemma mapM_raise_at `{RandomSource} {A B} (f : A -> M B) (l : list A) (k : A) :
  In k l ->
  (forall w, exists e w', f k w = (Raise e, w')) ->
  (forall a w, fst (f a w) <> Unspecified) ->
  forall w, exists e w', mapM f l w = (Raise e, w').
Proof.
  intros Hin Hk Hspec. induction l as [|a l IH]; [contradiction|].
  intro w. simpl. munfold.
  destruct Hin as [E | Hin].
  - subst a. destruct (Hk w) as (e & w' & Ek). rewrite Ek. eauto.
  - specialize (Hspec a w).
    destruct (f a w) as [[b|e|] w1]; simpl in Hspec; [|eauto|congruence].
    destruct (IH Hin w1) as (e & w' & El). rewrite El. eauto.
Qed.

(** C3.  For every group of the frame handed to the sampler: if the group
    holds more than one distinct [unobserved_crimes] value, the sampler
    raises the conflict error with those values, and the whole call returns
    no frame; if it holds at most one, the conflict error is not raised for
    the group. *)
Theorem sample_conflicting_values `{RandomSource} (df : list weighted_row)
    (groups : list string) (n_samples_div : Q) (k : key) (w : world) :
  In k (group_keys (w_key groups) df) ->
  let g := group (w_key groups) k df in
  let unobserved := present (map w_unobserved_crimes g) in
  (1 < nunique unobserved ->
   _sample n_samples_div g w
   = (Raise (ValueError_conflicting (unique_values (map w_unobserved_crimes g))), w)
   /\ exists e w', _sample_unobserved df groups n_samples_div w = (Raise e, w'))
  /\ (nunique unobserved <= 1 ->
      forall values,
        fst (_sample n_samples_div g w) <> Raise (ValueError_conflicting values)).
Proof.
  intros Hin g unobserved. split.
  - intro Hgt.
    assert (Hraise : forall w0, _sample n_samples_div g w0
              = (Raise (ValueError_conflicting (unique_values (map w_unobserved_crimes g))), w0)).
    { intro w0. unfold _sample. cbv zeta. fold g. fold unobserved.
      apply Z.gtb_lt in Hgt. rewrite Hgt. reflexivity. }
    split; [apply Hraise|].
    unfold _sample_unobserved. unfold bind at 1.
    destruct (mapM_raise_at
                (fun k0 => s <- _sample n_samples_div (group (w_key groups) k0 df) ;;
                           ret (k0, s))%m
                (group_keys (w_key groups) df) k Hin) with (w := w)
      as (e & w' & Em).
    + intro w0. unfold bind. fold g. rewrite Hraise. eauto.
    + intros a w0. unfold bind, ret.
      pose proof (sample_outcome n_samples_div (group (w_key groups) a df) w0) as [_ Ho].
      destruct (_sample n_samples_div (group (w_key groups) a df) w0) as [[s|e|] w1];
        simpl in *; [discriminate|discriminate|contradiction].
    + rewrite Em. eauto.
  - intros Hle values Hr.
    pose proof (sample_outcome n_samples_div g w) as [_ Ho].
    rewrite Hr in Ho. unfold sample_exn in Ho. subst unobserved.
    destruct Ho as [[Hgt _] | [_ [E | [E | [E | E]]]]]; try discriminate. lia.
Qed.

(** C3 on a group whose two rows carry 7 and 8. *)
Lemma sample_conflicting_values_witness :
  let g := group (w_key Demo.group_all) ["assault"; "white"; "M"; "18-29"]%string
                 Demo.group_conflict in
  let unobserved := present (map w_unobserved_crimes g) in
  (1 < nunique unobserved ->
   @_sample Demo.lcg 1 g Demo.world0
   = (Raise (ValueError_conflicting (unique_values (map w_unobserved_crimes g))), Demo.world0)
   /\ exists e w', @_sample_unobserved Demo.lcg Demo.group_conflict
                     Demo.group_all 1 Demo.world0 = (Raise e, w'))
  /\ (nunique unobserved <= 1 ->
      forall values,
        fst (@_sample Demo.lcg 1 g Demo.world0)
        <> Raise (ValueError_conflicting values)).
Proof.
  apply (@sample_conflicting_values Demo.lcg Demo.group_conflict Demo.group_all 1
           ["assault"; "white"; "M"; "18-29"]%string Demo.world0).
  vm_compute. auto.
Defined.

(** ** Which exceptions a computation can raise, and what it reads *)

Section Effects.
Context `{RandomSource}.

Lemma quiet_ret {A} P (a : A) : quiet P (ret a).
Proof. intro w. split; [reflexivity|discriminate]. Qed.

Lemma quiet_raise {A} (P : exn -> Prop) e : P e -> quiet P (@raise _ A e).
Proof. intros He w. split; [reflexivity|]. intros e' E. inversion E. now subst. Qed.

Lemma quiet_lift {A} (P : exn -> Prop) (r : result A) :
  (forall e, r = Raise e -> P e) -> quiet P (lift r).
Proof. intros Hr w. split; [reflexivity|]. exact Hr. Qed.

Lemma quiet_bind {A B} P (m : M A) (f : A -> M B) :
  quiet P m -> (forall a, quiet P (f a)) -> quiet P (bind m f).
Proof.
  intros Hm Hf w. unfold bind. destruct (Hm w) as [Hr He].
  destruct (m w) as [[a|e|] w1]; simpl in *.
  - destruct (Hf a w1) as [Hr1 He1]. split; [congruence|exact He1].
  - split; [exact Hr|]. intros e0 E. inversion E; subst. now apply He.
  - split; [exact Hr|discriminate].
Qed.

Lemma quiet_mapM {A B} P (f : A -> M B) (l : list A) :
  (forall a, quiet P (f a)) -> quiet P (mapM f l).
Proof.
  intro Hf. induction l as [|a l IH]; simpl.
  - apply quiet_ret.
  - apply quiet_bind; [apply Hf|]. intro b.
    apply quiet_bind; [exact IH|]. intro bs. apply quiet_ret.
Qed.

Lemma quiet_choice P (n : nat) (p : list Q) : quiet P (choice n p).
Proof.
  intro w. destruct (choice_ok n p w) as (locs & w' & E & Hr).
  rewrite E. split; [exact Hr|discriminate].
Qed.

Lemma quiet_sample (n_samples_div : Q) (g : list weighted_row) :
  quiet add_unobserved_exn (_sample n_samples_div g).
Proof.
  intro w. destruct (sample_outcome n_samples_div g w) as [Hr Ho].
  split; [exact Hr|]. intros e E. rewrite E in Ho.
  destruct Ho as [[_ ->] | [_ [-> | [-> | [-> | ->]]]]]; exact I.
Qed.

Lemma quiet_sample_unobserved df groups n_samples_div :
  quiet add_unobserved_exn (_sample_unobserved df groups n_samples_div).
Proof.
  unfold _sample_unobserved. apply quiet_bind.
  - apply quiet_mapM. intro k. apply quiet_bind; [apply quiet_sample|].
    intro s. apply quiet_ret.
  - intro applied. destruct (forallb without_samples applied).
    + apply quiet_raise. exact I.
    + apply quiet_ret.
Qed.

Lemma map_result_raises {A B} (P : exn -> Prop) (f : A -> result B) l :
  (forall a e, f a = Raise e -> P e) ->
  forall e, map_result f l = Raise e -> P e.
Proof.
  intro Hf. induction l as [|a l IH]; simpl; intros e E; [discriminate|].
  destruct (f a) as [b|e'|] eqn:Ea; try discriminate.
  - destruct (map_result f l); try discriminate. inversion E; subst. now apply IH.
  - inversion E; subst. eapply Hf; eauto.
Qed.

Lemma count_unobserved_never_raises pop lam arrest_col lambda_col e :
  _count_unobserved pop lam arrest_col lambda_col <> Raise e.
Proof.
  intro E. eapply (map_result_raises (fun _ => False)); [|exact E].
  intros a e'. unfold count_row. discriminate.
Qed.

Lemma quiet_add_unobserved df group_all crimes lam omega n_samples_div
    lambda_col arrest_col :
  quiet add_unobserved_exn
    (_add_unobserved df group_all crimes lam omega n_samples_div
                     lambda_col arrest_col).
Proof.
  unfold _add_unobserved. apply quiet_bind.
  - apply quiet_lift. intros e E. now apply count_unobserved_never_raises in E.
  - intro offenses. destruct (existsb _ offenses).
    + apply quiet_raise. exact I.
    + apply quiet_bind; [apply quiet_sample_unobserved|].
      intro samples. apply quiet_ret.
Qed.
End Effects.

(** ** The window assembler *)

Section WindowProperties.
Context `{RandomSource} `{Environment}.
Variables (start_year end_year window : Z) (lam : option Q) (omega : Q)
          (arrest_col smoothing : string)
          (rate_mult_ncvs rate_mult_nsduh : option (list (string * Q))).

Local Abbreviation recombined :=
  (window_recombined start_year end_year window lam omega arrest_col
     smoothing rate_mult_ncvs rate_mult_nsduh).
Local Abbreviation the_window :=
  (_window start_year end_year window lam omega arrest_col
     smoothing rate_mult_ncvs rate_mult_nsduh).

Lemma recombined_rejects (window_end : Z) (n_samples_div : Q) (w : world) :
  window_end - window < start_year \/ end_year < window_end - window ->
  recombined window_end n_samples_div w
  = (Raise (ValueError_window window_end start_year window), w).
Proof.
  intro Hout. unfold window_recombined.
  assert (E : (start_year <=? window_end - window)
              && (window_end - window <=? end_year) = false).
  { apply andb_false_iff. destruct Hout; [left|right]; now apply Z.leb_gt. }
  rewrite E. reflexivity.
Qed.

Lemma melt_raises value_vars df e :
  melt value_vars df = Raise e -> exists c, e = KeyError_column c.
Proof.
  unfold melt. intro E.
  eapply (map_result_raises (fun x => exists c, x = KeyError_column c)); [|exact E].
  intros cr e'. cbv beta. destruct (lookup _ _); [discriminate|].
  intro E'. inversion E'. eauto.
Qed.

Lemma recombined_accepts (window_end : Z) (n_samples_div : Q) (w : world) :
  start_year <= window_end - window <= end_year ->
  forall e, fst (recombined window_end n_samples_div w) = Raise e ->
            add_unobserved_exn e \/ exists c, e = KeyError_column c.
Proof.
  intros Hin. unfold window_recombined.
  assert (E : (start_year <=? window_end - window)
              && (window_end - window <=? end_year) = true).
  { apply andb_true_iff. split; apply Z.leb_le; lia. }
  rewrite E. cbv [negb].
  unfold bind at 1 2 3, log_read. cbv beta iota.
  set (w1 := mkWorld _ _ _). clearbody w1.
  unfold bind at 1, lift at 1.
  destruct (melt CRIMES _) as [df|e0|] eqn:Em; cbv beta iota.
  - unfold bind at 1.
    match goal with |- context [_add_unobserved ?d ?g ?c lam omega n_samples_div ?lc arrest_col w1] =>
      pose proof (quiet_add_unobserved d g c lam omega n_samples_div lc arrest_col w1) as [_ Ha];
      destruct (_add_unobserved d g c lam omega n_samples_div lc arrest_col w1) as [[a|ea|] w2]
    end; cbv beta iota.
    + unfold bind at 1.
      match goal with |- context [_add_unobserved ?d ?g ?c lam omega n_samples_div ?lc arrest_col w2] =>
        pose proof (quiet_add_unobserved d g c lam omega n_samples_div lc arrest_col w2) as [_ Hb];
        destruct (_add_unobserved d g c lam omega n_samples_div lc arrest_col w2) as [[b|eb|] w3]
      end; cbv beta iota; simpl; intros e Ee; try discriminate.
      left. inversion Ee; subst. apply Hb. reflexivity.
    + simpl. intros e Ee. left. inversion Ee; subst. apply Ha. reflexivity.
    + simpl. discriminate.
  - simpl. intros e Ee. inversion Ee; subst. right. eapply melt_raises; eauto.
  - simpl. discriminate.
Qed.

(** C7 (amended).  The per-window computation checks the first year of
    the window, [window_end - window]: outside [[start_year, end_year]] it
    raises the usage error at once, with no read of any provider and no
    random draw; inside, the usage error is not raised. *)
Theorem window_year_check (window_end : Z) (n_samples_div : Q) (w : world) :
  (window_end - window < start_year \/ end_year < window_end - window ->
   the_window window_end n_samples_div w
   = (Raise (ValueError_window window_end start_year window), w))
  /\ (start_year <= window_end - window <= end_year ->
      forall a b c,
        fst (the_window window_end n_samples_div w)
        <> Raise (ValueError_window a b c)).
Proof.
  split.
  - intro Hout. unfold _window, bind. now rewrite recombined_rejects.
  - intros Hin a b c. unfold _window, bind.
    pose proof (recombined_accepts window_end n_samples_div w Hin) as Hr.
    destruct (recombined window_end n_samples_div w) as [[[n df]|e|] w1];
      simpl in *.
    + destruct (negb _); simpl; discriminate.
    + intro E. inversion E; subst e.
      destruct (Hr _ eq_refl) as [Hx | [c0 Hx]]; [exact Hx|discriminate].
    + discriminate.
Qed.

(** C5.  When the window returns a result, the recombined frame has as
    many rows as the melted cohort; when the recombined frame has a
    different number of rows, the window raises the size error and returns
    nothing. *)
Theorem window_row_count (window_end : Z) (n_samples_div : Q) (w : world) :
  (forall out w',
     the_window window_end n_samples_div w = (Ok out, w') ->
     exists melted df,
       melt CRIMES (init_neulaw start_year window (window_end - window))
       = Ok melted
       /\ recombined window_end n_samples_div w
          = (Ok (List.length melted, df), w')
       /\ List.length df = List.length melted
       /\ out = pivot_table df)
  /\ (forall len_before df w',
        recombined window_end n_samples_div w = (Ok (len_before, df), w') ->
        List.length df <> len_before ->
        the_window window_end n_samples_div w = (Raise RuntimeError_size, w')).
Proof.
  split.
  - intros out w'. unfold _window, bind.
    destruct (recombined window_end n_samples_div w) as [[[n df]|e|] w1] eqn:Er;
      try discriminate.
    cbn [fst snd].
    destruct (Nat.eqb (List.length df) n) eqn:En; cbn [negb]; [|discriminate].
    apply Nat.eqb_eq in En. unfold ret. intro E. inversion E; subst out w'.
    unfold window_recombined in Er.
    destruct (negb _) in Er; [discriminate|].
    unfold bind at 1 2 3, log_read in Er. cbv beta iota in Er.
    unfold bind at 1, lift at 1 in Er.
    destruct (melt CRIMES _) as [melted|e0|] eqn:Em; try discriminate.
    cbv beta iota in Er. unfold bind, ret in Er.
    destruct (_add_unobserved _ _ _ _ _ _ _ _ _) as [[a| |] w2]; try discriminate.
    destruct (_add_unobserved _ _ _ _ _ _ _ _ _) as [[b| |] w3]; try discriminate.
    inversion Er; subst. exists melted, (a ++ b). repeat split; auto.
  - intros n df w' Er Hne. unfold _window, bind.
    rewrite Er. cbn [fst snd].
    apply Nat.eqb_neq in Hne. rewrite Hne. reflexivity.
Qed.
End WindowProperties.

(** C7 (as stated, refuted).  With [start_year = 2000], [end_year = 2010]
    and [window = 3]: the end year 2012 lies outside the bound, yet the
    window is not rejected and reads the three providers for 2009; the end
    year 2001 lies inside the bound, yet the window is rejected. *)
Lemma window_end_bound_not_what_is_checked :
  (Spec.window_end_in_bound 2000 2010 2012 = false
   /\ (exists out, fst (Demo.window Demo.ncvs_table 2012) = Ok out)
   /\ reads (snd (Demo.window Demo.ncvs_table 2012))
      = [Read Neulaw 2009; Read Ncvs 2009; Read Nsduh 2009])
  /\ (Spec.window_end_in_bound 2000 2010 2001 = true
      /\ Demo.window Demo.ncvs_table 2001
         = (Raise (ValueError_window 2001 2000 3), Demo.world0)).
Proof.
  split; [split; [reflexivity|split] | split; [reflexivity|]].
  - vm_compute. eexists. reflexivity.
  - vm_compute. reflexivity.
  - vm_compute. reflexivity.
Qed.

(** C7 on the configuration 2000..2010 with a window of 3 years: the end
    year 2001 is rejected, the end year 2005 is not. *)
Lemma window_year_check_witness :
  Demo.window Demo.ncvs_table 2001
  = (Raise (ValueError_window 2001 2000 3), Demo.world0)
  /\ forall a b c,
       fst (Demo.window Demo.ncvs_table 2005) <> Raise (ValueError_window a b c).
Proof.
  split.
  - apply (proj1 (@window_year_check Demo.lcg (Demo.env Demo.ncvs_table Demo.nsduh_table)
                    2000 2010 3 None 1 "arrest_rate_smooth" "lr_pr" None None
                    2001 1 Demo.world0)).
    lia.
  - apply (proj2 (@window_year_check Demo.lcg (Demo.env Demo.ncvs_table Demo.nsduh_table)
                    2000 2010 3 None 1 "arrest_rate_smooth" "lr_pr" None None
                    2005 1 Demo.world0)).
    lia.
Defined.

(** C5 when the size check fires: a rate table that lists a group twice
    doubles the rows of that group, and the window raises the size error. *)
Lemma window_row_count_witness :
  Demo.window Demo.ncvs_table_dup 2005
  = (Raise RuntimeError_size, snd (Demo.recombined Demo.ncvs_table_dup 2005)).
Proof.
  assert (E : exists df,
             Demo.recombined Demo.ncvs_table_dup 2005
             = (Ok (4%nat, df), snd (Demo.recombined Demo.ncvs_table_dup 2005))
             /\ List.length df = 6%nat).
  { vm_compute. eexists. split; reflexivity. }
  destruct E as (df & E & Hl).
  apply (proj2 (@window_row_count Demo.lcg (Demo.env Demo.ncvs_table_dup Demo.nsduh_table)
                  2000 2010 3 None 1 "arrest_rate_smooth" "lr_pr" None None
                  2005 1 Demo.world0)
               4%nat df _ E).
  rewrite Hl. discriminate.
Defined.

(** ** Age re-derivation *)

Lemma cut_age_under_18 (age : Q) :
  cut_age age = "< 18"%string <-> (0 < age <= 17)%Q.
Proof.
  unfold cut_age.
  destruct (Qltb 0 age) eqn:E0, (Qle_bool age 17) eqn:E17; simpl.
  - apply Qltb_true in E0. apply Qle_bool_true in E17. tauto.
  - apply Qle_bool_false in E17.
    destruct (Qltb 17 age && Qle_bool age 29); [|destruct (Qltb 29 age && Qle_bool age 500)];
      (split; [discriminate | intros [_ Hc]; lra]).
  - apply Qltb_false in E0.
    destruct (Qltb 17 age && Qle_bool age 29); [|destruct (Qltb 29 age && Qle_bool age 500)];
      (split; [discriminate | intros [Hc _]; lra]).
  - apply Qltb_false in E0.
    destruct (Qltb 17 age && Qle_bool age 29); [|destruct (Qltb 29 age && Qle_bool age 500)];
      (split; [discriminate | intros [Hc _]; lra]).
Qed.

(** When some row is older than ten years [_add_age] labels the rows
    that pass the first filter and drops those labelled "< 18". *)
Lemma add_age_regular (df : list summed_row) (end_year : Z) :
  filter (fun r => Qltb 10 (age_years end_year (f_dob r))) df <> [] ->
  _add_age df end_year
  = filter (fun r => negb (String.eqb (age_cat r) "< 18"))
      (map (fun r => mkFinal r (cut_age (age_years end_year (f_dob r))))
           (filter (fun r => Qltb 10 (age_years end_year (f_dob r))) df)).
Proof.
  unfold _add_age.
  destruct (filter (fun r => Qltb 10 (age_years end_year (f_dob r))) df);
    [contradiction|reflexivity].
Qed.

(** When no row is older than ten years the frame is re-indexed by the
    labels: what comes back holds labels only. *)
Lemma add_age_reindexed (df : list summed_row) (end_year : Z) :
  filter (fun r => Qltb 10 (age_years end_year (f_dob r))) df = [] ->
  _add_age df end_year
  = filter (fun r => negb (String.eqb (age_cat r) "< 18"))
      (map (fun r => nan_row (cut_age (age_years end_year (f_dob r)))) df).
Proof. unfold _add_age. now intros ->. Qed.

(** The rows with data that [_add_age] returns: exactly the rows whose age
    in years is above 17 (and so above 10), each with the bucket of its
    age. *)
Lemma add_age_keeps (df : list summed_row) (end_year : Z) (s : summed_row)
    (label : string) :
  In (mkFinal s label) (_add_age df end_year) <->
  In s df
  /\ (17 < age_years end_year (f_dob s))%Q
  /\ label = cut_age (age_years end_year (f_dob s)).
Proof.
  split.
  - intro Hin.
    destruct (filter (fun r => Qltb 10 (age_years end_year (f_dob r))) df)
      as [|k kept] eqn:Ek.
    + rewrite (add_age_reindexed _ _ Ek) in Hin.
      apply filter_In in Hin. destruct Hin as [Hin _].
      apply in_map_iff in Hin. destruct Hin as (x & Ex & _). discriminate Ex.
    + rewrite add_age_regular in Hin by (rewrite Ek; discriminate).
      apply filter_In in Hin. destruct Hin as [Hin Hc].
      apply in_map_iff in Hin. destruct Hin as (x & Ex & Hx).
      injection Ex as -> <-.
      apply filter_In in Hx. destruct Hx as [Hx H10].
      split; [exact Hx|]. split; [|reflexivity].
      apply Qltb_true in H10. cbn [age_cat] in Hc. apply negb_true_iff in Hc.
      destruct (Qlt_le_dec 17 (age_years end_year (f_dob s))) as [Hgt|Hle];
        [exact Hgt|exfalso].
      assert (Hu : cut_age (age_years end_year (f_dob s)) = "< 18"%string).
      { apply cut_age_under_18. split; lra. }
      rewrite Hu in Hc. discriminate.
  - intros (Hin & Hgt & ->).
    assert (Hk : In s (filter (fun r => Qltb 10 (age_years end_year (f_dob r))) df)).
    { apply filter_In. split; [exact Hin|]. apply Qltb_true. lra. }
    rewrite add_age_regular by (intro E; rewrite E in Hk; contradiction).
    apply filter_In. split.
    + apply in_map_iff. exists s. split; [reflexivity|exact Hk].
    + cbn [age_cat]. apply negb_true_iff.
      destruct (String.eqb _ "< 18") eqn:E; [|reflexivity].
      apply String.eqb_eq in E. apply cut_age_under_18 in E. lra.
Qed.

(** A date of birth exactly 18 years before January 1st of [end_year]
    falls in the bucket "18-29". *)
Lemma exactly_18_is_adult (end_year : Z) :
  cut_age (age_years end_year (mkDate (end_year - 18) 1 1)) = "18-29"%string.
Proof.
  assert (Hd : 6573 <= age_days end_year (mkDate (end_year - 18) 1 1) <= 6575).
  { unfold age_days, days_from_civil, year_start. simpl.
    set (y := end_year - 1). replace (end_year - 18 - 1) with (y - 18) by lia.
    clearbody y. Z.to_euclidean_division_equations. lia. }
  unfold age_years. set (d := age_days _ _) in *. clearbody d.
  assert (Hlo : (inject_Z 6573 <= inject_Z d)%Q) by (rewrite <- Zle_Qle; lia).
  assert (Hhi : (inject_Z d <= inject_Z 6575)%Q) by (rewrite <- Zle_Qle; lia).
  assert (Hq : (17 < inject_Z d / (1461 # 4) <= 29)%Q).
  { split.
    - apply Qlt_shift_div_l; [reflexivity|].
      eapply Qlt_le_trans; [|exact Hlo]. reflexivity.
    - apply Qle_shift_div_r; [reflexivity|].
      eapply Qle_trans; [exact Hhi|]. discriminate. }
  unfold cut_age.
  assert (E1 : Qle_bool (inject_Z d / (1461 # 4)) 17 = false)
    by (apply Qle_bool_false; tauto).
  assert (E2 : Qltb 17 (inject_Z d / (1461 # 4)) = true)
    by (apply Qltb_true; tauto).
  assert (E3 : Qle_bool (inject_Z d / (1461 # 4)) 29 = true)
    by (apply Qle_bool_true; tauto).
  rewrite E1, E2, E3. rewrite andb_false_r. reflexivity.
Qed.

(** C8 (code at the failing input).  An individual born on 1994-07-01 is
    17 and a half years old on 2012-01-01, under 18; [_add_age] keeps the
    row and labels it "18-29". *)
Theorem add_age_keeps_under_18 :
  (age_years 2012 (mkDate 1994 7 1) < 18)%Q
  /\ map age_cat (_add_age [Demo.summed 1 (mkDate 1994 7 1)] 2012)
     = ["18-29"%string].
Proof.
  split; vm_compute; reflexivity.
Qed.

(** ** The rolling driver *)

(** With a seed that [RandomState] accepts, the output of the driver is
    read off the windows run from the freshly seeded generator and an
    empty read log. *)
Lemma rolling_windows_from_seed `{RandomSource} `{Environment}
    (start_year end_year window seed : Z) (lam : option Q) (omega : Q)
    (arrest_col smoothing : string)
    (rate_mult_ncvs rate_mult_nsduh : option (list (string * Q))) :
  0 <= seed < 2 ^ 32 ->
  rolling_crime_assignment start_year end_year window seed lam omega
    arrest_col smoothing rate_mult_ncvs rate_mult_nsduh
  = match fst (rolling_windows start_year end_year window lam omega arrest_col
                 smoothing rate_mult_ncvs rate_mult_nsduh
                 (mkWorld _ (RandomState seed) [])) with
    | Ok [] => Raise ValueError_no_objects
    | Ok samples => Ok (_add_age (sum_windows (concat samples)) end_year)
    | Raise e => Raise e
    | Unspecified => Unspecified
    end.
Proof.
  intros [Hlo Hhi]. unfold rolling_crime_assignment.
  apply Z.leb_le in Hlo. apply Z.ltb_lt in Hhi. rewrite Hlo, Hhi. cbn [andb negb].
  destruct (rolling_windows _ _ _ _ _ _ _ _ _ _) as [[[|s l]|e|] w]; reflexivity.
Qed.

(** Any other seed is refused before anything else happens. *)
Lemma rolling_refuses_seed `{RandomSource} `{Environment}
    (start_year end_year window seed : Z) (lam : option Q) (omega : Q)
    (arrest_col smoothing : string)
    (rate_mult_ncvs rate_mult_nsduh : option (list (string * Q))) :
  ~ (0 <= seed < 2 ^ 32) ->
  rolling_crime_assignment start_year end_year window seed lam omega
    arrest_col smoothing rate_mult_ncvs rate_mult_nsduh
  = Raise ValueError_seed.
Proof.
  intro Hs. unfold rolling_crime_assignment.
  destruct (0 <=? seed) eqn:E0, (seed <? 2 ^ 32) eqn:E1; try reflexivity.
  apply Z.leb_le in E0. apply Z.ltb_lt in E1. lia.
Qed.

(** With a window of at least zero years, every divisor the driver hands to
    a window is at least one. *)
Lemma driver_divisor_at_least_one (idx : nat) (window : Z) :
  0 <= window ->
  (1 <= (if Nat.eqb idx 0 then 1 else inject_Z (window + 1)))%Q.
Proof.
  intro Hw. destruct (Nat.eqb idx 0); [discriminate|].
  change 1%Q with (inject_Z 1). rewrite <- Zle_Qle. lia.
Qed.

(** ** Imputation on one partition *)

Lemma mapM_Forall2 `{RandomSource} {A B} (f : A -> M B) (l : list A) :
  forall w bs w',
    mapM f l w = (Ok bs, w') ->
    Forall2 (fun a b => exists w1 w2, f a w1 = (Ok b, w2)) l bs.
Proof.
  induction l as [|a l IH]; simpl; intros w bs w' Hm; munfold.
  - inversion Hm. constructor.
  - destruct (f a w) as [[b| |] w1] eqn:Ea; try discriminate.
    destruct (mapM f l w1) as [[bs1| |] w2] eqn:El; try discriminate.
    inversion Hm; subst. constructor; eauto.
Qed.

Lemma merge_left_In {L R} (matches : L -> R -> bool) (left : list L)
    (right : list R) (l : L) (o : option R) :
  In (l, o) (merge_left matches left right) ->
  In l left /\
  match o with
  | Some r => In r right /\ matches l r = true
  | None => filter (matches l) right = []
  end.
Proof.
  unfold merge_left. rewrite in_flat_map. intros (a & Ha & Hin).
  destruct (filter (matches a) right) as [|r0 rs] eqn:Ef.
  - destruct Hin as [E|[]]. inversion E; subst. auto.
  - apply in_map_iff in Hin. destruct Hin as (r & E & Hr).
    inversion E; subst. split; [exact Ha|].
    rewrite <- Ef in Hr. apply filter_In in Hr. exact Hr.
Qed.

Lemma explode_In (applied : list (key * option (list (Z * Z)))) (s : sample_row) :
  In s (explode applied) ->
  exists items,
    In (s_key s, Some items) applied
    /\ In (s_uid s, s_offense_unobserved s) items.
Proof.
  unfold explode. rewrite in_flat_map. intros ([k o] & Hkv & Hin).
  simpl in Hin. destruct o as [items|]; [|contradiction].
  apply in_map_iff in Hin. destruct Hin as ([u c] & E & Hit). subst s. simpl.
  eauto.
Qed.

Lemma Forall2_In_r {A B} (P : A -> B -> Prop) (l : list A) (bs : list B) (b : B) :
  Forall2 P l bs -> In b bs -> exists a, In a l /\ P a b.
Proof.
  induction 1 as [|a0 b0 l bs Hab _ IH]; intro Hin; [contradiction|].
  destruct Hin as [E | Hin].
  - subst. exists a0. split; [now left|exact Hab].
  - destruct (IH Hin) as (a & Ha & Hp). exists a. split; [now right|exact Hp].
Qed.

(** Every row returned by [_sample_unobserved] comes from a group for which
    [_sample] returned assignments. *)
Lemma sample_unobserved_rows `{RandomSource} (df : list weighted_row)
    (groups : list string) (n_samples_div : Q) (w w' : world)
    (samples : list sample_row) (s : sample_row) :
  _sample_unobserved df groups n_samples_div w = (Ok samples, w') ->
  In s samples ->
  exists items w1 w2,
    In (s_key s) (group_keys (w_key groups) df)
    /\ _sample n_samples_div (group (w_key groups) (s_key s) df) w1
       = (Ok (Some items), w2)
    /\ In (s_uid s, s_offense_unobserved s) items.
Proof.
  unfold _sample_unobserved. unfold bind at 1.
  destruct (mapM _ _ w) as [[applied| |] w1] eqn:Em; try discriminate.
  destruct (forallb without_samples applied) eqn:Ef;
    [unfold raise; discriminate|].
  unfold ret. intros E Hin. inversion E; subst samples w'.
  apply explode_In in Hin. destruct Hin as (items & Hkv & Hit).
  apply mapM_Forall2 in Em.
  destruct (Forall2_In_r _ _ _ _ Em Hkv) as (k & Hk & wa & wb & Hs).
  unfold bind, ret in Hs.
  destruct (_sample n_samples_div (group (w_key groups) k df) wa)
    as [[so| |] wc] eqn:Es; try discriminate.
  inversion Hs; subst. exists items, wa, wb. auto.
Qed.

Lemma counter_incr_positive (x : Z) (c : list (Z * Z)) :
  Forall (fun it => 0 < snd it) c ->
  Forall (fun it => 0 < snd it) (counter_incr x c).
Proof.
  induction 1 as [|[y n] c Hy Hc IH]; simpl.
  - constructor; [simpl; lia|constructor].
  - simpl in Hy. destruct (Z.eqb x y); constructor; simpl; try lia; assumption.
Qed.

Lemma Counter_positive (xs : list Z) :
  Forall (fun it => 0 < snd it) (Counter xs).
Proof.
  unfold Counter.
  assert (G : forall c, Forall (fun it => 0 < snd it) c ->
                        Forall (fun it => 0 < snd it)
                               (fold_left (fun c x => counter_incr x c) xs c)).
  { induction xs as [|x xs IH]; intros c Hc; simpl; [exact Hc|].
    apply IH. now apply counter_incr_positive. }
  apply G. constructor.
Qed.

(** When [_sample] returns assignments: the group holds at most one
    distinct value, the number of tokens is at least one, the counts are
    positive and add up to the number of tokens. *)
Lemma sample_some `{RandomSource} (n_samples_div : Q) (g : list weighted_row)
    (w w' : world) (items : list (Z * Z)) :
  _sample n_samples_div g w = (Ok (Some items), w') ->
  nunique (present (map w_unobserved_crimes g)) <= 1
  /\ exists n,
       py_int (Float.div (mean (present (map w_unobserved_crimes g)))
                         (FNum n_samples_div)) = Ok n
       /\ 1 <= n
       /\ sumZ (map snd items) = n
       /\ Forall (fun it => 0 < snd it) items.
Proof.
  intro Hs.
  pose proof (sample_outcome n_samples_div g w) as [_ Ho].
  rewrite Hs in Ho. simpl in Ho. split; [exact Ho|].
  unfold _sample in Hs.
  destruct (nunique _ >? 1); [discriminate|].
  munfold.
  destruct (py_int _) as [n| |]; try discriminate.
  exists n. split; [reflexivity|].
  destruct (le0 _ || (n <? 1)) eqn:E; [discriminate|].
  apply orb_false_iff in E. destruct E as [_ En]. apply Z.ltb_ge in En.
  destruct (preprocess_weights _) as [p| |]; try discriminate.
  destruct (choice (Z.to_nat n) p w) as [[locs| |] w1] eqn:Ec; try discriminate.
  destruct (take _ locs) as [samples| |] eqn:Et; try discriminate.
  inversion Hs; subst items w'.
  split; [exact En|]. split; [|apply Counter_positive].
  rewrite Counter_sum.
  unfold take in Et. apply map_result_length in Et. rewrite Et.
  apply choice_length in Ec. rewrite Ec. lia.
Qed.

Lemma nunique_single (l : list Z) (u : Z) :
  nunique l <= 1 -> In u l -> Forall (eq u) l.
Proof.
  unfold nunique, distinct. intros Hn Hu.
  apply Forall_forall. intros x Hx.
  apply (unique_In Z.eqb Z.eqb_eq) in Hu, Hx.
  destruct (unique Z.eqb l) as [|a [|b t]]; simpl in *.
  - contradiction.
  - destruct Hu as [<-|[]], Hx as [<-|[]]. reflexivity.
  - lia.
Qed.

Lemma Qtrunc_nonpositive (q : Q) : (q <= 0)%Q -> Qtrunc q <= 0.
Proof.
  intro Hq. unfold Qtrunc. destruct (Qle_bool 0 q).
  - change 0 with (Qfloor 0). now apply Qfloor_resp_le.
  - change 0 with (Qceiling 0). now apply Qceiling_resp_le.
Qed.

Lemma Qdiv_nonpositive (u : Z) (d : Q) :
  u <= 0 -> (0 < d)%Q -> (inject_Z u / d <= 0)%Q.
Proof.
  intros Hu Hd. apply Qle_shift_div_r; [exact Hd|].
  rewrite Qmult_0_l. change 0%Q with (inject_Z 0). now rewrite <- Zle_Qle.
Qed.

Lemma present_In (g : list weighted_row) (r : weighted_row) (u : Z) :
  In r g -> w_unobserved_crimes r = Some u ->
  In u (present (map w_unobserved_crimes g)).
Proof.
  intros Hin Hu. unfold present. apply in_flat_map.
  exists (Some u). split; [|now left].
  rewrite <- Hu. now apply in_map.
Qed.

(** The number of tokens of a group that holds the value [u]. *)
Lemma sample_tokens_of `{RandomSource} (n_samples_div : Q)
    (g : list weighted_row) (w w' : world) (items : list (Z * Z))
    (r : weighted_row) (u : Z) :
  ~ (n_samples_div == 0)%Q ->
  _sample n_samples_div g w = (Ok (Some items), w') ->
  In r g -> w_unobserved_crimes r = Some u ->
  1 <= Qtrunc (inject_Z u / n_samples_div)
  /\ sumZ (map snd items) = Qtrunc (inject_Z u / n_samples_div)
  /\ Forall (fun it => 0 < snd it) items.
Proof.
  intros Hd Hs Hin Hu.
  destruct (sample_some n_samples_div g w w' items Hs)
    as (Hn & n & Hint & H1 & Hsum & Hpos).
  pose proof (present_In g r u Hin Hu) as Hp.
  pose proof (nunique_single _ u Hn Hp) as Hall.
  assert (Hne : present (map w_unobserved_crimes g) <> []).
  { intro E. rewrite E in Hp. contradiction. }
  rewrite (mean_constant u _ n_samples_div Hne Hall Hd) in Hint.
  inversion Hint as [E]. rewrite E. repeat split; assumption.
Qed.

Lemma assigned_frame_In (df : list weighted_row) (group_all : list string)
    (samples : list sample_row) (r : out_row) :
  In r (assigned_frame df group_all samples) ->
  In (x_row r) df
  /\ offense_total r = offense_count (x_long r) + offense_unobserved r
  /\ (offense_unobserved r = 0
      \/ exists s, In s samples
                   /\ s_key s = w_key group_all (x_row r)
                   /\ s_uid s = uid (x_long r)
                   /\ s_offense_unobserved s = offense_unobserved r).
Proof.
  unfold assigned_frame. rewrite in_map_iff. intros ([rw o] & E & Hin).
  apply merge_left_In in Hin. destruct Hin as [Hrw Ho]. subst r. simpl.
  split; [exact Hrw|]. split; [reflexivity|].
  destruct o as [s|]; [right|left; reflexivity].
  destruct Ho as [Hs Hm]. apply andb_true_iff in Hm. destruct Hm as [Hk Hu].
  apply key_eqb_spec in Hk. apply Z.eqb_eq in Hu.
  exists s. unfold x_long. simpl. auto.
Qed.

Lemma add_unobserved_ok `{RandomSource} df group_all crimes lam omega
    n_samples_div lambda_col arrest_col (w w' : world) (out : list out_row) :
  _add_unobserved df group_all crimes lam omega n_samples_div lambda_col
                  arrest_col w = (Ok out, w') ->
  exists counted samples,
    _count_unobserved (offenses_frame df group_all crimes) lam arrest_col
                      lambda_col = Ok counted
    /\ _sample_unobserved (weighted_frame df group_all omega counted)
                          group_all n_samples_div w = (Ok samples, w')
    /\ out = assigned_frame (weighted_frame df group_all omega counted)
                            group_all samples.
Proof.
  unfold _add_unobserved. unfold bind at 1, lift at 1.
  destruct (_count_unobserved _ _ _ _) as [counted| |]; try discriminate.
  destruct (existsb _ counted); [discriminate|].
  unfold bind, ret.
  destruct (_sample_unobserved _ _ _ w) as [[samples| |] w1] eqn:Es; try discriminate.
  intro E. inversion E; subst. eauto.
Qed.

Lemma group_In {R} (key_of : R -> key) (k : key) (df : list R) (r : R) :
  In r (group key_of k df) <-> In r df /\ key_of r = k.
Proof.
  unfold group. rewrite filter_In. now rewrite key_eqb_spec.
Qed.

(** ** Conservation *)

Section SortFacts.
Context {A : Type} (cmp : A -> A -> comparison).

Lemma insert_sorted_In (x y : A) (l : list A) :
  In y (insert_sorted cmp x l) <-> y = x \/ In y l.
Proof.
  induction l as [|a l IH]; simpl.
  - intuition.
  - destruct (cmp x a); simpl; rewrite ?IH; intuition.
Qed.

Lemma insert_sorted_NoDup (x : A) (l : list A) :
  ~ In x l -> NoDup l -> NoDup (insert_sorted cmp x l).
Proof.
  induction l as [|a l IH]; simpl; intros Hx Hl.
  - constructor; [tauto|constructor].
  - inversion Hl as [|? ? Ha Hl']; subst.
    destruct (cmp x a); try (constructor; [simpl; tauto | assumption]).
    constructor.
    + rewrite insert_sorted_In. intros [E | Hin]; [|contradiction].
      subst. tauto.
    + apply IH; tauto.
Qed.

Lemma sort_In (y : A) (l : list A) : In y (sort cmp l) <-> In y l.
Proof.
  unfold sort. induction l as [|a l IH]; simpl; [tauto|].
  rewrite insert_sorted_In, IH. intuition.
Qed.

Lemma sort_NoDup (l : list A) : NoDup l -> NoDup (sort cmp l).
Proof.
  unfold sort. induction 1 as [|a l Ha Hl IH]; simpl; [constructor|].
  apply insert_sorted_NoDup; [|exact IH].
  fold (sort cmp l). now rewrite sort_In.
Qed.
End SortFacts.

Lemma group_keys_NoDup {R} (key_of : R -> key) (df : list R) :
  NoDup (group_keys key_of df).
Proof.
  unfold group_keys. apply sort_NoDup. apply unique_NoDup. apply key_eqb_spec.
Qed.

Lemma merge_left_cons {L R} (matches : L -> R -> bool) (a : L) (left : list L)
    (right : list R) :
  exists piece,
    merge_left matches (a :: left) right = piece ++ merge_left matches left right
    /\ piece <> []
    /\ Forall (fun x => fst x = a) piece
    /\ piece = match filter (matches a) right with
               | [] => [(a, None)]
               | rs => map (fun r => (a, Some r)) rs
               end.
Proof.
  unfold merge_left at 1. simpl. fold (merge_left matches left right).
  eexists. split; [reflexivity|].
  destruct (filter (matches a) right) as [|r rs]; simpl.
  - repeat split; [discriminate | repeat constructor].
  - repeat split; [discriminate|]. constructor; [reflexivity|].
    apply Forall_forall. intros x Hx. apply in_map_iff in Hx.
    destruct Hx as (r' & <- & _). reflexivity.
Qed.

Lemma merge_left_length {L R} (matches : L -> R -> bool) (left : list L)
    (right : list R) :
  (List.length left <= List.length (merge_left matches left right))%nat.
Proof.
  induction left as [|a l IH]; [simpl; lia|].
  destruct (merge_left_cons matches a l right) as (piece & -> & Hne & _).
  rewrite length_app. destruct piece; [congruence|]. simpl. lia.
Qed.

(** A left join that does not change the number of rows keeps the left rows
    as they are, in order. *)
Lemma merge_left_same_length {L R} (matches : L -> R -> bool) (left : list L)
    (right : list R) :
  List.length (merge_left matches left right) = List.length left ->
  map fst (merge_left matches left right) = left.
Proof.
  induction left as [|a l IH]; [reflexivity|].
  destruct (merge_left_cons matches a l right) as (piece & -> & Hne & Hfst & _).
  pose proof (merge_left_length matches l right) as Hge.
  rewrite length_app. intro Hlen. simpl in Hlen.
  destruct piece as [|x [|y piece]]; [congruence| |simpl in Hlen; lia].
  inversion Hfst as [|? ? Hx _]; subst. simpl in *.
  rewrite IH by lia. reflexivity.
Qed.

Lemma sumZ_map_nonneg {A} (f : A -> Z) (l : list A) :
  Forall (fun a => 0 <= f a) l -> 0 <= sumZ (map f l).
Proof. induction 1; simpl; lia. Qed.


Lemma sumZ_rowwise {A} (f g h : A -> Z) (l : list A) :
  Forall (fun a => f a = g a + h a) l ->
  sumZ (map f l) = sumZ (map g l) + sumZ (map h l).
Proof. induction 1; simpl; lia. Qed.


Lemma filter_none {A} (p : A -> bool) (l : list A) :
  Forall (fun a => p a = false) l -> filter p l = [].
Proof. induction 1 as [|a l Ha _ IH]; simpl; [reflexivity|]. now rewrite Ha. Qed.



Lemma indicator_sum {A} (p : A -> bool) (c : Z) (l : list A) :
  sumZ (map (fun a => if p a then c else 0) l)
  = c * Z.of_nat (List.length (filter p l)).
Proof.
  induction l as [|a l IH]; simpl; [lia|].
  destruct (p a); simpl List.length; lia.
Qed.

Lemma matched_count_cons group_all s samples rw :
  matched_count group_all (s :: samples) rw
  = (if sample_matches group_all rw s then s_offense_unobserved s else 0)
    + matched_count group_all samples rw.
Proof.
  unfold matched_count. simpl. destruct (sample_matches group_all rw s); simpl; lia.
Qed.


Lemma applied_entries `{RandomSource} (df : list weighted_row)
    (groups : list string) (n_samples_div : Q) (keys : list key)
    (applied : list (key * option (list (Z * Z)))) :
  Forall2 (fun k kv =>
             exists w1 w2,
               (s <- _sample n_samples_div (group (w_key groups) k df) ;;
                ret (k, s))%m w1 = (Ok kv, w2))
          keys applied ->
  map fst applied = keys
  /\ Forall (fun kv =>
               exists w1 w2,
                 _sample n_samples_div (group (w_key groups) (fst kv) df) w1
                 = (Ok (snd kv), w2))
            applied.
Proof.
  induction 1 as [|k kv keys applied (wa & wb & Hk) _ [IH1 IH2]]; simpl.
  - split; constructor.
  - unfold bind, ret in Hk.
    destruct (_sample n_samples_div (group (w_key groups) k df) wa)
      as [[so| |] wc] eqn:Es; try discriminate.
    inversion Hk; subst. simpl. split; [reflexivity|].
    constructor; [|exact IH2]. simpl. eauto.
Qed.

(** The applied frame behind the rows of [_sample_unobserved]. *)
Lemma sample_unobserved_applied `{RandomSource} (df : list weighted_row)
    (groups : list string) (n_samples_div : Q) (w w' : world)
    (samples : list sample_row) :
  _sample_unobserved df groups n_samples_div w = (Ok samples, w') ->
  exists applied,
    samples = explode applied
    /\ map fst applied = group_keys (w_key groups) df
    /\ Forall (fun kv =>
                 exists w1 w2,
                   _sample n_samples_div (group (w_key groups) (fst kv) df) w1
                   = (Ok (snd kv), w2))
              applied.
Proof.
  unfold _sample_unobserved. unfold bind at 1.
  destruct (mapM _ _ w) as [[applied| |] w1] eqn:Em; try discriminate.
  destruct (forallb without_samples applied) eqn:Ef;
    [unfold raise; discriminate|].
  unfold ret. intros E. inversion E; subst samples w'.
  exists applied. split; [reflexivity|].
  apply mapM_Forall2 in Em. now apply applied_entries.
Qed.


Lemma weighted_frame_rows (df : list long_row) (group_all : list string)
    (omega : Q) (counted : list counted_row) :
  (List.length df <= List.length (weighted_frame df group_all omega counted))%nat
  /\ (List.length (weighted_frame df group_all omega counted) = List.length df ->
      map w_row (weighted_frame df group_all omega counted) = df).
Proof.
  unfold weighted_frame. rewrite length_map. split.
  - apply merge_left_length.
  - intro Hlen. rewrite map_map. simpl.
    now apply merge_left_same_length.
Qed.

Lemma assigned_frame_length (df : list weighted_row) (group_all : list string)
    (samples : list sample_row) :
  (List.length df <= List.length (assigned_frame df group_all samples))%nat.
Proof.
  unfold assigned_frame. rewrite length_map. apply merge_left_length.
Qed.

(** [_add_unobserved] never returns fewer rows than it receives. *)
Lemma add_unobserved_length `{RandomSource} df group_all crimes lam omega
    n_samples_div lambda_col arrest_col (w w' : world) (out : list out_row) :
  _add_unobserved df group_all crimes lam omega n_samples_div lambda_col
                  arrest_col w = (Ok out, w') ->
  (List.length df <= List.length out)%nat.
Proof.
  intro Hok.
  destruct (add_unobserved_ok _ _ _ _ _ _ _ _ _ _ _ Hok)
    as (counted & samples & _ & _ & ->).
  pose proof (assigned_frame_length (weighted_frame df group_all omega counted)
                                    group_all samples).
  pose proof (proj1 (weighted_frame_rows df group_all omega counted)).
  lia.
Qed.

Lemma sample_rows_positive `{RandomSource} (df : list weighted_row)
    (groups : list string) (n_samples_div : Q) (w w' : world)
    (samples : list sample_row) :
  _sample_unobserved df groups n_samples_div w = (Ok samples, w') ->
  Forall (fun s => 0 <= s_offense_unobserved s) samples.
Proof.
  intro Hs. apply Forall_forall. intros s Hin.
  destruct (sample_unobserved_rows _ _ _ _ _ _ s Hs Hin)
    as (items & w1 & w2 & _ & Hsample & Hit).
  destruct (sample_some _ _ _ _ _ Hsample) as (_ & n & _ & _ & _ & Hpos).
  rewrite Forall_forall in Hpos. specialize (Hpos _ Hit). simpl in Hpos. lia.
Qed.


(** A window that returns a result has kept the row count of each of its
    two partitions: the row-count hypothesis of the group sums above. *)
Lemma window_partitions `{RandomSource} `{Environment}
    (start_year end_year window : Z) (lam : option Q) (omega : Q)
    (arrest_col smoothing : string)
    (rate_mult_ncvs rate_mult_nsduh : option (list (string * Q)))
    (window_end : Z) (n_samples_div : Q) (w w' : world)
    (out : list pivot_row) :
  _window start_year end_year window lam omega arrest_col smoothing
          rate_mult_ncvs rate_mult_nsduh window_end n_samples_div w
  = (Ok out, w') ->
  exists melted a b w1 w2,
    melt CRIMES (init_neulaw start_year window (window_end - window)) = Ok melted
    /\ _add_unobserved (filter (fun r => negb (nsduh_ids r)) melted)
         NEULAW_TO_NCVS
         (init_ncvs start_year window smoothing rate_mult_ncvs (window_end - window))
         lam omega n_samples_div "lambda" arrest_col w1 = (Ok a, w2)
    /\ _add_unobserved (filter nsduh_ids melted)
         NEULAW_TO_NSDUH
         (init_nsduh start_year window smoothing rate_mult_nsduh (window_end - window))
         lam omega n_samples_div "lambda_smooth" arrest_col w2 = (Ok b, w')
    /\ List.length a = List.length (filter (fun r => negb (nsduh_ids r)) melted)
    /\ List.length b = List.length (filter nsduh_ids melted)
    /\ out = pivot_table (a ++ b).
Proof.
  unfold _window, bind.
  destruct (window_recombined _ _ _ _ _ _ _ _ _ _ _ w) as [[[n df]|e|] w0] eqn:Er;
    try discriminate.
  cbn [fst snd].
  destruct (Nat.eqb (List.length df) n) eqn:En; cbn [negb]; [|discriminate].
  apply Nat.eqb_eq in En. unfold ret. intro E. inversion E; subst out w0.
  unfold window_recombined in Er.
  destruct (negb _) in Er; [discriminate|].
  unfold bind at 1 2 3, log_read in Er. cbv beta iota in Er.
  unfold bind at 1, lift at 1 in Er.
  destruct (melt CRIMES _) as [melted|e0|] eqn:Em; try discriminate.
  cbv beta iota in Er. unfold bind, ret in Er.
  destruct (_add_unobserved _ _ _ _ _ _ _ _ _) as [[a| |] w2] eqn:Ea; try discriminate.
  destruct (_add_unobserved _ _ _ _ _ _ _ _ w2) as [[b| |] w3] eqn:Eb; try discriminate.
  inversion Er as [[Hn Hdf Hw]]. rewrite <- Hn, <- Hdf in En. clear Er Hn Hdf.
  apply add_unobserved_length in Ea as Hla. apply add_unobserved_length in Eb as Hlb.
  rewrite length_app in En.
  pose proof (filter_length nsduh_ids melted) as Hsplit.
  exists melted, a, b. eexists. exists w2.
  rewrite <- Hw. repeat split; try eassumption; lia.
Qed.

(** * Further properties of the sampler and of the imputation *)

(** ** Counters *)

Lemma counter_incr_keys (x y : Z) (c : list (Z * Z)) :
  In y (map fst (counter_incr x c)) <-> y = x \/ In y (map fst c).
Proof.
  induction c as [|[z n] c IH]; simpl.
  - intuition.
  - destruct (Z.eqb_spec x z) as [E|E]; simpl.
    + subst. intuition.
    + rewrite IH. intuition.
Qed.

Lemma counter_incr_NoDup (x : Z) (c : list (Z * Z)) :
  NoDup (map fst c) -> NoDup (map fst (counter_incr x c)).
Proof.
  induction c as [|[z n] c IH]; simpl; intro Hnd.
  - constructor; [tauto|constructor].
  - inversion Hnd as [|? ? Hz Hc]; subst.
    destruct (Z.eqb_spec x z) as [E|E]; simpl.
    + constructor; assumption.
    + constructor; [|now apply IH].
      rewrite counter_incr_keys. intros [E'|Hin]; [congruence|contradiction].
Qed.

Lemma Counter_keys (xs : list Z) :
  NoDup (map fst (Counter xs))
  /\ forall y, In y (map fst (Counter xs)) <-> In y xs.
Proof.
  unfold Counter.
  assert (G : forall c,
             NoDup (map fst c) ->
             NoDup (map fst (fold_left (fun c x => counter_incr x c) xs c))
             /\ forall y, In y (map fst (fold_left (fun c x => counter_incr x c) xs c))
                          <-> In y xs \/ In y (map fst c)).
  { induction xs as [|x xs IH]; intros c Hc; simpl.
    - split; [exact Hc|]. intuition.
    - destruct (IH (counter_incr x c) (counter_incr_NoDup x c Hc)) as [Hnd Hin].
      split; [exact Hnd|]. intro y. rewrite Hin, counter_incr_keys. intuition. }
  destruct (G [] (NoDup_nil _)) as [Hnd Hin]. split; [exact Hnd|].
  intro y. rewrite Hin. simpl. intuition.
Qed.

Lemma take_In {A} (xs : list A) (locs : list nat) (ys : list A) :
  take xs locs = Ok ys ->
  Forall2 (fun i y => nth_error xs i = Some y) locs ys.
Proof.
  unfold take. apply map_result_Forall2. intros i y.
  destruct (nth_error xs i); [|discriminate]. intro E. now inversion E.
Qed.

Lemma Forall2_In_l {A B} (P : A -> B -> Prop) (l : list A) (bs : list B) (b : B) :
  Forall2 P l bs -> In b bs -> exists a, In a l /\ P a b.
Proof. apply Forall2_In_r. Qed.

(** What [_sample] returned when it returned assignments: the weights it
    normalised, the positions it drew and the identifiers it counted. *)
Lemma sample_some_inv `{RandomSource} (n_samples_div : Q)
    (g : list weighted_row) (w w' : world) (items : list (Z * Z)) :
  _sample n_samples_div g w = (Ok (Some items), w') ->
  exists n p us samples,
    1 <= n
    /\ preprocess_weights (map crime_weight g) = Ok p
    /\ repeatM (Z.to_nat n) draw_uniform w = (Ok us, w')
    /\ take (map (fun r => uid (w_row r)) g)
            (map (searchsorted_right (cumsum 0 p)) us) = Ok samples
    /\ items = Counter samples.
Proof.
  unfold _sample. cbv zeta.
  destruct (nunique _ >? 1); [discriminate|].
  munfold. cbv beta.
  destruct (py_int _) as [n| |]; try discriminate.
  destruct (le0 _ || (n <? 1)) eqn:E; [discriminate|].
  apply orb_false_iff in E. destruct E as [_ En]. apply Z.ltb_ge in En.
  destruct (preprocess_weights _) as [p| |]; try discriminate.
  unfold choice. munfold.
  destruct (repeatM (Z.to_nat n) draw_uniform w) as [[us| |] w1] eqn:Er; try discriminate.
  destruct (take _ _) as [samples| |] eqn:Et; try discriminate.
  intro E. inversion E; subst. exists n, p, us, samples. auto.
Qed.

(** The identifiers [_sample] returns are distinct and belong to rows of
    the group. *)
Lemma sample_items `{RandomSource} (n_samples_div : Q)
    (g : list weighted_row) (w w' : world) (items : list (Z * Z)) :
  _sample n_samples_div g w = (Ok (Some items), w') ->
  NoDup (map fst items)
  /\ forall it, In it items ->
       1 <= snd it /\ exists r, In r g /\ uid (w_row r) = fst it.
Proof.
  intro Hs.
  destruct (sample_some _ _ _ _ _ Hs) as (_ & _ & _ & _ & _ & Hpos).
  destruct (sample_some_inv _ _ _ _ _ Hs) as (n & p & us & samples & _ & _ & _ & Ht & ->).
  destruct (Counter_keys samples) as [Hnd Hkeys]. split; [exact Hnd|].
  intros it Hit. rewrite Forall_forall in Hpos. split; [specialize (Hpos it Hit); lia|].
  assert (Hin : In (fst it) samples) by (apply Hkeys; now apply in_map).
  apply take_In in Ht.
  destruct (Forall2_In_r _ _ _ _ Ht Hin) as (i & _ & Hnth).
  apply nth_error_In in Hnth. apply in_map_iff in Hnth.
  destruct Hnth as (r & Hr & Hg). eauto.
Qed.

Lemma NoDup_map_pair {A B} (k : A) (l : list B) :
  NoDup l -> NoDup (map (fun u => (k, u)) l).
Proof.
  induction 1 as [|u l Hu _ IH]; simpl; constructor; [|exact IH].
  rewrite in_map_iff. intros (v & E & Hv). inversion E; subst. contradiction.
Qed.

Lemma explode_NoDup (applied : list (key * option (list (Z * Z)))) :
  NoDup (map fst applied) ->
  Forall (fun kv => match snd kv with
                    | Some items => NoDup (map fst items)
                    | None => True
                    end) applied ->
  NoDup (map (fun s => (s_key s, s_uid s)) (explode applied)).
Proof.
  induction applied as [|[k o] applied IH]; simpl; intros Hnd Hall; [constructor|].
  inversion Hnd as [|? ? Hk Hnd']; subst. inversion Hall as [|? ? Ho Hall']; subst.
  fold (explode applied). rewrite map_app.
  apply NoDup_app.
  - simpl in Ho. destruct o as [items|]; simpl; [|constructor].
    rewrite map_map. simpl. rewrite <- (map_map fst (fun u => (k, u))).
    now apply NoDup_map_pair.
  - now apply IH.
  - intros [k1 u1] Hin1 Hin2. simpl in Hin1.
    assert (E : k1 = k).
    { destruct o as [items|]; [|contradiction].
      rewrite map_map in Hin1. apply in_map_iff in Hin1.
      destruct Hin1 as (it & E & _). simpl in E. now inversion E. }
    subst k1. apply Hk.
    apply in_map_iff in Hin2. destruct Hin2 as (s & E & Hs).
    apply explode_In in Hs. destruct Hs as (items & Hkv & _).
    injection E as Ek Eu. rewrite Ek in Hkv.
    apply in_map_iff. exists (k, Some items). split; [reflexivity|exact Hkv].
Qed.

(** The rows returned by [_sample_unobserved]. *)
Lemma sample_unobserved_frame `{RandomSource} (df : list weighted_row)
    (groups : list string) (n_samples_div : Q) (w w' : world)
    (samples : list sample_row) :
  _sample_unobserved df groups n_samples_div w = (Ok samples, w') ->
  NoDup (map (fun s => (s_key s, s_uid s)) samples)
  /\ forall s, In s samples ->
       1 <= s_offense_unobserved s
       /\ exists r, In r df /\ w_key groups r = s_key s
                    /\ uid (w_row r) = s_uid s.
Proof.
  intro Hs.
  destruct (sample_unobserved_applied _ _ _ _ _ _ Hs) as (applied & -> & Hkeys & Hentries).
  split.
  - apply explode_NoDup.
    + rewrite Hkeys. apply group_keys_NoDup.
    + eapply Forall_impl; [|exact Hentries]. intros [k o] (w1 & w2 & Hk). simpl in *.
      destruct o as [items|]; [|exact I].
      now destruct (sample_items _ _ _ _ _ Hk).
  - intros s Hin. apply explode_In in Hin. destruct Hin as (items & Hkv & Hit).
    rewrite Forall_forall in Hentries.
    destruct (Hentries _ Hkv) as (w1 & w2 & Hk). simpl in Hk.
    destruct (sample_items _ _ _ _ _ Hk) as [_ Hitems].
    destruct (Hitems _ Hit) as (Hpos & r & Hr & Hu). simpl in *.
    split; [exact Hpos|]. apply group_In in Hr. destruct Hr as [Hr Hkey].
    exists r. auto.
Qed.

(** ** Joins that keep the rows *)

Lemma filter_le_one {A B} (f : A -> B) (p : A -> bool) (l : list A) :
  NoDup (map f l) ->
  (forall a b, In a l -> In b l -> p a = true -> p b = true -> f a = f b) ->
  (List.length (filter p l) <= 1)%nat.
Proof.
  induction l as [|a l IH]; simpl; intros Hnd Hp; [lia|].
  inversion Hnd as [|? ? Ha Hl]; subst.
  destruct (p a) eqn:Ea.
  - simpl. rewrite filter_none; [simpl; lia|].
    apply Forall_forall. intros b Hb.
    destruct (p b) eqn:Eb; [|reflexivity].
    exfalso. apply Ha.
    rewrite (Hp a b (or_introl eq_refl) (or_intror Hb) Ea Eb).
    now apply in_map.
  - apply IH; [exact Hl|].
    intros x y Hx Hy. apply Hp; now right.
Qed.

Lemma merge_left_unique {L R} (matches : L -> R -> bool) (left : list L)
    (right : list R) :
  (forall l, In l left ->
             (List.length (filter (matches l) right) <= 1)%nat) ->
  map fst (merge_left matches left right) = left.
Proof.
  intro Hone. apply merge_left_same_length.
  induction left as [|a l IH]; [reflexivity|].
  destruct (merge_left_cons matches a l right) as (piece & -> & _ & _ & ->).
  rewrite length_app, IH by (intros x Hx; apply Hone; now right).
  specialize (Hone a (or_introl eq_refl)).
  destruct (filter (matches a) right) as [|r [|r' rs]]; simpl in *; lia.
Qed.

Lemma group_keys_In {R} (key_of : R -> key) (df : list R) (k : key) :
  In k (group_keys key_of df) <-> exists r, In r df /\ key_of r = k.
Proof.
  unfold group_keys. rewrite sort_In, (unique_In key_eqb key_eqb_spec), in_map_iff.
  split; intros (r & A & B); exists r; auto.
Qed.

Lemma sub_key_key_of (group_all : list string) (r : long_row) :
  sub_key group_all (key_of group_all r)
  = key_of (filter not_offense_category group_all) r.
Proof.
  unfold sub_key, key_of.
  induction group_all as [|c cols IH]; [reflexivity|].
  simpl. destruct (not_offense_category c); simpl; now rewrite IH.
Qed.

Lemma nunique_positive (l : list Z) : l <> [] -> 1 <= nunique l.
Proof.
  intro Hne. unfold nunique, distinct.
  destruct l as [|a l]; [congruence|]. simpl. lia.
Qed.

(** The rows of [offenses]: one or more per group of the cohort, each with
    the number of distinct individuals of its demographic group, which is
    at least one; exactly one per group when the rate table has one row
    per key. *)
Lemma offenses_frame_rows (df : list long_row) (group_all : list string)
    (crimes : list rate_row) :
  (forall o, In o (offenses_frame df group_all crimes) ->
     In (o_key o) (group_keys (key_of group_all) df)
     /\ exists n, 1 <= n /\ o_pop_size o = of_int n)
  /\ (NoDup (map r_key crimes) ->
      map o_key (offenses_frame df group_all crimes)
      = group_keys (key_of group_all) df).
Proof.
  unfold offenses_frame. cbv zeta.
  set (groups := filter not_offense_category group_all).
  set (offenses0 := map (fun k => (k, sumZ (map offense_count (group (key_of group_all) k df))))
                        (group_keys (key_of group_all) df)).
  set (pop := map (fun g => (g, nunique (map uid (group (key_of groups) g df))))
                  (group_keys (key_of groups) df)).
  set (m1 := merge_left (fun o p => key_eqb (sub_key group_all (fst o)) (fst p)) offenses0 pop).
  set (m2 := merge_left (fun o (c : rate_row) => key_eqb (fst (fst o)) (r_key c)) m1 crimes).
  assert (Hpop_keys : map fst pop = group_keys (key_of groups) df).
  { subst pop. rewrite map_map. simpl. apply map_id. }
  assert (Hoff_keys : map fst offenses0 = group_keys (key_of group_all) df).
  { subst offenses0. rewrite map_map. simpl. apply map_id. }
  assert (Hm1 : map fst m1 = offenses0).
  { subst m1. apply merge_left_unique. intros o _.
    apply (filter_le_one fst).
    - rewrite Hpop_keys. apply group_keys_NoDup.
    - intros a b _ _ Ea Eb. apply key_eqb_spec in Ea, Eb. congruence. }
  assert (Hm1_pop : forall x, In x m1 ->
            In (fst (fst x)) (group_keys (key_of group_all) df)
            /\ exists p n, snd x = Some p /\ snd p = n /\ 1 <= n).
  { intros [o po] Hx. subst m1. apply merge_left_In in Hx. destruct Hx as [Ho Hpo].
    simpl. assert (Hk : In (fst o) (group_keys (key_of group_all) df)).
    { rewrite <- Hoff_keys. now apply in_map. }
    split; [exact Hk|].
    apply group_keys_In in Hk. destruct Hk as (r & Hr & Ek).
    assert (Hg : In (key_of groups r) (group_keys (key_of groups) df))
      by (apply group_keys_In; eauto).
    destruct po as [p|].
    - destruct Hpo as [Hp Hmatch]. exists p, (snd p). split; [reflexivity|].
      split; [reflexivity|].
      subst pop. apply in_map_iff in Hp. destruct Hp as (g & <- & _). simpl in *.
      apply key_eqb_spec in Hmatch. rewrite <- Ek, sub_key_key_of in Hmatch.
      fold groups in Hmatch. subst g.
      apply nunique_positive. intro E.
      assert (Hin : In (uid r) (map uid (group (key_of groups) (key_of groups r) df))).
      { apply in_map. apply group_In. auto. }
      rewrite E in Hin. contradiction.
    - exfalso.
      assert (Hin : In (key_of groups r, nunique (map uid (group (key_of groups) (key_of groups r) df)))
                       (filter (fun p => key_eqb (sub_key group_all (fst o)) (fst p)) pop)).
      { apply filter_In. split.
        - subst pop. apply in_map_iff. eauto.
        - simpl. rewrite <- Ek, sub_key_key_of. apply key_eqb_refl. }
      rewrite Hpo in Hin. contradiction. }
  split.
  - intros o Ho. apply in_map_iff in Ho. destruct Ho as ([x rate] & <- & Hx). simpl.
    subst m2. apply merge_left_In in Hx. destruct Hx as [Hx _].
    destruct (Hm1_pop _ Hx) as (Hk & p & n & Ep & En & Hn).
    split; [exact Hk|]. exists n. rewrite Ep, En. auto.
  - intro Hnd. rewrite map_map. simpl.
    assert (Hm2 : map fst m2 = m1).
    { subst m2. apply merge_left_unique. intros o _.
      apply (filter_le_one r_key); [exact Hnd|].
      intros a b _ _ Ea Eb. apply key_eqb_spec in Ea, Eb. congruence. }
    rewrite <- Hoff_keys, <- Hm1, <- Hm2, !map_map. reflexivity.
Qed.

Lemma count_unobserved_rows (pop : list offenses_row) (lam : option Q)
    (arrest_col lambda_col : string) (counted : list counted_row) :
  _count_unobserved pop lam arrest_col lambda_col = Ok counted ->
  map c_offenses counted = pop
  /\ Forall (fun c =>
               unobserved_crimes c
               = wrap64 (total_crimes c - o_offense_count (c_offenses c))
               /\ unobserved_per_person c
                  = Float.div (of_int (unobserved_crimes c))
                              (o_pop_size (c_offenses c)))
            counted.
Proof.
  unfold _count_unobserved. revert counted.
  induction pop as [|r pop IH]; simpl; intros counted Hc.
  - inversion Hc. split; constructor.
  - destruct (count_row lam arrest_col lambda_col r) as [c| |] eqn:Er; try discriminate.
    destruct (map_result _ pop) as [cs| |]; try discriminate.
    inversion Hc as [Ec]. destruct (IH cs eq_refl) as [IH1 IH2].
    unfold count_row in Er. inversion Er as [Er']. simpl. split; [now rewrite IH1|].
    constructor; [simpl; auto|exact IH2].
Qed.

Lemma add_unobserved_rows `{RandomSource} df group_all crimes lam omega
    n_samples_div lambda_col arrest_col (w w' : world) (out : list out_row) :
  NoDup (map r_key crimes) ->
  _add_unobserved df group_all crimes lam omega n_samples_div lambda_col
                  arrest_col w = (Ok out, w') ->
  map x_long out = df.
Proof.
  intros Hnd Hok.
  destruct (add_unobserved_ok _ _ _ _ _ _ _ _ _ _ _ Hok)
    as (counted & samples & Hc & Hs & ->).
  destruct (count_unobserved_rows _ _ _ _ _ Hc) as [Hrows _].
  assert (Hkeys : NoDup (map (fun c => o_key (c_offenses c)) counted)).
  { rewrite <- (map_map c_offenses o_key), Hrows.
    rewrite (proj2 (offenses_frame_rows df group_all crimes) Hnd).
    apply group_keys_NoDup. }
  assert (Hw : map w_row (weighted_frame df group_all omega counted) = df).
  { unfold weighted_frame. rewrite map_map. simpl.
    apply merge_left_unique. intros r _.
    apply (filter_le_one (fun c => o_key (c_offenses c))); [exact Hkeys|].
    intros a b _ _ Ea Eb. apply key_eqb_spec in Ea, Eb. congruence. }
  destruct (sample_unobserved_frame _ _ _ _ _ _ Hs) as [Hsnd _].
  unfold x_long. rewrite <- (map_map x_row w_row).
  replace (map x_row (assigned_frame (weighted_frame df group_all omega counted)
                                     group_all samples))
    with (weighted_frame df group_all omega counted); [exact Hw|].
  symmetry. unfold assigned_frame. rewrite map_map. simpl.
  apply merge_left_unique. intros r _.
  apply (filter_le_one (fun s => (s_key s, s_uid s))); [exact Hsnd|].
  intros a b _ _ Ea Eb.
  apply andb_true_iff in Ea, Eb. destruct Ea as [Ka Ua], Eb as [Kb Ub].
  apply key_eqb_spec in Ka, Kb. apply Z.eqb_eq in Ua, Ub. congruence.
Qed.

(** X1.  When the rate table has one row per group key, [_add_unobserved]
    returns the rows it received, in the same order, each once: nothing is
    dropped, duplicated or reordered by the three joins. *)
Theorem add_unobserved_keeps_rows `{RandomSource} df group_all crimes lam
    omega n_samples_div lambda_col arrest_col (w w' : world)
    (out : list out_row) :
  NoDup (map r_key crimes) ->
  _add_unobserved df group_all crimes lam omega n_samples_div lambda_col
                  arrest_col w = (Ok out, w') ->
  map x_long out = df /\ List.length out = List.length df.
Proof.
  intros Hnd Hok.
  pose proof (add_unobserved_rows _ _ _ _ _ _ _ _ _ _ _ Hnd Hok) as E.
  split; [exact E|]. rewrite <- E, length_map. reflexivity.
Qed.

(** X1 on a cohort of two groups and a rate table of two keys. *)
Lemma add_unobserved_keeps_rows_witness :
  map x_long (Demo.rows_of (Demo.add_unobserved Demo.cohort_mixed Demo.mixed_table))
  = Demo.cohort_mixed
  /\ List.length (Demo.rows_of (Demo.add_unobserved Demo.cohort_mixed Demo.mixed_table))
     = List.length Demo.cohort_mixed.
Proof.
  apply (@add_unobserved_keeps_rows Demo.lcg Demo.cohort_mixed Demo.group_all
           Demo.mixed_table None 1 1 "lambda" "arrest_rate_smooth" Demo.world0
           (snd (Demo.add_unobserved Demo.cohort_mixed Demo.mixed_table))).
  - repeat constructor; simpl; intuition congruence.
  - vm_compute. reflexivity.
Defined.

Lemma add_unobserved_assigned `{RandomSource} df group_all crimes lam omega
    n_samples_div lambda_col arrest_col (w w' : world) (out : list out_row)
    (r : out_row) :
  _add_unobserved df group_all crimes lam omega n_samples_div lambda_col
                  arrest_col w = (Ok out, w') ->
  In r out ->
  0 <= offense_unobserved r
  /\ offense_total r = offense_count (x_long r) + offense_unobserved r.
Proof.
  intros Hok Hin.
  destruct (add_unobserved_ok _ _ _ _ _ _ _ _ _ _ _ Hok)
    as (counted & samples & _ & Hs & ->).
  apply assigned_frame_In in Hin. destruct Hin as (_ & Htot & Hcase).
  split; [|exact Htot].
  destruct Hcase as [-> | (s & Hsin & _ & _ & <-)]; [lia|].
  pose proof (sample_rows_positive _ _ _ _ _ _ Hs) as Hpos.
  rewrite Forall_forall in Hpos. now apply Hpos.
Qed.

(** X2.  No row of the frame returned by [_add_unobserved] loses crimes:
    the assigned count is never negative, so the total is at least the
    observed count, and it stays non-negative when the observed count is. *)
Theorem add_unobserved_never_subtracts `{RandomSource} df group_all crimes
    lam omega n_samples_div lambda_col arrest_col (w w' : world)
    (out : list out_row) :
  _add_unobserved df group_all crimes lam omega n_samples_div lambda_col
                  arrest_col w = (Ok out, w') ->
  Forall (fun r => 0 <= offense_unobserved r
                   /\ offense_count (x_long r) <= offense_total r
                   /\ (0 <= offense_count (x_long r) -> 0 <= offense_total r))
         out.
Proof.
  intro Hok. apply Forall_forall. intros r Hin.
  destruct (add_unobserved_assigned _ _ _ _ _ _ _ _ _ _ _ r Hok Hin) as [H0 Ht].
  lia.
Qed.

(** X2 on the cohort of two groups, one of them with a negative residual. *)
Lemma add_unobserved_never_subtracts_witness :
  Forall (fun r => 0 <= offense_unobserved r
                   /\ offense_count (x_long r) <= offense_total r
                   /\ (0 <= offense_count (x_long r) -> 0 <= offense_total r))
         (Demo.rows_of (Demo.add_unobserved Demo.cohort_mixed Demo.mixed_table)).
Proof.
  apply (@add_unobserved_never_subtracts Demo.lcg Demo.cohort_mixed Demo.group_all
           Demo.mixed_table None 1 1 "lambda" "arrest_rate_smooth" Demo.world0
           (snd (Demo.add_unobserved Demo.cohort_mixed Demo.mixed_table))).
  vm_compute. reflexivity.
Defined.

(** X3.  The frame returned by [_sample_unobserved] has at most one row per
    (group, individual); every row carries a count of at least one and the
    identifier of an individual of that very group. *)
Theorem sample_unobserved_assigns_to_members `{RandomSource}
    (df : list weighted_row) (groups : list string) (n_samples_div : Q)
    (w w' : world) (samples : list sample_row) :
  _sample_unobserved df groups n_samples_div w = (Ok samples, w') ->
  NoDup (map (fun s => (s_key s, s_uid s)) samples)
  /\ Forall (fun s =>
               1 <= s_offense_unobserved s
               /\ exists r, In r (group (w_key groups) (s_key s) df)
                            /\ uid (w_row r) = s_uid s)
            samples.
Proof.
  intro Hs. destruct (sample_unobserved_frame _ _ _ _ _ _ Hs) as [Hnd Hall].
  split; [exact Hnd|]. apply Forall_forall. intros s Hin.
  destruct (Hall s Hin) as (Hpos & r & Hr & Hk & Hu).
  split; [exact Hpos|]. exists r. split; [|exact Hu]. apply group_In. auto.
Qed.

(** X3 on a group of two individuals with 7 unobserved crimes. *)
Lemma sample_unobserved_assigns_to_members_witness :
  let samples :=
    match fst (@_sample_unobserved Demo.lcg Demo.group_7 Demo.group_all 1 Demo.world0) with
    | Ok s => s
    | _ => []
    end in
  NoDup (map (fun s => (s_key s, s_uid s)) samples)
  /\ Forall (fun s =>
               1 <= s_offense_unobserved s
               /\ exists r, In r (group (w_key Demo.group_all) (s_key s) Demo.group_7)
                            /\ uid (w_row r) = s_uid s)
            samples.
Proof.
  intro samples.
  apply (@sample_unobserved_assigns_to_members Demo.lcg Demo.group_7 Demo.group_all 1
           Demo.world0
           (snd (@_sample_unobserved Demo.lcg Demo.group_7 Demo.group_all 1 Demo.world0))).
  vm_compute. reflexivity.
Defined.

(** ** The check after the estimator *)

Lemma sample_unobserved_exceptions `{RandomSource} df groups n_samples_div :
  quiet (fun e => e <> RuntimeError_assign /\ e <> RuntimeError_size)
        (_sample_unobserved df groups n_samples_div).
Proof.
  unfold _sample_unobserved. apply quiet_bind.
  - apply quiet_mapM. intro k. apply quiet_bind; [|intro s; apply quiet_ret].
    intro w. destruct (sample_outcome n_samples_div (group (w_key groups) k df) w)
      as [Hr Ho].
    split; [exact Hr|]. intros e E. rewrite E in Ho.
    destruct Ho as [[_ ->] | [_ [-> | [-> | [-> | ->]]]]]; split; discriminate.
  - intro applied. destruct (forallb without_samples applied).
    + apply quiet_raise. split; discriminate.
    + apply quiet_ret.
Qed.

Lemma counted_per_person_defined (df : list long_row) (group_all : list string)
    (crimes : list rate_row) (lam : option Q) (arrest_col lambda_col : string)
    (counted : list counted_row) :
  _count_unobserved (offenses_frame df group_all crimes) lam arrest_col lambda_col
  = Ok counted ->
  existsb (fun c => isna (unobserved_per_person c)) counted = false.
Proof.
  intro Hc. destruct (count_unobserved_rows _ _ _ _ _ Hc) as [Hrows Hall].
  destruct (existsb _ counted) eqn:E; [|reflexivity]. exfalso.
  apply existsb_exists in E. destruct E as (c & Hin & Hna).
  rewrite Forall_forall in Hall. destruct (Hall c Hin) as [_ Hupp].
  assert (Ho : In (c_offenses c) (offenses_frame df group_all crimes)).
  { rewrite <- Hrows. now apply in_map. }
  destruct (proj1 (offenses_frame_rows df group_all crimes) _ Ho) as (_ & n & Hn & Hpop).
  rewrite Hupp, Hpop in Hna. unfold Float.div, of_int, Qis_zero in Hna.
  assert (Ez : Qeq_bool (inject_Z n) 0 = false).
  { destruct (Qeq_bool (inject_Z n) 0) eqn:Eq; [|reflexivity].
    apply Qeq_bool_eq in Eq. unfold Qeq in Eq. simpl in Eq. lia. }
  rewrite Ez in Hna. discriminate.
Qed.

Lemma add_unobserved_assign_check `{RandomSource} df group_all crimes
    lam omega n_samples_div lambda_col arrest_col (w : world) :
  fst (_add_unobserved df group_all crimes lam omega n_samples_div
                       lambda_col arrest_col w)
  <> Raise RuntimeError_assign.
Proof.
  unfold _add_unobserved. unfold bind at 1, lift at 1.
  destruct (_count_unobserved _ _ _ _) as [counted|e|] eqn:Hc; simpl;
    [|now apply count_unobserved_never_raises in Hc|discriminate].
  rewrite (counted_per_person_defined _ _ _ _ _ _ _ Hc).
  unfold bind, ret.
  pose proof (sample_unobserved_exceptions
                (weighted_frame df group_all omega counted) group_all n_samples_div w)
    as [_ He].
  destruct (_sample_unobserved _ _ _ w) as [[samples|e|] w1]; simpl in *;
    [discriminate| |discriminate].
  intro E. inversion E; subst. now destruct (He _ eq_refl).
Qed.

(** X4.  The check of line 172 cannot fire: every group of the cohort has
    at least one individual, so [unobserved_per_person] is never missing
    and [_add_unobserved] never raises 'Failed to assign unobserved
    offenses', whatever the cohort and the rate table (a missing arrest
    rate falls back to the observed count, a missing rate column stops at
    the integer conversion before the check). *)
Theorem failed_to_assign_is_unreachable `{RandomSource} df group_all crimes
    lam omega n_samples_div lambda_col arrest_col (w : world) :
  fst (_add_unobserved df group_all crimes lam omega n_samples_div
                       lambda_col arrest_col w)
  <> Raise RuntimeError_assign
  /\ forall counted,
       _count_unobserved (offenses_frame df group_all crimes) lam arrest_col
                         lambda_col = Ok counted ->
       Forall (fun c => isna (unobserved_per_person c) = false) counted.
Proof.
  split; [apply add_unobserved_assign_check|].
  intros counted Hc. apply Forall_forall. intros c Hin.
  pose proof (counted_per_person_defined _ _ _ _ _ _ _ Hc) as E.
  destruct (isna (unobserved_per_person c)) eqn:Ena; [|reflexivity].
  assert (existsb (fun c => isna (unobserved_per_person c)) counted = true)
    by (apply existsb_exists; eauto).
  congruence.
Qed.

(** ** The window with keyed rate tables *)

Lemma filter_partition_Permutation {A} (p : A -> bool) (l : list A) :
  Permutation (filter (fun a => negb (p a)) l ++ filter p l) l.
Proof.
  induction l as [|a l IH]; simpl; [constructor|].
  destruct (p a); simpl.
  - apply Permutation_sym, Permutation_cons_app,
      Permutation_sym, IH.
  - now constructor.
Qed.

Section KeyedWindow.
Context `{RandomSource} `{Environment}.
Variables (start_year end_year window : Z) (lam : option Q) (omega : Q)
          (arrest_col smoothing : string)
          (rate_mult_ncvs rate_mult_nsduh : option (list (string * Q))).

Local Abbreviation the_recombined :=
  (window_recombined start_year end_year window lam omega arrest_col
     smoothing rate_mult_ncvs rate_mult_nsduh).
Local Abbreviation this_window :=
  (_window start_year end_year window lam omega arrest_col
     smoothing rate_mult_ncvs rate_mult_nsduh).

Lemma recombined_rows (window_end : Z) (n_samples_div : Q) (w w' : world)
    (len_before : nat) (df : list out_row) :
  NoDup (map r_key (init_ncvs start_year window smoothing rate_mult_ncvs
                              (window_end - window))) ->
  NoDup (map r_key (init_nsduh start_year window smoothing rate_mult_nsduh
                               (window_end - window))) ->
  the_recombined window_end n_samples_div w = (Ok (len_before, df), w') ->
  exists melted,
    melt CRIMES (init_neulaw start_year window (window_end - window)) = Ok melted
    /\ len_before = List.length melted
    /\ map x_long df
       = filter (fun r => negb (nsduh_ids r)) melted ++ filter nsduh_ids melted.
Proof.
  intros Hncvs Hnsduh Er. unfold window_recombined in Er.
  destruct (negb _) in Er; [discriminate|].
  unfold bind at 1 2 3, log_read in Er. cbv beta iota in Er.
  unfold bind at 1, lift at 1 in Er.
  destruct (melt CRIMES _) as [melted|e0|] eqn:Em; try discriminate.
  cbv beta iota in Er. unfold bind, ret in Er.
  destruct (_add_unobserved _ _ _ _ _ _ _ _ _) as [[a| |] w2] eqn:Ea; try discriminate.
  destruct (_add_unobserved _ _ _ _ _ _ _ _ w2) as [[b| |] w3] eqn:Eb; try discriminate.
  inversion Er; subst len_before df w3.
  exists melted. split; [reflexivity|]. split; [reflexivity|].
  rewrite map_app.
  rewrite (add_unobserved_rows _ _ _ _ _ _ _ _ _ _ _ Hncvs Ea).
  rewrite (add_unobserved_rows _ _ _ _ _ _ _ _ _ _ _ Hnsduh Eb).
  reflexivity.
Qed.

(** X5.  When each of the two rate tables has one row per group key, the
    window never raises the size error, and the frame it recombines holds
    exactly the rows of the melted cohort: those of the victimization
    partition first, then those of the self-report partition, each in its
    original order. *)
Theorem keyed_window_keeps_rows (window_end : Z) (n_samples_div : Q)
    (w : world) :
  NoDup (map r_key (init_ncvs start_year window smoothing rate_mult_ncvs
                              (window_end - window))) ->
  NoDup (map r_key (init_nsduh start_year window smoothing rate_mult_nsduh
                               (window_end - window))) ->
  fst (this_window window_end n_samples_div w) <> Raise RuntimeError_size
  /\ forall len_before df w',
       the_recombined window_end n_samples_div w = (Ok (len_before, df), w') ->
       exists melted,
         melt CRIMES (init_neulaw start_year window (window_end - window))
         = Ok melted
         /\ map x_long df
            = filter (fun r => negb (nsduh_ids r)) melted
              ++ filter nsduh_ids melted
         /\ Permutation (map x_long df) melted.
Proof.
  intros Hncvs Hnsduh. split.
  - unfold _window, bind.
    destruct (the_recombined window_end n_samples_div w) as [[[n df]|e|] w1] eqn:Er;
      cbn [fst snd].
    + destruct (recombined_rows _ _ _ _ _ _ Hncvs Hnsduh Er) as (melted & _ & -> & Hrows).
      assert (El : List.length df = List.length melted).
      { rewrite <- (length_map x_long df), Hrows, length_app.
        pose proof (filter_length nsduh_ids melted). lia. }
      rewrite El, Nat.eqb_refl. simpl. discriminate.
    + simpl. intro E. inversion E; subst e.
      unfold window_recombined in Er.
      destruct (negb _) in Er; [discriminate|].
      unfold bind at 1 2 3, log_read in Er. cbv beta iota in Er.
      unfold bind at 1, lift at 1 in Er.
      destruct (melt CRIMES _) as [melted|e0|] eqn:Em.
      * cbv beta iota in Er. unfold bind, ret in Er.
        match type of Er with
        | context [_add_unobserved ?d ?g ?c lam omega n_samples_div ?lc arrest_col ?w0] =>
            pose proof (quiet_add_unobserved d g c lam omega n_samples_div lc
                                             arrest_col w0) as [_ Ha];
            destruct (_add_unobserved d g c lam omega n_samples_div lc arrest_col w0)
              as [[a|ea|] w2]
        end.
        -- match type of Er with
           | context [_add_unobserved ?d ?g ?c lam omega n_samples_div ?lc arrest_col w2] =>
               pose proof (quiet_add_unobserved d g c lam omega n_samples_div lc
                                                arrest_col w2) as [_ Hb];
               destruct (_add_unobserved d g c lam omega n_samples_div lc arrest_col w2)
                 as [[b|eb|] w3]
           end; try discriminate.
           inversion Er; subst. exact (Hb _ eq_refl).
        -- inversion Er; subst. exact (Ha _ eq_refl).
        -- discriminate.
      * inversion Er; subst. apply melt_raises in Em. destruct Em as [c Ec].
        discriminate.
      * discriminate.
    + simpl. discriminate.
  - intros n df w' Er.
    destruct (recombined_rows _ _ _ _ _ _ Hncvs Hnsduh Er) as (melted & Hm & _ & Hrows).
    exists melted. split; [exact Hm|]. split; [exact Hrows|].
    rewrite Hrows. apply filter_partition_Permutation.
Qed.
End KeyedWindow.

(** X5 on the demonstration tables, each with one row per key. *)
Lemma keyed_window_keeps_rows_witness :
  fst (Demo.window Demo.ncvs_table 2005) <> Raise RuntimeError_size
  /\ forall len_before df w',
       Demo.recombined Demo.ncvs_table 2005 = (Ok (len_before, df), w') ->
       exists melted,
         melt (@CRIMES (Demo.env Demo.ncvs_table Demo.nsduh_table))
              (@init_neulaw (Demo.env Demo.ncvs_table Demo.nsduh_table) 2000 3 (2005 - 3))
         = Ok melted
         /\ map x_long df
            = filter (fun r => negb (nsduh_ids r)) melted
              ++ filter nsduh_ids melted
         /\ Permutation (map x_long df) melted.
Proof.
  apply (@keyed_window_keeps_rows Demo.lcg (Demo.env Demo.ncvs_table Demo.nsduh_table)
           2000 2010 3 None 1 "arrest_rate_smooth" "lr_pr" None None 2005 1 Demo.world0).
  - repeat constructor; simpl; intuition congruence.
  - repeat constructor; simpl; intuition congruence.
Defined.

(** ** What the sampler takes from the generator *)

Lemma advance_add `{RandomSource} (a b : nat) (s : rng_state) :
  advance (a + b) s = advance b (advance a s).
Proof. revert s. induction a as [|a IH]; intro s; simpl; [reflexivity|apply IH]. Qed.

Lemma repeatM_draw_state `{RandomSource} (P : Q -> Prop) (n : nat) :
  (forall s, P (fst (random_sample s))) ->
  forall w us w',
    repeatM n draw_uniform w = (Ok us, w') ->
    rng w' = advance n (rng w) /\ reads w' = reads w /\ Forall P us.
Proof.
  intro HP. induction n as [|n IH]; simpl; intros w us w' Hr; munfold.
  - inversion Hr; subst. auto.
  - unfold draw_uniform at 1 in Hr.
    pose proof (HP (rng w)) as Hu.
    destruct (random_sample (rng w)) as [u s]. simpl in *.
    destruct (repeatM n draw_uniform (mkWorld _ s (reads w))) as [[l| |] w1] eqn:E;
      try discriminate.
    inversion Hr; subst. destruct (IH _ _ _ E) as (A & B & C). simpl in *.
    repeat split; auto.
Qed.

Lemma sample_advance `{RandomSource} (n_samples_div : Q)
    (g : list weighted_row) (w w' : world) (k : key)
    (o : option (list (Z * Z))) :
  _sample n_samples_div g w = (Ok o, w') ->
  0 <= entry_total (k, o)
  /\ rng w' = advance (Z.to_nat (entry_total (k, o))) (rng w)
  /\ reads w' = reads w.
Proof.
  unfold entry_total. simpl. destruct o as [items|].
  - intro Hs.
    destruct (sample_some_inv _ _ _ _ _ Hs) as (n & p & us & samples & Hn & _ & Hr & Ht & ->).
    destruct (repeatM_draw_state (fun _ => True) (Z.to_nat n) (fun _ => I) _ _ _ Hr)
      as (Hrng & Hreads & _).
    rewrite Counter_sum.
    unfold take in Ht. apply map_result_length in Ht. rewrite length_map in Ht.
    apply repeatM_length in Hr. rewrite Ht, Hr, Nat2Z.id.
    split; [lia|]. split; assumption.
  - unfold _sample. cbv zeta.
    destruct (nunique _ >? 1); [discriminate|].
    munfold. cbv beta.
    destruct (py_int _) as [n| |]; try discriminate.
    destruct (le0 _ || (n <? 1)).
    + intro E. inversion E; subst. simpl. split; [lia|]. split; reflexivity.
    + destruct (preprocess_weights _) as [p| |]; try discriminate.
      destruct (choice _ _ _) as [[locs| |] w1]; try discriminate.
      destruct (take _ _); discriminate.
Qed.

Lemma explode_sum (applied : list (key * option (list (Z * Z)))) :
  sumZ (map s_offense_unobserved (explode applied))
  = sumZ (map entry_total applied).
Proof.
  induction applied as [|[k o] applied IH]; [reflexivity|].
  unfold explode in *. simpl flat_map. rewrite map_app, sumZ_app, IH.
  unfold entry_total at 2. simpl.
  destruct o as [items|]; simpl; [|reflexivity].
  rewrite map_map. simpl. reflexivity.
Qed.

Lemma mapM_sample_advance `{RandomSource} (df : list weighted_row)
    (groups : list string) (n_samples_div : Q) (keys : list key) :
  forall w applied w',
    mapM (fun k => s <- _sample n_samples_div (group (w_key groups) k df) ;;
                   ret (k, s))%m keys w = (Ok applied, w') ->
    0 <= sumZ (map entry_total applied)
    /\ rng w' = advance (Z.to_nat (sumZ (map entry_total applied))) (rng w)
    /\ reads w' = reads w.
Proof.
  induction keys as [|k keys IH]; simpl; intros w applied w' Hm; munfold.
  - inversion Hm; subst. simpl. split; [lia|]. split; reflexivity.
  - destruct (_sample n_samples_div (group (w_key groups) k df) w)
      as [[o| |] w1] eqn:Es; try discriminate.
    destruct (mapM _ keys w1) as [[rest| |] w2] eqn:Er; try discriminate.
    inversion Hm; subst.
    destruct (sample_advance _ _ _ _ k _ Es) as (H0 & Hrng & Hreads).
    destruct (IH _ _ _ Er) as (H0' & Hrng' & Hreads').
    cbn [map sumZ fold_right]. fold (sumZ (map entry_total rest)).
    split; [lia|]. split; [|congruence].
    rewrite Z2Nat.inj_add by lia. rewrite advance_add, <- Hrng. exact Hrng'.
Qed.

(** X6.  [_sample_unobserved] takes exactly one uniform number from the
    generator per synthetic crime it hands out: after a successful call the
    generator has advanced by the sum of the assigned counts, and by
    nothing when no group needs samples. *)
Theorem sample_unobserved_draws `{RandomSource} (df : list weighted_row)
    (groups : list string) (n_samples_div : Q) (w w' : world)
    (samples : list sample_row) :
  _sample_unobserved df groups n_samples_div w = (Ok samples, w') ->
  rng w' = advance (Z.to_nat (sumZ (map s_offense_unobserved samples))) (rng w)
  /\ reads w' = reads w.
Proof.
  unfold _sample_unobserved. unfold bind at 1.
  destruct (mapM _ _ w) as [[applied| |] w1] eqn:Em; try discriminate.
  destruct (forallb without_samples applied) eqn:Ef;
    [unfold raise; discriminate|].
  unfold ret. intro E. inversion E; subst samples w'.
  rewrite explode_sum.
  destruct (mapM_sample_advance _ _ _ _ _ _ _ Em) as (_ & Hrng & Hreads).
  split; assumption.
Qed.

(** X6 on a group of two individuals with 7 unobserved crimes: seven
    draws. *)
Lemma sample_unobserved_draws_witness :
  let run := @_sample_unobserved Demo.lcg Demo.group_7 Demo.group_all 1 Demo.world0 in
  let samples := match fst run with Ok s => s | _ => [] end in
  @rng Demo.lcg (snd run)
  = @advance Demo.lcg (Z.to_nat (sumZ (map s_offense_unobserved samples)))
                      (@rng Demo.lcg Demo.world0)
  /\ @reads Demo.lcg (snd run) = @reads Demo.lcg Demo.world0.
Proof.
  intros run samples.
  apply (@sample_unobserved_draws Demo.lcg Demo.group_7 Demo.group_all 1 Demo.world0).
  vm_compute. reflexivity.
Defined.

(** ** Who can be drawn *)

Lemma cumsum_lower (acc : Q) (ps : list Q) :
  Forall (fun p => (0 <= p)%Q) ps ->
  Forall (fun c => (acc <= c)%Q) (cumsum acc ps).
Proof.
  intro Hps. revert acc. induction Hps as [|p ps Hp _ IH]; intro acc; simpl.
  - constructor.
  - constructor; [lra|].
    eapply Forall_impl; [|apply IH]. intros c Hc. cbv beta in *. lra.
Qed.

(** The position found for a draw holds a strictly positive probability. *)
Lemma searchsorted_positive (ps : list Q) :
  Forall (fun p => (0 <= p)%Q) ps ->
  forall acc u x,
    (acc <= u)%Q ->
    nth_error ps (searchsorted_right (cumsum acc ps) u) = Some x ->
    (0 < x)%Q.
Proof.
  unfold searchsorted_right.
  induction 1 as [|p ps Hp Hps IH]; intros acc u x Hacc Hnth; simpl in *.
  - discriminate.
  - destruct (Qle_bool (acc + p) u) eqn:E.
    + simpl in Hnth. apply Qle_bool_true in E. eapply IH; [exact E|exact Hnth].
    + apply Qle_bool_false in E.
      rewrite filter_none in Hnth.
      * simpl in Hnth. inversion Hnth; subst. lra.
      * eapply Forall_impl; [|apply (cumsum_lower (acc + p) ps Hps)].
        intros c Hc. cbv beta in *. apply Qle_bool_false. lra.
Qed.

Lemma Qsum_nonneg (l : list Q) :
  Forall (fun q => (0 <= q)%Q) l -> (0 <= Qsum l)%Q.
Proof. induction 1; simpl; lra. Qed.

Lemma preprocess_weights_ok (ws : list float64) (p : list Q) :
  preprocess_weights ws = Ok p ->
  Forall (fun q => (0 <= q)%Q) p
  /\ exists total,
       (0 < total)%Q
       /\ p = map (fun x => (finite_or_zero x / total)%Q) ws.
Proof.
  unfold preprocess_weights.
  destruct (existsb is_inf ws); [discriminate|].
  destruct (existsb lt0 ws) eqn:Eneg; [discriminate|].
  set (qs := map finite_or_zero ws).
  destruct (Qis_zero (Qsum qs)) eqn:Ez; [discriminate|].
  intro E. inversion E; subst p. clear E.
  assert (Hqs : Forall (fun q => (0 <= q)%Q) qs).
  { subst qs. apply Forall_forall. intros q Hq. apply in_map_iff in Hq.
    destruct Hq as (x & <- & Hx).
    assert (Hl : lt0 x = false).
    { destruct (lt0 x) eqn:El; [|reflexivity].
      assert (existsb lt0 ws = true) by (apply existsb_exists; eauto). congruence. }
    destruct x; simpl in *; try lra.
    apply negb_false_iff, Qle_bool_true in Hl. exact Hl. }
  assert (Htot : (0 < Qsum qs)%Q).
  { pose proof (Qsum_nonneg qs Hqs) as Hge.
    unfold Qis_zero in Ez.
    destruct (Qlt_le_dec 0 (Qsum qs)) as [Hlt|Hle]; [exact Hlt|].
    assert (Heq : (Qsum qs == 0)%Q) by lra.
    apply Qeq_bool_iff in Heq. congruence. }
  split.
  - apply Forall_forall. intros q Hq. apply in_map_iff in Hq.
    destruct Hq as (x & <- & Hx). rewrite Forall_forall in Hqs.
    apply Qle_shift_div_l; [exact Htot|]. specialize (Hqs x Hx). lra.
  - exists (Qsum qs). split; [exact Htot|]. subst qs. now rewrite map_map.
Qed.

(** X7.  With a generator whose draws are not negative, only individuals
    whose sampling weight is a strictly positive number are ever drawn: a
    zero or missing weight receives no synthetic crime. *)
Theorem sample_draws_positive_weights `{RandomSource} (n_samples_div : Q)
    (g : list weighted_row) (w w' : world) (items : list (Z * Z)) :
  (forall s, (0 <= fst (random_sample s))%Q) ->
  _sample n_samples_div g w = (Ok (Some items), w') ->
  Forall (fun it =>
            exists r q, In r g /\ uid (w_row r) = fst it
                        /\ crime_weight r = FNum q /\ (0 < q)%Q)
         items.
Proof.
  intros Hu Hs.
  destruct (sample_some_inv _ _ _ _ _ Hs) as (n & p & us & samples & _ & Hp & Hr & Ht & ->).
  destruct (repeatM_draw_state (fun u => (0 <= u)%Q) _ Hu _ _ _ Hr) as (_ & _ & Hus).
  destruct (preprocess_weights_ok _ _ Hp) as (Hpos & total & Htot & Ep).
  destruct (Counter_keys samples) as [_ Hkeys].
  apply take_In in Ht.
  apply Forall_forall. intros it Hit.
  assert (Hin : In (fst it) samples) by (apply Hkeys; now apply in_map).
  destruct (Forall2_In_r _ _ _ _ Ht Hin) as (i & Hi & Hnth).
  apply in_map_iff in Hi. destruct Hi as (u & <- & Hu_in).
  rewrite Forall_forall in Hus. specialize (Hus u Hu_in).
  rewrite nth_error_map in Hnth.
  destruct (nth_error g (searchsorted_right (cumsum 0 p) u)) as [r|] eqn:Eg;
    [|discriminate].
  simpl in Hnth. inversion Hnth as [Euid].
  assert (Hx : nth_error p (searchsorted_right (cumsum 0 p) u)
               = Some (finite_or_zero (crime_weight r) / total)%Q).
  { rewrite Ep at 1. rewrite map_map, nth_error_map, Eg. reflexivity. }
  pose proof (searchsorted_positive p Hpos 0 u _ Hus Hx) as Hgt.
  assert (Hq : (0 < finite_or_zero (crime_weight r))%Q).
  { destruct (Qlt_le_dec 0 (finite_or_zero (crime_weight r))) as [A|A]; [exact A|].
    exfalso. apply (Qlt_not_le _ _ Hgt).
    apply Qle_shift_div_r; [exact Htot|]. lra. }
  exists r. destruct (crime_weight r) as [q| |] eqn:Ew; simpl in Hq.
  - exists q. repeat split; auto. eapply nth_error_In; eauto.
  - exfalso. lra.
  - exfalso. lra.
Qed.

(** X7 on a group of two individuals with weights 13.5 and 3.5. *)
Lemma sample_draws_positive_weights_witness :
  Forall (fun it =>
            exists r q, In r Demo.group_7 /\ uid (w_row r) = fst it
                        /\ crime_weight r = FNum q /\ (0 < q)%Q)
         (match fst (@_sample Demo.lcg 1 Demo.group_7 Demo.world0) with
          | Ok (Some items) => items
          | _ => []
          end).
Proof.
  apply (@sample_draws_positive_weights Demo.lcg 1 Demo.group_7 Demo.world0
           (snd (@_sample Demo.lcg 1 Demo.group_7 Demo.world0))).
  - intro s. simpl. unfold Qle. simpl.
    pose proof (Z.mod_pos_bound s 1009 ltac:(lia)). lia.
  - vm_compute. reflexivity.
Defined.

(** ** The weighted sampler: a group that needs tokens gets them *)









(** ** Conservation, group by group *)






(** The hypothesis on the cohort cannot be dropped.  With the same
    individual twice in one group, the one sample row of the individual
    is joined onto both rows: the target is 10, and the assigned counts
    add up to 20. *)
Lemma repeated_individual_counts_twice :
  let df := [Demo.person 1 "assault" 10; Demo.person 1 "assault" 0] in
  exists out w',
    Demo.add_unobserved df Demo.ncvs_table = (Ok out, w')
    /\ List.length out = List.length df
    /\ map (fun r => w_unobserved_crimes (x_row r)) out = [Some 10; Some 10]
    /\ sumZ (map offense_unobserved out) = 20.
Proof.
  intro df.
  exists (Demo.rows_of (Demo.add_unobserved df Demo.ncvs_table)),
         (snd (Demo.add_unobserved df Demo.ncvs_table)).
  repeat split; vm_compute; reflexivity.
Qed.

(** ** Groups without tokens *)

(** A step that returns no assignments has drawn nothing, and returns the
    same from every state of the generator. *)
Lemma sample_none_anywhere `{RandomSource} (n_samples_div : Q)
    (g : list weighted_row) (w w' : world) :
  _sample n_samples_div g w = (Ok None, w') ->
  w' = w /\ forall w2, _sample n_samples_div g w2 = (Ok None, w2).
Proof.
  unfold _sample. cbv zeta.
  destruct (nunique _ >? 1); [discriminate|].
  munfold. cbv beta.
  destruct (py_int _) as [n| |]; try discriminate.
  destruct (le0 _ || (n <? 1)).
  - intro E. inversion E; subst. auto.
  - destruct (preprocess_weights _) as [p| |]; try discriminate.
    destruct (choice _ _ _) as [[locs| |] w1]; try discriminate.
    destruct (take _ _); discriminate.
Qed.

Lemma sample_never_attribute_error `{RandomSource} (n_samples_div : Q)
    (g : list weighted_row) (w w' : world) :
  _sample n_samples_div g w <> (Raise AttributeError_to_frame, w').
Proof.
  intro E. pose proof (sample_outcome n_samples_div g w) as [_ Ho].
  rewrite E in Ho. cbn [fst] in Ho. unfold sample_exn in Ho.
  destruct Ho as [[_ Hc] | [_ [Hc | [Hc | [Hc | Hc]]]]]; discriminate Hc.
Qed.

Section Applied.
Context `{RandomSource}.
Variables (df : list weighted_row) (groups : list string) (n_samples_div : Q).

Local Abbreviation step :=
  (fun k => s <- _sample n_samples_div (group (w_key groups) k df) ;;
            ret (k, s))%m.

Lemma applied_without_tokens (keys : list key) (w : world) :
  (forall k, In k keys ->
             _sample n_samples_div (group (w_key groups) k df) w = (Ok None, w)) ->
  mapM step keys w = (Ok (map (fun k => (k, None)) keys), w).
Proof.
  induction keys as [|k keys IH]; intro Hall; [reflexivity|].
  cbn [mapM map]. unfold bind at 1 2.
  rewrite (Hall k (or_introl eq_refl)). unfold ret at 1. unfold bind at 1.
  rewrite IH by (intros; apply Hall; now right).
  reflexivity.
Qed.

Lemma applied_all_none (keys : list key) :
  forall w applied w',
    mapM step keys w = (Ok applied, w') ->
    forallb without_samples applied = true ->
    w' = w
    /\ forall k, In k keys ->
         _sample n_samples_div (group (w_key groups) k df) w = (Ok None, w).
Proof.
  induction keys as [|k keys IH]; simpl; intros w applied w' Hm Hf; munfold.
  - inversion Hm; subst. split; [reflexivity|contradiction].
  - destruct (_sample n_samples_div (group (w_key groups) k df) w)
      as [[o| |] w1] eqn:Es; try discriminate.
    destruct (mapM _ keys w1) as [[rest| |] w2] eqn:Er; try discriminate.
    inversion Hm; subst applied w2. simpl in Hf.
    apply andb_true_iff in Hf. destruct Hf as [Ho Hrest].
    destruct o as [items|]; [discriminate|].
    destruct (sample_none_anywhere _ _ _ _ Es) as [-> Hany].
    destruct (IH _ _ _ Er Hrest) as [-> Hall].
    split; [reflexivity|].
    intros k' [<- | Hin]; [exact Es|now apply Hall].
Qed.

Lemma applied_never_attribute_error (keys : list key) :
  forall w w', mapM step keys w <> (Raise AttributeError_to_frame, w').
Proof.
  induction keys as [|k keys IH]; simpl; intros w w' Hm; munfold;
    [discriminate|].
  destruct (_sample n_samples_div (group (w_key groups) k df) w)
    as [[o| |] w1] eqn:Es.
  - destruct (mapM _ keys w1) as [[rest| |] w2] eqn:Er; try discriminate.
    inversion Hm; subst. exact (IH _ _ Er).
  - inversion Hm; subst. exact (sample_never_attribute_error _ _ _ _ Es).
  - discriminate.
Qed.
End Applied.

(** X26.  Line 136 needs a group with tokens: [_sample_unobserved] ends
    in the [AttributeError] of line 136 exactly when the step of every
    group returns no assignments, and in particular on a frame without
    rows; the generator is then as it was found. *)
Theorem sampler_needs_a_token `{RandomSource} (df : list weighted_row)
    (groups : list string) (n_samples_div : Q) (w w' : world) :
  _sample_unobserved df groups n_samples_div w
  = (Raise AttributeError_to_frame, w')
  <-> w' = w
      /\ forall k, In k (group_keys (w_key groups) df) ->
            _sample n_samples_div (group (w_key groups) k df) w = (Ok None, w).
Proof.
  unfold _sample_unobserved. unfold bind at 1. split.
  - destruct (mapM _ _ w) as [[applied| |] w1] eqn:Em.
    + destruct (forallb without_samples applied) eqn:Ef;
        [|unfold ret; discriminate].
      intro E. inversion E; subst w1.
      exact (applied_all_none _ _ _ _ _ _ _ Em Ef).
    + intro E. inversion E; subst.
      exfalso. exact (applied_never_attribute_error _ _ _ _ _ _ Em).
    + discriminate.
  - intros [-> Hall]. rewrite (applied_without_tokens _ _ _ _ _ Hall).
    assert (Ef : forallb without_samples
                   (map (fun k : key => (k, @None (list (Z * Z))))
                        (group_keys (w_key groups) df)) = true).
    { clear. induction (group_keys (w_key groups) df) as [|k keys IH];
        [reflexivity|exact IH]. }
    rewrite Ef. reflexivity.
Qed.

(** C9 (code at the failing input).  One group of two individuals with
    observed counts 10 and 0, arrest rate 1/2 and rate column 1/4: the
    residual of the group, the only one of the frame, is -5, the step of
    the group returns no assignments, and [_add_unobserved] does not
    return the rows with a synthetic count of zero: it ends in the
    [AttributeError] of line 136. *)
Theorem nonpositive_residual_raises :
  let crimes := [Demo.rate "assault" (FNum (1 # 2)) (FNum (1 # 4))] in
  (exists counted,
     _count_unobserved (offenses_frame Demo.cohort Demo.group_all crimes)
                       None "arrest_rate_smooth" "lambda" = Ok counted
     /\ map unobserved_crimes counted = [-5]
     /\ group (w_key Demo.group_all) Demo.assault_key
               (weighted_frame Demo.cohort Demo.group_all 1 counted)
        = Demo.group_neg)
  /\ @_sample Demo.lcg 1 Demo.group_neg Demo.world0 = (Ok None, Demo.world0)
  /\ Demo.add_unobserved Demo.cohort crimes
     = (Raise AttributeError_to_frame, Demo.world0).
Proof.
  intro crimes. split; [|split].
  - eexists. split; [vm_compute; reflexivity|].
    split; vm_compute; reflexivity.
  - vm_compute. reflexivity.
  - vm_compute. reflexivity.
Qed.

(** X25.  Where [_add_unobserved] returns, with a positive
    [n_samples_div] and a rate table of one row per key: every row of the
    cohort is in the frame, in its place, and every row of a group whose
    [unobserved_crimes] is zero or negative has an assigned count of zero
    and a total equal to its observed count. *)
Theorem nonpositive_group_is_untouched `{RandomSource} (df : list long_row)
    (group_all : list string) (crimes : list rate_row) (lam : option Q)
    (omega n_samples_div : Q) (lambda_col arrest_col : string)
    (w w' : world) (out : list out_row) :
  (0 < n_samples_div)%Q ->
  NoDup (map r_key crimes) ->
  _add_unobserved df group_all crimes lam omega n_samples_div lambda_col
                  arrest_col w = (Ok out, w') ->
  map x_long out = df
  /\ forall r u,
       In r out ->
       w_unobserved_crimes (x_row r) = Some u -> u <= 0 ->
       offense_unobserved r = 0
       /\ offense_total r = offense_count (x_long r).
Proof.
  intros Hd Hcrimes Hok.
  split; [exact (add_unobserved_rows _ _ _ _ _ _ _ _ _ _ _ Hcrimes Hok)|].
  intros r u Hin Hr Hu.
  assert (Hnz : ~ (n_samples_div == 0)%Q).
  { intro E. apply (Qlt_not_eq _ _ Hd). now symmetry. }
  pose proof (Qtrunc_nonpositive _ (Qdiv_nonpositive u n_samples_div Hu Hd)) as Hn.
  destruct (add_unobserved_ok _ _ _ _ _ _ _ _ _ _ _ Hok)
    as (counted & samples & _ & Hs & ->).
  apply assigned_frame_In in Hin. destruct Hin as (Hrw & Htot & Hcase).
  assert (H0 : offense_unobserved r = 0).
  { destruct Hcase as [H0 | (s & Hsin & Hk & _ & _)]; [exact H0|].
    exfalso.
    destruct (sample_unobserved_rows _ _ _ _ _ _ s Hs Hsin)
      as (items & w1 & w2 & _ & Hsample & _).
    assert (Hg : In (x_row r)
                    (group (w_key group_all) (s_key s)
                           (weighted_frame df group_all omega counted))).
    { apply group_In. split; [exact Hrw | now symmetry]. }
    destruct (sample_tokens_of _ _ _ _ _ _ u Hnz Hsample Hg Hr) as [H1 _].
    lia. }
  split; [exact H0|]. rewrite Htot, H0. lia.
Qed.

(** X25 on the cohort of two groups: the burglary group has a residual of
    -5 and keeps its observed counts, while the assault group receives its
    ten tokens. *)
Lemma nonpositive_group_is_untouched_witness :
  let out := Demo.rows_of (Demo.add_unobserved Demo.cohort_mixed Demo.mixed_table) in
  map x_long out = Demo.cohort_mixed
  /\ forall r u,
       In r out ->
       w_unobserved_crimes (x_row r) = Some u -> u <= 0 ->
       offense_unobserved r = 0
       /\ offense_total r = offense_count (x_long r).
Proof.
  intro out.
  apply (@nonpositive_group_is_untouched Demo.lcg Demo.cohort_mixed
           Demo.group_all Demo.mixed_table None 1 1 "lambda"
           "arrest_rate_smooth" Demo.world0
           (snd (Demo.add_unobserved Demo.cohort_mixed Demo.mixed_table)) out).
  - reflexivity.
  - repeat constructor; simpl; intuition congruence.
  - vm_compute. reflexivity.
Defined.

(** ** The rolling driver *)

Lemma range_In (lo hi e : Z) : In e (range lo hi) <-> lo <= e < hi.
Proof.
  unfold range. rewrite in_map_iff. split.
  - intros (i & <- & Hi). apply in_seq in Hi. lia.
  - intro He. exists (Z.to_nat (e - lo)). split; [lia|]. apply in_seq. lia.
Qed.

Lemma range_shift (lo hi d : Z) :
  map (fun e => e - d) (range (lo + d) (hi + d)) = range lo hi.
Proof.
  unfold range. rewrite map_map.
  replace (hi + d - (lo + d)) with (hi - lo) by lia.
  apply map_ext. intro i. lia.
Qed.

Lemma map_snd_enumerate {A} (l : list A) : map snd (enumerate l) = l.
Proof.
  unfold enumerate. generalize 0%nat.
  induction l as [|a l IH]; intro n; simpl; [reflexivity|]. now rewrite IH.
Qed.

Lemma enumerate_In {A} (l : list A) (iw : nat * A) :
  In iw (enumerate l) -> In (snd iw) l.
Proof.
  intro Hin. rewrite <- (map_snd_enumerate l). now apply in_map.
Qed.

Lemma mapM_reads `{RandomSource} {A B} (f : A -> M B) (ev : A -> list read_event)
    (l : list A) :
  (forall a, In a l -> forall w, reads (snd (f a w)) = reads w ++ ev a) ->
  forall w bs w',
    mapM f l w = (Ok bs, w') ->
    reads w' = reads w ++ flat_map ev l /\ List.length bs = List.length l.
Proof.
  induction l as [|a l IH]; simpl; intros Hf w bs w' Hm; munfold.
  - inversion Hm; subst. rewrite app_nil_r. auto.
  - pose proof (Hf a (or_introl eq_refl) w) as Ha.
    destruct (f a w) as [[b| |] w1]; try discriminate. simpl in Ha.
    destruct (mapM f l w1) as [[bs1| |] w2] eqn:El; try discriminate.
    inversion Hm; subst.
    destruct (IH (fun x Hx => Hf x (or_intror Hx)) _ _ _ El) as [Hr Hl].
    rewrite Hr, Ha, <- app_assoc. simpl. auto.
Qed.

Lemma mapM_raises_in `{RandomSource} {A B} (P : exn -> Prop) (f : A -> M B)
    (l : list A) :
  (forall a, In a l -> forall w e, fst (f a w) = Raise e -> P e) ->
  forall w e, fst (mapM f l w) = Raise e -> P e.
Proof.
  induction l as [|a l IH]; simpl; intros Hf w e; munfold; [discriminate|].
  pose proof (Hf a (or_introl eq_refl) w) as Ha.
  destruct (f a w) as [[b|ea|] w1]; simpl in *.
  - pose proof (IH (fun x Hx => Hf x (or_intror Hx)) w1) as Hl.
    destruct (mapM f l w1) as [[bs|el|] w2]; simpl in *; try discriminate.
    intro E. inversion E; subst. now apply Hl.
  - intro E. inversion E; subst. now apply Ha.
  - discriminate.
Qed.

Section Driver.
Context `{RandomSource} `{Environment}.
Variables (start_year end_year window : Z) (lam : option Q) (omega : Q)
          (arrest_col smoothing : string)
          (rate_mult_ncvs rate_mult_nsduh : option (list (string * Q))).

Local Abbreviation one_window :=
  (_window start_year end_year window lam omega arrest_col
     smoothing rate_mult_ncvs rate_mult_nsduh).
Local Abbreviation all_windows :=
  (rolling_windows start_year end_year window lam omega arrest_col
     smoothing rate_mult_ncvs rate_mult_nsduh).

(** A window whose year is accepted reads the three providers for that
    year, whatever happens next, and raises only the exceptions of the
    melt, of the imputation and of the size check. *)
Lemma accepted_recombined (window_end : Z) (n_samples_div : Q) (w : world) :
  start_year <= window_end - window <= end_year ->
  reads (snd (window_recombined start_year end_year window lam omega arrest_col
                smoothing rate_mult_ncvs rate_mult_nsduh window_end
                n_samples_div w))
  = reads w ++ window_reads (window_end - window)
  /\ forall e,
       fst (window_recombined start_year end_year window lam omega arrest_col
              smoothing rate_mult_ncvs rate_mult_nsduh window_end
              n_samples_div w) = Raise e ->
       window_exn e.
Proof.
  intro Hin.
  destruct (window_recombined _ _ _ _ _ _ _ _ _ _ _ w) as [r w'] eqn:Er.
  cbn [fst snd]. unfold window_recombined in Er.
  assert (E : (start_year <=? window_end - window)
              && (window_end - window <=? end_year) = true).
  { apply andb_true_iff. split; apply Z.leb_le; lia. }
  rewrite E in Er. cbv [negb] in Er.
  unfold bind at 1 2 3, log_read in Er. cbv beta iota in Er.
  set (w1 := mkWorld _ _ _) in Er.
  assert (Hw1 : reads w1 = reads w ++ window_reads (window_end - window)).
  { subst w1. simpl. rewrite <- !app_assoc. reflexivity. }
  clearbody w1. rewrite <- Hw1. clear Hw1.
  unfold bind at 1, lift at 1 in Er.
  destruct (melt CRIMES _) as [df|e0|] eqn:Em; cbv beta iota in Er.
  - unfold bind at 1 in Er.
    match type of Er with
    | context [_add_unobserved ?d ?g ?c lam omega n_samples_div ?lc arrest_col w1] =>
        pose proof (quiet_add_unobserved d g c lam omega n_samples_div lc arrest_col w1)
          as [Hra Ha];
        pose proof (add_unobserved_assign_check d g c lam omega n_samples_div lc
                                                arrest_col w1) as Hna;
        destruct (_add_unobserved d g c lam omega n_samples_div lc arrest_col w1)
          as [[a|ea|] w2]
    end; cbn [fst snd] in *.
    + unfold bind at 1 in Er.
      match type of Er with
      | context [_add_unobserved ?d ?g ?c lam omega n_samples_div ?lc arrest_col w2] =>
          pose proof (quiet_add_unobserved d g c lam omega n_samples_div lc arrest_col w2)
            as [Hrb Hb];
          pose proof (add_unobserved_assign_check d g c lam omega n_samples_div lc
                                                  arrest_col w2) as Hnb;
          destruct (_add_unobserved d g c lam omega n_samples_div lc arrest_col w2)
            as [[b|eb|] w3]
      end; cbn [fst snd] in *; unfold ret in Er; inversion Er; subst r w'.
      * split; [congruence|]. intros e Ee. discriminate Ee.
      * split; [congruence|]. intros e Ee. inversion Ee; subst.
        specialize (Hb _ eq_refl). destruct e; simpl in *; tauto.
      * split; [congruence|]. intros e Ee. discriminate Ee.
    + inversion Er; subst r w'.
      split; [congruence|]. intros e Ee. inversion Ee; subst.
      specialize (Ha _ eq_refl). destruct e; simpl in *; tauto.
    + inversion Er; subst r w'.
      split; [congruence|]. intros e Ee. discriminate Ee.
  - inversion Er; subst r w'. split; [reflexivity|].
    intros e Ee. inversion Ee; subst.
    apply melt_raises in Em. destruct Em as [c ->]. exact I.
  - inversion Er; subst r w'. split; [reflexivity|]. intros e Ee. discriminate Ee.
Qed.

Lemma accepted_window (window_end : Z) (n_samples_div : Q) (w : world) :
  start_year <= window_end - window <= end_year ->
  reads (snd (one_window window_end n_samples_div w))
  = reads w ++ window_reads (window_end - window)
  /\ forall e, fst (one_window window_end n_samples_div w) = Raise e ->
               window_exn e.
Proof.
  intro Hin. unfold _window, bind.
  destruct (accepted_recombined window_end n_samples_div w Hin) as [Hr He].
  destruct (window_recombined _ _ _ _ _ _ _ _ _ _ _ w) as [[[n df]|e0|] w1];
    cbn [fst snd] in *.
  - destruct (negb _); cbn [fst snd]; (split; [exact Hr|]);
      intros e Ee; inversion Ee; exact I.
  - split; [exact Hr|]. intros e Ee. inversion Ee; subst. now apply He.
  - split; [exact Hr|]. intros e Ee. discriminate Ee.
Qed.

Lemma driver_years (iw : nat * Z) :
  0 <= window ->
  In iw (enumerate (range (start_year + window) (end_year + 1))) ->
  start_year <= snd iw - window <= end_year.
Proof.
  intros Hw Hin. apply enumerate_In, range_In in Hin. lia.
Qed.

(** X8.  With a window of at least zero years the driver only asks for
    windows it accepts: whatever ends a run, it is never the usage error
    of the window, and never 'Failed to assign unobserved offenses'. *)
Theorem driver_never_rejects_its_windows (seed : Z) (e : exn) :
  0 <= window ->
  rolling_crime_assignment start_year end_year window seed lam omega
    arrest_col smoothing rate_mult_ncvs rate_mult_nsduh = Raise e ->
  (forall year lo hi, e <> ValueError_window year lo hi)
  /\ e <> RuntimeError_assign.
Proof.
  intros Hw.
  destruct (Z_le_dec 0 seed) as [Hlo|Hlo];
    [destruct (Z_lt_dec seed (2 ^ 32)) as [Hhi|Hhi]|].
  - rewrite rolling_windows_from_seed by lia.
    set (w0 := mkWorld _ (RandomState seed) []).
    pose proof (mapM_raises_in window_exn
                  (fun iw => one_window (snd iw)
                               (if Nat.eqb (fst iw) 0 then 1%Q
                                else inject_Z (window + 1)))
                  (enumerate (range (start_year + window) (end_year + 1)))) as Hm.
    unfold rolling_windows, _window_sampler.
    destruct (fst (mapM _ _ w0)) as [[|s l]|e0|] eqn:Er.
    + intro E. inversion E. split; [intros; discriminate|discriminate].
    + discriminate.
    + intro E. inversion E; subst e0.
      assert (He : window_exn e).
      { apply (Hm (fun iw Hin w1 e1 =>
                     proj2 (accepted_window (snd iw) _ w1
                              (driver_years iw Hw Hin)) e1)
                  w0 e Er). }
      destruct e; simpl in He; try contradiction;
        (split; [intros; discriminate|discriminate]).
    + discriminate.
  - rewrite rolling_refuses_seed by lia.
    intro E. inversion E. split; [intros; discriminate|discriminate].
  - rewrite rolling_refuses_seed by lia.
    intro E. inversion E. split; [intros; discriminate|discriminate].
Qed.

(** X9.  A run of the windows that succeeds has read each provider exactly
    once per window, for the years [start_year], ..., [end_year - window]
    in this order, and returns one frame per window. *)
Theorem driver_reads_each_year_once (w w' : world)
    (samples : list (list pivot_row)) :
  0 <= window ->
  all_windows w = (Ok samples, w') ->
  reads w' = reads w ++ flat_map window_reads
                          (range start_year (end_year - window + 1))
  /\ List.length samples
     = List.length (range start_year (end_year - window + 1)).
Proof.
  intros Hw Hok. unfold rolling_windows, _window_sampler in Hok.
  destruct (mapM_reads _ (fun iw => window_reads (snd iw - window)) _
              (fun iw Hin w1 =>
                 proj1 (accepted_window (snd iw) _ w1 (driver_years iw Hw Hin)))
              _ _ _ Hok) as [Hr Hl].
  assert (Hyears : map (fun iw : nat * Z => snd iw - window)
                       (enumerate (range (start_year + window) (end_year + 1)))
                   = range start_year (end_year - window + 1)).
  { rewrite <- (map_map snd (fun e => e - window)), map_snd_enumerate.
    replace (end_year + 1) with (end_year - window + 1 + window) by lia.
    apply range_shift. }
  split.
  - rewrite Hr. f_equal. rewrite <- Hyears.
    rewrite !flat_map_concat_map, map_map. reflexivity.
  - rewrite Hl, <- Hyears, length_map. reflexivity.
Qed.

(** X10.  When [end_year] lies before [start_year + window] there is no
    window to compute: no year is asked of a provider and nothing is
    drawn, and the run ends in an error, never in an empty frame: the
    error of the empty concatenation for a seed the generator takes, the
    error of the generator for a seed outside 0 .. 2**32 - 1. *)
Theorem driver_without_windows (seed : Z) :
  end_year < start_year + window ->
  (forall w, all_windows w = (Ok [], w))
  /\ rolling_crime_assignment start_year end_year window seed lam omega
       arrest_col smoothing rate_mult_ncvs rate_mult_nsduh
     = Raise (if (0 <=? seed) && (seed <? 2 ^ 32)
              then ValueError_no_objects else ValueError_seed).
Proof.
  intros Hlt.
  assert (E : range (start_year + window) (end_year + 1) = []).
  { unfold range. replace (Z.to_nat _) with 0%nat by lia. reflexivity. }
  split.
  - intro w. unfold rolling_windows. rewrite E. reflexivity.
  - unfold rolling_crime_assignment, rolling_windows. rewrite E.
    destruct ((0 <=? seed) && (seed <? 2 ^ 32)); reflexivity.
Qed.
End Driver.

(** X8 on a run that fails: a rate table that lists a group twice ends the
    run in the size error. *)
Lemma driver_never_rejects_its_windows_witness :
  (forall year lo hi, RuntimeError_size <> ValueError_window year lo hi)
  /\ RuntimeError_size <> RuntimeError_assign.
Proof.
  apply (@driver_never_rejects_its_windows Demo.lcg
           (Demo.env Demo.ncvs_table_dup Demo.nsduh_table)
           2000 2005 3 (Some 1%Q) 1 "arrest_rate_smooth" "lr_pr" None None 0).
  - lia.
  - vm_compute. reflexivity.
Defined.

(** X9 on the run 2000..2005 with a window of 3 years and [lam = 1]: the
    years 2000, 2001 and 2002. *)
Lemma driver_reads_each_year_once_witness :
  let run :=
    @rolling_windows Demo.lcg (Demo.env Demo.ncvs_table Demo.nsduh_table)
      2000 2005 3 (Some 1%Q) 1 "arrest_rate_smooth" "lr_pr" None None
      Demo.world0 in
  @reads Demo.lcg (snd run)
  = @reads Demo.lcg Demo.world0
    ++ flat_map window_reads (range 2000 (2005 - 3 + 1))
  /\ List.length (match fst run with Ok s => s | _ => [] end)
     = List.length (range 2000 (2005 - 3 + 1)).
Proof.
  intro run.
  apply (@driver_reads_each_year_once Demo.lcg
           (Demo.env Demo.ncvs_table Demo.nsduh_table)
           2000 2005 3 (Some 1%Q) 1 "arrest_rate_smooth" "lr_pr" None None
           Demo.world0).
  - lia.
  - vm_compute. reflexivity.
Defined.

(** X10 on the years 2000..2001 with a window of 3 years and seed 0. *)
Lemma driver_without_windows_witness :
  (forall w,
     @rolling_windows Demo.lcg (Demo.env Demo.ncvs_table Demo.nsduh_table)
       2000 2001 3 None 1 "arrest_rate_smooth" "lr_pr" None None w
     = (Ok [], w))
  /\ @rolling_crime_assignment Demo.lcg (Demo.env Demo.ncvs_table Demo.nsduh_table)
       2000 2001 3 0 None 1 "arrest_rate_smooth" "lr_pr" None None
     = Raise ValueError_no_objects.
Proof.
  apply (@driver_without_windows Demo.lcg (Demo.env Demo.ncvs_table Demo.nsduh_table)
           2000 2001 3 None 1 "arrest_rate_smooth" "lr_pr" None None 0).
  lia.
Defined.

(** ** Age re-derivation, continued *)

Lemma filter_map_filter {A B} (f : A -> B) (p : A -> bool) (q : B -> bool)
    (l : list A) :
  filter q (map f (filter p l)) = map f (filter (fun a => p a && q (f a)) l).
Proof.
  induction l as [|a l IH]; simpl; [reflexivity|].
  destruct (p a); simpl; [|exact IH].
  destruct (q (f a)); simpl; now rewrite IH.
Qed.

Lemma filter_none_exists {A} (p : A -> bool) (l : list A) :
  filter p l = [] -> existsb p l = false.
Proof.
  induction l as [|a l IH]; simpl; [reflexivity|].
  destruct (p a); [discriminate|exact IH].
Qed.

Lemma filter_some_exists {A} (p : A -> bool) (l : list A) :
  filter p l <> [] -> existsb p l = true.
Proof.
  induction l as [|a l IH]; simpl; [contradiction|].
  destruct (p a); [reflexivity|exact IH].
Qed.

Lemma filter_none_all {A} (p : A -> bool) (l : list A) :
  filter p l = [] -> forall a, In a l -> p a = false.
Proof.
  intros E a Hin. destruct (p a) eqn:Ep; [|reflexivity].
  assert (Hf : In a (filter p l)) by (apply filter_In; auto).
  rewrite E in Hf. contradiction.
Qed.

(** The label of an age at or below ten years: "< 18" when positive, the
    string of a missing value otherwise. *)
Lemma cut_age_child (age : Q) :
  (age <= 10)%Q ->
  cut_age age = if Qle_bool age 0 then "nan"%string else "< 18"%string.
Proof.
  intro H10. unfold cut_age, Qltb.
  assert (E17 : Qle_bool age 17 = true) by (apply Qle_bool_true; lra).
  assert (E29 : Qle_bool age 29 = true) by (apply Qle_bool_true; lra).
  rewrite E17, E29. simpl.
  destruct (Qle_bool age 0); reflexivity.
Qed.

(** X11.  What [_add_age] returns, in one equation.  When some individual
    is older than ten years, it keeps, in their order, exactly the rows
    whose age is above 17 years and gives each the bucket of its age: the
    filter [age > 10] then removes nothing that the last filter would
    keep.  When nobody is older than ten years, the filter [age > 10]
    empties the frame, the assignment of the labels restores every row
    with missing values, and the rows that come back are those of the
    individuals born on or after January 1st of [end_year], with nothing
    but the label "nan". *)
Theorem add_age_is_one_filter (df : list summed_row) (end_year : Z) :
  _add_age df end_year
  = if existsb (fun r => Qltb 10 (age_years end_year (f_dob r))) df
    then map (fun r => mkFinal r (cut_age (age_years end_year (f_dob r))))
             (filter (fun r => Qltb 17 (age_years end_year (f_dob r))) df)
    else map (fun _ => nan_row "nan")
             (filter (fun r => Qle_bool (age_years end_year (f_dob r)) 0) df).
Proof.
  destruct (filter (fun r => Qltb 10 (age_years end_year (f_dob r))) df)
    as [|k kept] eqn:Ek.
  - rewrite (filter_none_exists _ _ Ek), (add_age_reindexed _ _ Ek).
    pose proof (filter_none_all _ _ Ek) as Hall. clear Ek.
    induction df as [|r df IH]; [reflexivity|].
    assert (H10 : (age_years end_year (f_dob r) <= 10)%Q).
    { apply Qltb_false. apply Hall. now left. }
    cbn [map filter age_cat]. rewrite (cut_age_child _ H10).
    destruct (Qle_bool (age_years end_year (f_dob r)) 0); cbn [String.eqb negb map].
    + simpl. f_equal. apply IH. intros a Ha. apply Hall. now right.
    + simpl. apply IH. intros a Ha. apply Hall. now right.
  - rewrite filter_some_exists by (rewrite Ek; discriminate).
    rewrite add_age_regular by (rewrite Ek; discriminate).
    rewrite filter_map_filter. f_equal.
    apply filter_ext. intro r. cbn [age_cat].
    set (age := age_years end_year (f_dob r)).
    destruct (Qltb 17 age) eqn:E17.
    + apply Qltb_true in E17.
      assert (E10 : Qltb 10 age = true) by (apply Qltb_true; lra).
      rewrite E10. simpl. apply negb_true_iff.
      destruct (String.eqb (cut_age age) "< 18") eqn:Ec; [|reflexivity].
      apply String.eqb_eq, cut_age_under_18 in Ec. lra.
    + apply Qltb_false in E17.
      destruct (Qltb 10 age) eqn:E10; [|reflexivity].
      apply Qltb_true in E10. simpl. apply negb_false_iff, String.eqb_eq.
      apply cut_age_under_18. lra.
Qed.

Lemma cut_age_above_17 (age : Q) :
  (17 < age)%Q ->
  cut_age age
  = if Qle_bool age 29 then "18-29"%string
    else if Qle_bool age 500 then "> 29"%string else "nan"%string.
Proof.
  intro H17. unfold cut_age.
  assert (E1 : Qle_bool age 17 = false) by (apply Qle_bool_false; lra).
  assert (E2 : Qltb 17 age = true) by (apply Qltb_true; lra).
  rewrite E1, E2, andb_false_r. simpl.
  destruct (Qle_bool age 29) eqn:E29; [reflexivity|].
  apply Qle_bool_false in E29.
  assert (E3 : Qltb 29 age = true) by (apply Qltb_true; lra).
  rewrite E3. simpl. reflexivity.
Qed.

(** X12.  The rows [_add_age] returns and their labels.  A row that keeps
    its data is a row of the input older than 17 years, labelled "18-29"
    up to 29 years and "> 29" above 29 and up to 500 years.  A row without
    data carries the label "nan" and comes back only when no individual of
    the input is older than ten years.  The label "< 18" never
    appears. *)
Theorem add_age_labels (df : list summed_row) (end_year : Z) (r : final_row) :
  In r (_add_age df end_year) ->
  match r with
  | mkFinal s label =>
      let age := age_years end_year (f_dob s) in
      In s df
      /\ (17 < age)%Q
      /\ ((age <= 29)%Q -> label = "18-29"%string)
      /\ ((29 < age <= 500)%Q -> label = "> 29"%string)
  | nan_row label =>
      label = "nan"%string
      /\ forall s, In s df -> (age_years end_year (f_dob s) <= 10)%Q
  end
  /\ age_cat r <> "< 18"%string.
Proof.
  intros Hin. destruct r as [s label|label].
  - apply add_age_keeps in Hin. destruct Hin as (Hs & H17 & ->).
    cbn [age_cat]. rewrite (cut_age_above_17 _ H17).
    repeat split; try assumption.
    + intro H. apply Qle_bool_true in H. now rewrite H.
    + intros [Hlo Hhi]. apply Qle_bool_false in Hlo. apply Qle_bool_true in Hhi.
      now rewrite Hlo, Hhi.
    + destruct (Qle_bool _ 29); [discriminate|].
      destruct (Qle_bool _ 500); discriminate.
  - cbn [age_cat].
    destruct (filter (fun x => Qltb 10 (age_years end_year (f_dob x))) df)
      as [|k kept] eqn:Ek.
    + rewrite (add_age_reindexed _ _ Ek) in Hin.
      apply filter_In in Hin. destruct Hin as [Hin Hkeep].
      apply in_map_iff in Hin. destruct Hin as (x & Ex & Hx).
      injection Ex as <-. cbn [age_cat] in Hkeep.
      pose proof (filter_none_all _ _ Ek) as Hall.
      assert (H10 : (age_years end_year (f_dob x) <= 10)%Q)
        by (apply Qltb_false; now apply Hall).
      rewrite (cut_age_child _ H10) in Hkeep |- *.
      destruct (Qle_bool (age_years end_year (f_dob x)) 0);
        [|discriminate Hkeep].
      split; [|discriminate]. split; [reflexivity|].
      intros s Hs. apply Qltb_false. now apply Hall.
    + rewrite add_age_regular in Hin by (rewrite Ek; discriminate).
      apply filter_In in Hin. destruct Hin as [Hin _].
      apply in_map_iff in Hin. destruct Hin as (x & Ex & _). discriminate Ex.
Qed.

(** X12 on an individual born on 1980-03-14, 31 years old in 2012. *)
Lemma add_age_labels_witness :
  let s := Demo.summed 1 (mkDate 1980 3 14) in
  let age := age_years 2012 (f_dob s) in
  (In s [s]
   /\ (17 < age)%Q
   /\ ((age <= 29)%Q -> "> 29"%string = "18-29"%string)
   /\ ((29 < age <= 500)%Q -> "> 29"%string = "> 29"%string))
  /\ "> 29"%string <> "< 18"%string.
Proof.
  intros s age.
  apply (add_age_labels [s] 2012 (mkFinal s "> 29")).
  vm_compute. left. reflexivity.
Defined.

(** X13.  For every [end_year], an individual born on January 1st exactly
    18 years before it is kept and labelled "18-29". *)
Theorem add_age_keeps_exactly_18 (df : list summed_row) (end_year : Z)
    (r : summed_row) :
  In r df ->
  f_dob r = mkDate (end_year - 18) 1 1 ->
  In (mkFinal r "18-29") (_add_age df end_year).
Proof.
  intros Hin Hdob. apply add_age_keeps.
  pose proof (exactly_18_is_adult end_year) as Hc. rewrite <- Hdob in Hc.
  split; [exact Hin|]. split; [|now rewrite Hc].
  destruct (Qlt_le_dec 17 (age_years end_year (f_dob r))) as [H|H]; [exact H|].
  exfalso.
  assert (Hlabel : cut_age (age_years end_year (f_dob r)) <> "18-29"%string).
  { unfold cut_age.
    assert (E : Qltb 17 (age_years end_year (f_dob r)) = false)
      by (apply Qltb_false; exact H).
    rewrite E. simpl.
    destruct (Qltb 0 _ && Qle_bool _ 17); [discriminate|].
    destruct (Qltb 29 _ && Qle_bool _ 500); discriminate. }
  contradiction.
Qed.

(** X13 on an individual born on 1994-01-01 and [end_year = 2012]. *)
Lemma add_age_keeps_exactly_18_witness :
  In (mkFinal (Demo.summed 1 (mkDate (2012 - 18) 1 1)) "18-29")
     (_add_age [Demo.summed 1 (mkDate (2012 - 18) 1 1)] 2012).
Proof.
  apply add_age_keeps_exactly_18; [now left|reflexivity].
Defined.

(** ** The sign of the residual *)

Lemma wrap64_small (z : Z) : int64_min <= z <= int64_max -> wrap64 z = z.
Proof.
  unfold wrap64, int64_min, int64_max. intro Hz.
  rewrite Z.mod_small; lia.
Qed.

Lemma wrap64_invalid (c : Z) :
  1 <= c <= 2 ^ 53 -> wrap64 (int64_min - c) = 2 ^ 63 - c.
Proof.
  unfold wrap64, int64_min. intro Hc.
  replace (- 2 ^ 63 - c + 2 ^ 63) with (2 ^ 64 - c + (-1) * 2 ^ 64) by lia.
  rewrite Z.mod_add by lia. rewrite Z.mod_small; lia.
Qed.

Lemma fl_not_nan (q : Q) : fl q <> FNaN.
Proof. unfold fl. destruct (Qle_bool _ _); discriminate. Qed.

Lemma fl_zero (q : Q) : (q == 0)%Q -> exists y, fl q = FNum y /\ (y == 0)%Q.
Proof.
  intro E. unfold fl. pose proof (round64_zero q E) as Er.
  assert (Hs : (Qabs (round64 q) < Qpow2 1024)%Q).
  { rewrite (Qabs_wd _ _ Er). reflexivity. }
  apply Qle_bool_false in Hs. rewrite Hs. eauto.
Qed.

Lemma fl_below (q : Q) :
  (Qabs q <= Qpow2 1023)%Q -> fl q = FNum (round64 q).
Proof.
  intro Hq. unfold fl.
  assert (Hs : (Qabs (round64 q) < Qpow2 1024)%Q).
  { pose proof (round64_close q) as Hc.
    assert (Ht : (Qabs (round64 q) <= Qabs q + Qabs (round64 q - q))%Q).
    { assert (E : (round64 q == q + (round64 q - q))%Q) by ring.
      rewrite E at 1. apply Qabs_triangle. }
    assert (K : (Qpow2 1023 + (Qpow2 1023 * Qpow2 (-53) + Qpow2 (-1075))
                 < Qpow2 1024)%Q) by (vm_compute; reflexivity).
    pose proof (Qpow2_pos (-53)). pose proof (Qabs_nonneg q).
    set (A := Qabs q) in *. set (u := Qpow2 (-53)) in *.
    set (M := Qpow2 1023) in *.
    assert (A * u <= M * u)%Q by nra. lra. }
  apply Qle_bool_false in Hs. now rewrite Hs.
Qed.

Lemma Qabs_nonneg_eq (q : Q) : (0 <= q)%Q -> (Qabs q == q)%Q.
Proof. intro H. now apply Qabs_pos. Qed.

Lemma total_above (n t : Z) (e : Q) :
  0 <= n <= 2 ^ 48 -> (inject_Z n <= e)%Q ->
  (Qabs (inject_Z t - e) <= (1 # 2) + (Qabs e + 1) * Qpow2 (-50))%Q ->
  n <= t.
Proof.
  intros [Hn0 Hn] He Hd.
  assert (Hn0' : (0 <= inject_Z n)%Q)
    by (change 0%Q with (inject_Z 0); now rewrite <- Zle_Qle).
  assert (Hn' : (inject_Z n <= inject_Z (2 ^ 48))%Q) by now rewrite <- Zle_Qle.
  rewrite (Qabs_nonneg_eq e) in Hd by lra.
  apply Qabs_Qle_condition in Hd. destruct Hd as [Hlo _].
  assert (K : (inject_Z (2 ^ 48) * Qpow2 (-50) == 1 # 4)%Q) by reflexivity.
  assert (K' : (Qpow2 (-50) < 1 # 8)%Q) by reflexivity.
  pose proof (Qpow2_pos (-50)) as P.
  set (p := Qpow2 (-50)) in *. set (N := inject_Z (2 ^ 48)) in *.
  assert (Hlt : (inject_Z (n - 1) < inject_Z t)%Q).
  { unfold Z.sub. rewrite inject_Z_plus. change (inject_Z (- (1))) with (- (1))%Q.
    assert (inject_Z n * p <= N * p)%Q by nra.
    assert (inject_Z n * (1 - p) <= e * (1 - p))%Q by nra.
    lra. }
  rewrite <- Zlt_Qlt in Hlt. lia.
Qed.

Lemma total_below (n t : Z) (e : Q) :
  0 <= n <= 2 ^ 48 -> (0 <= e <= inject_Z n)%Q ->
  (Qabs (inject_Z t - e) <= (1 # 2) + (Qabs e + 1) * Qpow2 (-50))%Q ->
  0 <= t <= n.
Proof.
  intros [Hn0 Hn] [He0 He] Hd.
  assert (Hn' : (inject_Z n <= inject_Z (2 ^ 48))%Q) by now rewrite <- Zle_Qle.
  rewrite (Qabs_nonneg_eq e) in Hd by lra.
  apply Qabs_Qle_condition in Hd. destruct Hd as [Hlo Hhi].
  assert (K : (inject_Z (2 ^ 48) * Qpow2 (-50) == 1 # 4)%Q) by reflexivity.
  assert (K' : (Qpow2 (-50) < 1 # 8)%Q) by reflexivity.
  pose proof (Qpow2_pos (-50)) as P.
  set (p := Qpow2 (-50)) in *. set (N := inject_Z (2 ^ 48)) in *.
  assert (Hep : (e * p <= N * p)%Q) by nra.
  assert (H1 : (inject_Z (-1) < inject_Z t)%Q).
  { change (inject_Z (-1)) with (- (1))%Q. lra. }
  assert (H2 : (inject_Z t < inject_Z (n + 1))%Q).
  { rewrite inject_Z_plus. change (inject_Z 1) with 1%Q. lra. }
  rewrite <- Zlt_Qlt in H1, H2. lia.
Qed.

(** X16.  The sign of the residual follows the comparison of the two
    rates, inside the range of the two number formats.  For an observed
    count between 0 and 2^48, a positive arrest rate and a total rate (the
    rate column, or [lam]) that is a double: a total rate at or above the
    arrest rate gives [unobserved_crimes >= 0]; a total rate between zero
    and the arrest rate gives [unobserved_crimes <= 0] as long as the
    quotient count / arrest rate stays below 2^1023; equal rates then
    give zero. *)
Theorem residual_sign (lam : option Q) (arrest_col lambda_col : string)
    (r : offenses_row) (c : counted_row) (a l : Q) :
  count_row lam arrest_col lambda_col r = Ok c ->
  o_rate r arrest_col = FNum a -> (0 < a)%Q ->
  rate_used lam lambda_col r = FNum l -> (l <= Qpow2 1024)%Q ->
  0 <= o_offense_count r <= 2 ^ 48 ->
  ((a <= l)%Q -> 0 <= unobserved_crimes c)
  /\ ((0 <= l <= a)%Q ->
      (inject_Z (o_offense_count r) <= a * Qpow2 1023)%Q ->
      unobserved_crimes c <= 0).
Proof.
  intros Hc Ha Hpos Hl Hlmax Hcount.
  unfold count_row in Hc. inversion Hc; subst c; clear Hc.
  cbn [unobserved_crimes]. unfold total_crimes_float.
  fold (rate_used lam lambda_col r). rewrite Ha, Hl.
  destruct (positive_rate a Hpos) as [Hnz Hgt]. rewrite Hgt.
  set (n := o_offense_count r) in *.
  destruct (of_int64_exact n) as (y0 & -> & E0); [lia|].
  unfold div64, Float.div. rewrite Hnz. cbn [rounded].
  set (x := (inject_Z n / a)%Q).
  assert (Hx : (x * a == inject_Z n)%Q) by (subst x; field; lra).
  assert (Hn0 : (0 <= inject_Z n)%Q)
    by (change 0%Q with (inject_Z 0); rewrite <- Zle_Qle; lia).
  assert (Hx0 : (0 <= x)%Q).
  { subst x. apply Qle_shift_div_l; [exact Hpos|]. lra. }
  assert (Eq0 : (y0 / a == x)%Q) by (subst x; rewrite E0; reflexivity).
  (* a count of zero keeps every double at zero *)
  assert (Hzero : n = 0 -> (y0 / a == 0)%Q).
  { intro Ez. rewrite Eq0. subst x. rewrite Ez. field. lra. }
  destruct (fl (y0 / a)) as [y1|s1|] eqn:E1.
  - apply fl_finite in E1. destruct E1 as [E1 _].
    unfold mul64, Float.mul. cbn [rounded].
    assert (Hl0 : (a <= l)%Q \/ (0 <= l <= a)%Q -> (0 <= l)%Q) by (intros [|]; lra).
    destruct (fl (y1 * l)) as [y2|s2|] eqn:E2.
    + apply fl_finite in E2. destruct E2 as [E2 _].
      cbn [Float.round]. subst y2 y1.
      set (t := round_half_even (round64 (round64 (y0 / a) * l))).
      assert (Herr : (0 <= l)%Q ->
                     (Qabs (inject_Z t - x * l)
                      <= (1 # 2) + (Qabs (x * l) + 1) * Qpow2 (-50))%Q).
      { intro H0. apply (extrapolation_error (inject_Z n) a l y0 Hpos); [|exact E0].
        rewrite Qabs_nonneg_eq by exact H0. exact Hlmax. }
      unfold astype_int64, of_int. rewrite Qtrunc_Z.
      split.
      * intro Hal.
        assert (Hge : n <= t).
        { apply (total_above n t (x * l)); [lia| |apply Herr; lra]. nra. }
        destruct ((int64_min <=? t) && (t <=? int64_max)) eqn:Er.
        -- apply andb_true_iff in Er. destruct Er as [R1 R2].
           apply Z.leb_le in R1, R2. rewrite wrap64_small;
             unfold int64_min, int64_max in *; lia.
        -- destruct (Z.eq_dec n 0) as [Ez|Ez].
           ++ exfalso.
              assert (Hle : 0 <= t <= n).
              { apply (total_below n t (x * l)); [lia| |apply Herr; lra].
                assert (Exl : (x * l == 0)%Q).
                { subst x. rewrite Ez. field. lra. }
                rewrite Exl. lra. }
              assert (R : (int64_min <=? t) && (t <=? int64_max) = true).
              { apply andb_true_iff. split; apply Z.leb_le;
                  unfold int64_min, int64_max; lia. }
              rewrite R in Er. discriminate.
           ++ rewrite wrap64_invalid by lia. lia.
      * intros Hla Hq.
        assert (Hle : 0 <= t <= n).
        { apply (total_below n t (x * l)); [lia| |apply Herr; lra]. nra. }
        assert (R : (int64_min <=? t) && (t <=? int64_max) = true).
        { apply andb_true_iff. split; apply Z.leb_le;
            unfold int64_min, int64_max; lia. }
        rewrite R. rewrite wrap64_small; unfold int64_min, int64_max; lia.
    + cbn [Float.round astype_int64]. split.
      * intro Hal.
        destruct (Z.eq_dec n 0) as [Ez|Ez].
        -- exfalso. subst y1.
           assert (Ep : (round64 (y0 / a) * l == 0)%Q).
           { rewrite (round64_zero _ (Hzero Ez)). ring. }
           destruct (fl_zero _ Ep) as (y & Ey & _). congruence.
        -- rewrite wrap64_invalid by lia. lia.
      * intros Hla Hq. exfalso. subst y1.
        destruct (product_error (inject_Z n) a l y0 Hpos) as [Hp _];
          [rewrite Qabs_nonneg_eq by lra; exact Hlmax|exact E0|].
        fold x in Hp.
        assert (Hxl : (0 <= x * l <= inject_Z n)%Q) by (split; nra).
        rewrite (Qabs_nonneg_eq (x * l)) in Hp by lra.
        assert (Hn' : (inject_Z n <= inject_Z (2 ^ 48))%Q)
          by (rewrite <- Zle_Qle; lia).
        assert (K : (inject_Z (2 ^ 48) * (1 + Qpow2 (-53)) + Qpow2 (-51)
                     <= Qpow2 1023)%Q) by (vm_compute; discriminate).
        pose proof (Qpow2_pos (-53)) as P.
        assert (Hb : (Qabs (round64 (y0 / a) * l) <= Qpow2 1023)%Q).
        { set (u := Qpow2 (-53)) in *. set (N := inject_Z (2 ^ 48)) in *.
          assert ((x * l) * (1 + u) <= N * (1 + u))%Q by nra. lra. }
        rewrite (fl_below _ Hb) in E2. discriminate.
    + exfalso. exact (fl_not_nan _ E2).
  - unfold mul64, Float.mul. split.
    + intro Hal.
      destruct (positive_rate l) as [Hlz _]; [lra|]. rewrite Hlz.
      cbn [rounded Float.round astype_int64].
      destruct (Z.eq_dec n 0) as [Ez|Ez].
      * exfalso. destruct (fl_zero _ (Hzero Ez)) as (y & Ey & _). congruence.
      * rewrite wrap64_invalid by lia. lia.
    + intros Hla Hq. exfalso.
      assert (Hb : (Qabs (y0 / a) <= Qpow2 1023)%Q).
      { rewrite (Qabs_wd _ _ Eq0), Qabs_nonneg_eq by exact Hx0.
        subst x. apply Qle_shift_div_r; [exact Hpos|].
        pose proof (Qpow2_pos 1023). nra. }
      rewrite (fl_below _ Hb) in E1. discriminate.
  - exfalso. exact (fl_not_nan _ E1).
Qed.

(** X16 on observed count 10, arrest rate 1/2 and rate column 1/4: the
    residual is not positive. *)
Lemma residual_sign_witness :
  let c := mkCounted Demo.offenses_10 5 (-5)
                     (Float.div (of_int (-5)) (of_int 2)) in
  ((1 # 2 <= 1 # 4)%Q -> 0 <= unobserved_crimes c)
  /\ ((0 <= 1 # 4 <= 1 # 2)%Q ->
      (inject_Z 10 <= (1 # 2) * Qpow2 1023)%Q ->
      unobserved_crimes c <= 0).
Proof.
  intro c.
  apply (residual_sign None "arrest_rate_smooth" "lambda" Demo.offenses_10 c
           (1 # 2) (1 # 4)).
  - vm_compute. reflexivity.
  - reflexivity.
  - reflexivity.
  - reflexivity.
  - vm_compute. discriminate.
  - vm_compute. split; discriminate.
Defined.

(** Outside that range the sign is lost.  With equal rates of 1 and an
    observed count of 2^53 + 1 the conversion of the count to a double
    rounds it down and the residual is -1; with equal rates of 2^-1074
    and an observed count of 1 the quotient overflows, the cast stores
    -2^63 and the residual wraps around to 2^63 - 1. *)
Lemma residual_sign_outside_the_range :
  let row count rate :=
    mkOffenses ["assault"; "white"; "M"; "18-29"]%string count (of_int 2)
               (Demo.rates (FNum rate) (FNum rate)) in
  (exists c, count_row None "arrest_rate_smooth" "lambda" (row (2 ^ 53 + 1) 1%Q)
             = Ok c
             /\ unobserved_crimes c = -1)
  /\ (exists c, count_row None "arrest_rate_smooth" "lambda"
                 (row 1 (Qpow2 (-1074))) = Ok c
                /\ unobserved_crimes c = 2 ^ 63 - 1).
Proof.
  intro row. split; eexists; (split; [reflexivity|]); vm_compute; reflexivity.
Qed.

(** ** Every token reaches a row *)

Lemma assigned_total_sum (group_all : list string) (df : list weighted_row)
    (samples : list sample_row) :
  sumZ (map offense_unobserved (assigned_frame df group_all samples))
  = sumZ (map (matched_count group_all samples) df).
Proof.
  unfold assigned_frame.
  change (fun (r : weighted_row) (s : sample_row) =>
            key_eqb (w_key group_all r) (s_key s) && (uid (w_row r) =? s_uid s))
    with (sample_matches group_all).
  induction df as [|rw df IH]; [reflexivity|].
  destruct (merge_left_cons (sample_matches group_all) rw df samples)
    as (piece & -> & _ & _ & Hpiece).
  rewrite !map_app, sumZ_app, IH. simpl. f_equal.
  unfold matched_count. rewrite Hpiece.
  destruct (filter (sample_matches group_all rw) samples) as [|s rs]; [reflexivity|].
  rewrite !map_map. reflexivity.
Qed.

Lemma matched_sum_exact (group_all : list string) (df : list weighted_row)
    (samples : list sample_row) :
  Forall (fun s => List.length (filter (fun rw => sample_matches group_all rw s) df)
                   = 1%nat) samples ->
  sumZ (map (matched_count group_all samples) df)
  = sumZ (map s_offense_unobserved samples).
Proof.
  induction 1 as [|s samples Hs _ IH].
  - unfold matched_count. simpl. induction df; simpl; lia.
  - rewrite (map_ext _ _ (matched_count_cons group_all s samples)).
    rewrite (sumZ_rowwise _ (fun rw => if sample_matches group_all rw s
                                       then s_offense_unobserved s else 0)
                          (matched_count group_all samples))
      by (apply Forall_forall; reflexivity).
    rewrite indicator_sum, Hs, IH. simpl. lia.
Qed.

(** X17.  With a rate table of one row per key and a cohort in which an
    individual appears once per group, no token is lost on its way back
    onto the rows: the synthetic crimes of the returned frame add up to the
    counts of the sample rows, the totals add up to the observed counts
    plus that number, and the generator has advanced by exactly that
    number of draws. *)
Theorem every_token_reaches_a_row `{RandomSource} df group_all crimes lam
    omega n_samples_div lambda_col arrest_col (w w' : world)
    (out : list out_row) :
  NoDup (map r_key crimes) ->
  NoDup (map (fun r => (key_of group_all r, uid r)) df) ->
  _add_unobserved df group_all crimes lam omega n_samples_div lambda_col
                  arrest_col w = (Ok out, w') ->
  sumZ (map offense_total out)
  = sumZ (map offense_count df) + sumZ (map offense_unobserved out)
  /\ 0 <= sumZ (map offense_unobserved out)
  /\ rng w' = advance (Z.to_nat (sumZ (map offense_unobserved out))) (rng w).
Proof.
  intros Hcrimes Hnd Hok.
  pose proof (add_unobserved_rows _ _ _ _ _ _ _ _ _ _ _ Hcrimes Hok) as Hrows.
  destruct (add_unobserved_ok _ _ _ _ _ _ _ _ _ _ _ Hok)
    as (counted & samples & Hc & Hs & Hout).
  set (dfw := weighted_frame df group_all omega counted) in *.
  assert (Hw : map w_row dfw = df).
  { destruct (weighted_frame_rows df group_all omega counted) as [Hge Heq].
    apply Heq. fold dfw in Hge |- *.
    pose proof (assigned_frame_length dfw group_all samples) as Hge2.
    rewrite <- Hout in Hge2.
    assert (Hl : List.length out = List.length df)
      by (rewrite <- Hrows, length_map; reflexivity).
    lia. }
  destruct (sample_unobserved_frame _ _ _ _ _ _ Hs) as [_ Hmembers].
  assert (Hone : Forall (fun s => List.length
                                    (filter (fun rw => sample_matches group_all rw s) dfw)
                                  = 1%nat) samples).
  { apply Forall_forall. intros s Hin.
    destruct (Hmembers s Hin) as (_ & r & Hr & Hk & Hu).
    assert (Hle : (List.length (filter (fun rw => sample_matches group_all rw s) dfw)
                   <= 1)%nat).
    { apply (filter_le_one (fun rw => (key_of group_all (w_row rw), uid (w_row rw)))).
      - rewrite <- (map_map w_row (fun r0 => (key_of group_all r0, uid r0))), Hw.
        exact Hnd.
      - intros x y _ _ Ex Ey. unfold sample_matches in Ex, Ey.
        apply andb_true_iff in Ex, Ey. destruct Ex as [Kx Ux], Ey as [Ky Uy].
        apply key_eqb_spec in Kx, Ky. apply Z.eqb_eq in Ux, Uy.
        unfold w_key in Kx, Ky. congruence. }
    assert (Hge : In r (filter (fun rw => sample_matches group_all rw s) dfw)).
    { apply filter_In. split; [exact Hr|]. unfold sample_matches.
      rewrite Hk, key_eqb_refl, Hu, Z.eqb_refl. reflexivity. }
    destruct (filter _ dfw) as [|x [|y t]]; simpl in *; [contradiction|reflexivity|lia]. }
  assert (Esum : sumZ (map offense_unobserved out)
                 = sumZ (map s_offense_unobserved samples)).
  { rewrite Hout, assigned_total_sum. now apply matched_sum_exact. }
  split; [|split].
  - rewrite <- Hrows, map_map. apply sumZ_rowwise.
    apply Forall_forall. intros r Hr.
    now destruct (add_unobserved_assigned _ _ _ _ _ _ _ _ _ _ _ r Hok Hr).
  - apply sumZ_map_nonneg. apply Forall_forall. intros r Hr.
    now destruct (add_unobserved_assigned _ _ _ _ _ _ _ _ _ _ _ r Hok Hr).
  - rewrite Esum.
    unfold _sample_unobserved in Hs. unfold bind at 1 in Hs.
    destruct (mapM _ _ w) as [[applied| |] w1] eqn:Em; try discriminate.
    destruct (forallb without_samples applied) eqn:Ef;
      [unfold raise in Hs; discriminate|].
    unfold ret in Hs. inversion Hs; subst samples w'.
    rewrite explode_sum.
    now destruct (mapM_sample_advance _ _ _ _ _ _ _ Em) as (_ & Hrng & _).
Qed.

(** X17 on the cohort of two groups: ten tokens, ten draws. *)
Lemma every_token_reaches_a_row_witness :
  let run := Demo.add_unobserved Demo.cohort_mixed Demo.mixed_table in
  sumZ (map offense_total (Demo.rows_of run))
  = sumZ (map offense_count Demo.cohort_mixed)
    + sumZ (map offense_unobserved (Demo.rows_of run))
  /\ 0 <= sumZ (map offense_unobserved (Demo.rows_of run))
  /\ @rng Demo.lcg (snd run)
     = @advance Demo.lcg
         (Z.to_nat (sumZ (map offense_unobserved (Demo.rows_of run))))
         (@rng Demo.lcg Demo.world0).
Proof.
  intro run.
  apply (@every_token_reaches_a_row Demo.lcg Demo.cohort_mixed Demo.group_all
           Demo.mixed_table None 1 1 "lambda" "arrest_rate_smooth" Demo.world0
           (snd run) (Demo.rows_of run)).
  - repeat constructor; simpl; intuition congruence.
  - vm_compute. repeat constructor; simpl; intuition congruence.
  - vm_compute. reflexivity.
Defined.

(** * The cache on disk *)

Local Open Scope string_scope.

(** The outcome of [_file_path] does not depend on the disk, and the disk
    it leaves is the one it found with the directory created, untouched
    when the name could not be built. *)
Lemma file_path_effect `{Platform} start_year end_year window lam omega
    smoothing seed rate_mult_ncvs rate_mult_nsduh :
  exists o : outcome path,
    forall d,
      _file_path start_year end_year window lam omega smoothing seed
                 rate_mult_ncvs rate_mult_nsduh d
      = (o, match o with
            | Returned p => mkdir (directory p) d
            | _ => d
            end).
Proof.
  unfold _file_path.
  match goal with
  | |- context [match ?name with Returned _ => _ | Raised _ => _
                               | Undetermined => _ end] =>
      destruct name as [n|e|]
  end.
  - exists (Returned (mkPath (str start_year ++ "-" ++ str end_year ++ "_"
                                ++ str window) n)).
    reflexivity.
  - exists (Raised e). reflexivity.
  - exists Undetermined. reflexivity.
Qed.

Lemma file_path_returned `{Platform} start_year end_year window lam omega
    smoothing seed rate_mult_ncvs rate_mult_nsduh d p d' :
  _file_path start_year end_year window lam omega smoothing seed
             rate_mult_ncvs rate_mult_nsduh d = (Returned p, d') ->
  forall d0,
    _file_path start_year end_year window lam omega smoothing seed
               rate_mult_ncvs rate_mult_nsduh d0
    = (Returned p, mkdir (directory p) d0).
Proof.
  intros Hp d0.
  destruct (file_path_effect start_year end_year window lam omega smoothing
              seed rate_mult_ncvs rate_mult_nsduh) as [o Ho].
  rewrite Ho in Hp. inversion Hp; subst o. apply Ho.
Qed.

(** Two calls whose paths coincide: when the first finds no file and
    returns a frame, the second returns the text of that frame read back,
    whatever its own arguments, data and generator are. *)
Lemma served_from_path `{Platform} (R R' : RandomSource)
    (E E' : Environment)
    sy ey wi seed lam omega smoothing rm_ncvs rm_nsduh
    sy' ey' wi' seed' lam' omega' smoothing' rm_ncvs' rm_nsduh'
    (d d1 : disk) (p : path) (df : list final_row) :
  lawful_disk ->
  fst (_file_path sy ey wi lam omega smoothing seed rm_ncvs rm_nsduh d)
  = Returned p ->
  fst (_file_path sy' ey' wi' lam' omega' smoothing' seed' rm_ncvs' rm_nsduh' d)
  = Returned p ->
  contents d p = None ->
  @get_synth R E _ sy ey wi seed lam omega smoothing rm_ncvs rm_nsduh d
  = (Returned df, d1) ->
  contents d1 p = Some (to_csv df)
  /\ @get_synth R' E' _ sy' ey' wi' seed' lam' omega' smoothing' rm_ncvs'
       rm_nsduh' d1
     = (read_csv (to_csv df), mkdir (directory p) d1).
Proof.
  intros [Hw Hm] Hp Hp' Hnone Hget.
  destruct (_file_path sy ey wi lam omega smoothing seed rm_ncvs rm_nsduh d)
    as [o da] eqn:Ea.
  simpl in Hp. subst o.
  destruct (_file_path sy' ey' wi' lam' omega' smoothing' seed' rm_ncvs'
              rm_nsduh' d) as [o' db] eqn:Eb.
  simpl in Hp'. subst o'.
  pose proof (file_path_returned _ _ _ _ _ _ _ _ _ _ _ _ Ea) as Ha.
  pose proof (file_path_returned _ _ _ _ _ _ _ _ _ _ _ _ Eb) as Hb.
  unfold get_synth in Hget. rewrite (Ha d) in Hget.
  rewrite Hm, Hnone in Hget.
  destruct (rolling_crime_assignment sy ey wi seed lam omega _ smoothing
              rm_ncvs rm_nsduh) as [df0| |]; try discriminate.
  inversion Hget; subst df0 d1. clear Hget.
  split; [apply Hw|].
  unfold get_synth. rewrite (Hb _). rewrite Hm, Hw. reflexivity.
Qed.

(** X18.  A frame that [get_synth] generated is what later calls with the
    same arguments return, read back from its file: neither the data of
    the providers nor the random source is consulted again, so a change of
    either goes unnoticed until the file is removed. *)
Theorem get_synth_second_call `{Platform} (R R' : RandomSource)
    (E E' : Environment)
    start_year end_year window seed lam omega smoothing rate_mult_ncvs
    rate_mult_nsduh (d d1 : disk) (p : path) (df : list final_row) :
  lawful_disk ->
  fst (_file_path start_year end_year window lam omega smoothing seed
                  rate_mult_ncvs rate_mult_nsduh d) = Returned p ->
  contents d p = None ->
  @get_synth R E _ start_year end_year window seed lam omega smoothing
    rate_mult_ncvs rate_mult_nsduh d = (Returned df, d1) ->
  @get_synth R' E' _ start_year end_year window seed lam omega smoothing
    rate_mult_ncvs rate_mult_nsduh d1
  = (read_csv (to_csv df), mkdir (directory p) d1).
Proof.
  intros Hlaw Hp Hnone Hget.
  exact (proj2 (served_from_path R R' E E' _ _ _ _ _ _ _ _ _ _ _ _ _ _ _ _ _ _
                  d d1 p df Hlaw Hp Hp Hnone Hget)).
Qed.

(** ** Reading a name back *)

Lemma string_length_app (a b : string) :
  String.length (a ++ b) = (String.length a + String.length b)%nat.
Proof. induction a as [|c a IH]; simpl; [reflexivity|now rewrite IH]. Qed.

Lemma append_cancel_l (s a b : string) : s ++ a = s ++ b -> a = b.
Proof.
  induction s as [|c s IH]; simpl; intro E; [exact E|].
  injection E as E. now apply IH.
Qed.

Lemma append_cancel_r (c : string) : forall a b, a ++ c = b ++ c -> a = b.
Proof.
  induction a as [|x a IH]; intros [|y b] E; simpl in E.
  - reflexivity.
  - apply (f_equal String.length) in E. simpl in E.
    rewrite string_length_app in E. lia.
  - apply (f_equal String.length) in E. simpl in E.
    rewrite string_length_app in E. lia.
  - injection E as -> E. f_equal. now apply IH.
Qed.

Lemma to_int_proper (z : Z) :
  Z.to_int z <> Decimal.Pos Decimal.Nil /\ Z.to_int z <> Decimal.Neg Decimal.Nil.
Proof.
  pose proof (DecimalZ.to_of (Z.to_int z)) as E.
  rewrite DecimalZ.of_to in E. rewrite E.
  destruct (Z.to_int z) as [u|u]; simpl.
  - split; [|discriminate]. intro F. inversion F as [G].
    exact (DecimalFacts.unorm_nonnil u G).
  - destruct (Decimal.nzhead u); split; discriminate.
Qed.

(** [f'{n}'] tells integers apart. *)
Lemma str_inj (a b : Z) : str a = str b -> a = b.
Proof.
  unfold str. intro E. apply DecimalZ.to_int_inj.
  destruct (to_int_proper a) as [A1 A2], (to_int_proper b) as [B1 B2].
  pose proof (DecimalString.NilZero.isi _ A1 A2) as Ia.
  pose proof (DecimalString.NilZero.isi _ B1 B2) as Ib.
  rewrite E in Ia. congruence.
Qed.

Lemma span_digits_stop (r : string) :
  stops_digits r -> span_digits r = (EmptyString, r).
Proof. destruct r as [|c r]; simpl; [reflexivity|]. now intros ->. Qed.

Lemma span_digits_uint (u : Decimal.uint) (r : string) :
  stops_digits r ->
  span_digits (DecimalString.NilEmpty.string_of_uint u ++ r)
  = (DecimalString.NilEmpty.string_of_uint u, r).
Proof.
  intro Hr.
  induction u as [|u IH|u IH|u IH|u IH|u IH|u IH|u IH|u IH|u IH|u IH];
    [now apply span_digits_stop| ..];
    cbn [DecimalString.NilEmpty.string_of_uint append span_digits];
    rewrite IH; reflexivity.
Qed.

Lemma take_int_str (n : Z) (r : string) :
  stops_digits r -> take_int (str n ++ r) = (str n, r).
Proof.
  intro Hr. unfold str.
  destruct (Z.to_int n) as [u|u]; cbn [DecimalString.NilZero.string_of_int].
  - destruct u; cbn [DecimalString.NilZero.string_of_uint];
      try (cbn; now rewrite span_digits_stop);
      match goal with
      | |- take_int (DecimalString.NilEmpty.string_of_uint ?d ++ r) = _ =>
          rewrite <- (span_digits_uint d r Hr); reflexivity
      end.
  - change (take_int (String "-" (DecimalString.NilZero.string_of_uint u ++ r))
            = (String "-" (DecimalString.NilZero.string_of_uint u), r)).
    unfold take_int. cbn [Ascii.eqb Bool.eqb].
    assert (E : span_digits (DecimalString.NilZero.string_of_uint u ++ r)
                = (DecimalString.NilZero.string_of_uint u, r)).
    { destruct u; cbn [DecimalString.NilZero.string_of_uint];
        try (cbn; now rewrite span_digits_stop);
        now apply span_digits_uint. }
    rewrite E. reflexivity.
Qed.

(** The directory name can be read back: it determines the two years and
    the window. *)
Lemma directory_inj (a b c a' b' c' : Z) :
  str a ++ "-" ++ str b ++ "_" ++ str c
  = str a' ++ "-" ++ str b' ++ "_" ++ str c' ->
  a = a' /\ b = b' /\ c = c'.
Proof.
  intro E.
  pose proof (f_equal take_int E) as Ea.
  rewrite !take_int_str in Ea by reflexivity.
  injection Ea as Ea Er. simpl in Er. try (injection Er as Er).
  pose proof (f_equal take_int Er) as Eb.
  rewrite !take_int_str in Eb by reflexivity.
  injection Eb as Eb Ec. simpl in Ec. try (injection Ec as Ec).
  auto using str_inj.
Qed.

(** The shape of a path: the directory is made of the years and the
    window, and the seed enters the name after a stem in which it plays no
    part. *)
Lemma file_path_form `{Platform} sy ey wi lam omega smoothing seed rm_ncvs
    rm_nsduh d p :
  fst (_file_path sy ey wi lam omega smoothing seed rm_ncvs rm_nsduh d)
  = Returned p ->
  directory p = str sy ++ "-" ++ str ey ++ "_" ++ str wi
  /\ exists stem,
       file_name p = stem ++ "-" ++ str seed ++ ".csv"
       /\ forall sy' ey' wi' seed' d',
            fst (_file_path sy' ey' wi' lam omega smoothing seed' rm_ncvs
                            rm_nsduh d')
            = Returned (mkPath (str sy' ++ "-" ++ str ey' ++ "_" ++ str wi')
                               (stem ++ "-" ++ str seed' ++ ".csv")).
Proof.
  unfold _file_path.
  destruct rm_ncvs as [dct1|], rm_nsduh as [dct2|]; cbn [and_then];
    try destruct (_rate2string dct1) as [r1|e1|]; cbn [and_then];
    try destruct (_rate2string dct2) as [r2|e2|]; cbn [and_then fst];
    intro E; try discriminate; injection E as <-;
    (split; [reflexivity|]); eexists; (split; [reflexivity|]);
    intros; reflexivity.
Qed.

(** X21.  Two runs that differ in a year, in the window or in the seed,
    and in nothing else, never share a file. *)
Theorem file_path_separates_runs `{Platform} sy ey wi seed sy' ey' wi' seed'
    lam omega smoothing rate_mult_ncvs rate_mult_nsduh (d d' : disk)
    (p p' : path) :
  (sy, ey, wi, seed) <> (sy', ey', wi', seed') ->
  fst (_file_path sy ey wi lam omega smoothing seed rate_mult_ncvs
                  rate_mult_nsduh d) = Returned p ->
  fst (_file_path sy' ey' wi' lam omega smoothing seed' rate_mult_ncvs
                  rate_mult_nsduh d') = Returned p' ->
  p <> p'.
Proof.
  intros Hne Hp Hp' Epp. apply Hne.
  destruct (file_path_form _ _ _ _ _ _ _ _ _ _ _ Hp) as (Hdir & stem & Hname & Hall).
  rewrite (Hall sy' ey' wi' seed' d') in Hp'. injection Hp' as <-.
  rewrite Epp in Hdir, Hname. cbn [directory file_name] in Hdir, Hname.
  apply directory_inj in Hdir. destruct Hdir as (<- & <- & <-).
  rename Hname into En. apply append_cancel_l in En.
  simpl in En. injection En as En. apply append_cancel_r in En.
  apply str_inj in En. now subst.
Qed.

(** X21 on two seeds. *)
Lemma file_path_separates_runs_witness :
  mkPath "2000-2005_3" "nolam_om1.00_lr_pr-0.csv"
  <> mkPath "2000-2005_3" "nolam_om1.00_lr_pr-1.csv".
Proof.
  apply (@file_path_separates_runs DemoDisk.platform 2000 2005 3 0 2000 2005 3 1
           None 1 "lr_pr" None None [] []).
  - intro E. discriminate E.
  - reflexivity.
  - reflexivity.
Defined.

(** ** What shares a file *)

Lemma demo_disk_lawful : @lawful_disk DemoDisk.platform.
Proof.
  split; [|reflexivity].
  intros p c d. cbn. unfold DemoDisk.path_eqb.
  now rewrite !String.eqb_refl.
Qed.

(** X18 on an empty disk, with [lam = 1]: the second call is made with
    another generator and with empty rate tables, and returns the frame of
    the first. *)
Lemma get_synth_second_call_witness :
  let first := DemoDisk.synth 0 (Some 1%Q) 1 None [] in
  @get_synth Demo.lcg_offset (Demo.env [] []) DemoDisk.platform
    2000 2005 3 0 (Some 1%Q) 1 "lr_pr" None None (snd first)
  = (Returned (DemoDisk.frame_of first), snd first).
Proof.
  intro first.
  apply (@get_synth_second_call DemoDisk.platform Demo.lcg Demo.lcg_offset
           DemoDisk.env (Demo.env [] []) 2000 2005 3 0 (Some 1%Q) 1 "lr_pr"
           None None [] (snd first)
           (mkPath "2000-2005_3" "lam1.00_om1.00_lr_pr-0.csv")
           (DemoDisk.frame_of first)).
  - exact demo_disk_lawful.
  - reflexivity.
  - reflexivity.
  - vm_compute. reflexivity.
Defined.

Lemma format_2f_same (x y : Q) : same_2f x y -> format_2f x = format_2f y.
Proof. intros [Hs Hr]. unfold format_2f. now rewrite Hs, Hr. Qed.

Lemma rate2string_same `{Platform} (dct dct' : list (string * Q)) :
  same_letters dct dct' -> _rate2string dct = _rate2string dct'.
Proof.
  intro Hs. unfold _rate2string. f_equal.
  induction Hs as [|kv kv' dct dct' [Hk Hv] _ IH]; [reflexivity|].
  cbn [comprehension]. now rewrite Hk, Hv, IH.
Qed.

Lemma file_path_same `{Platform} sy ey wi lam lam' omega omega' smoothing seed
    rm_ncvs rm_ncvs' rm_nsduh rm_nsduh' d :
  match lam, lam' with
  | None, None => True
  | Some l, Some l' => same_2f l l'
  | _, _ => False
  end ->
  same_2f omega omega' ->
  same_multipliers rm_ncvs rm_ncvs' ->
  same_multipliers rm_nsduh rm_nsduh' ->
  _file_path sy ey wi lam omega smoothing seed rm_ncvs rm_nsduh d
  = _file_path sy ey wi lam' omega' smoothing seed rm_ncvs' rm_nsduh' d.
Proof.
  intros Hl Ho H1 H2. unfold _file_path.
  rewrite (format_2f_same _ _ Ho).
  assert (El : match lam with None => "nolam" | Some l => "lam" ++ format_2f l end
               = match lam' with None => "nolam" | Some l => "lam" ++ format_2f l end).
  { destruct lam, lam'; try contradiction; [|reflexivity].
    now rewrite (format_2f_same _ _ Hl). }
  rewrite El.
  destruct rm_ncvs as [a|], rm_ncvs' as [a'|]; try contradiction;
    destruct rm_nsduh as [b|], rm_nsduh' as [b'|]; try contradiction;
    cbn [same_multipliers] in H1, H2;
    try rewrite (rate2string_same a a' H1);
    try rewrite (rate2string_same b b' H2);
    reflexivity.
Qed.

(** X19.  The file name keeps two decimals of [lam] and of [omega].  A
    call whose [lam] and [omega] print like those of an earlier call
    returns the frame generated for the earlier values. *)
Theorem get_synth_rounds_lam_and_omega `{Platform} (R R' : RandomSource)
    (E E' : Environment)
    start_year end_year window seed (lam lam' omega omega' : Q) smoothing
    rate_mult_ncvs rate_mult_nsduh (d d1 : disk) (p : path)
    (df : list final_row) :
  lawful_disk ->
  same_2f lam lam' ->
  same_2f omega omega' ->
  fst (_file_path start_year end_year window (Some lam) omega smoothing seed
                  rate_mult_ncvs rate_mult_nsduh d) = Returned p ->
  contents d p = None ->
  @get_synth R E _ start_year end_year window seed (Some lam) omega smoothing
    rate_mult_ncvs rate_mult_nsduh d = (Returned df, d1) ->
  @get_synth R' E' _ start_year end_year window seed (Some lam') omega'
    smoothing rate_mult_ncvs rate_mult_nsduh d1
  = (read_csv (to_csv df), mkdir (directory p) d1).
Proof.
  intros Hlaw Hl Ho Hp Hnone Hget.
  assert (Hm : forall m, same_multipliers m m).
  { intros [dct|]; cbn; [|exact I].
    induction dct; constructor; auto. }
  refine (proj2 (served_from_path R R' E E' _ _ _ _ _ _ _ _ _ _ _ _ _ _ _ _ _ _
                   d d1 p df Hlaw Hp _ Hnone Hget)).
  rewrite <- Hp. f_equal. symmetry.
  apply file_path_same; auto.
Qed.

(** X19 on [lam = 1] and [lam = 1.004], [omega = 1] and [omega = 0.996]. *)
Lemma get_synth_rounds_lam_and_omega_witness :
  let first := DemoDisk.synth 0 (Some 1%Q) 1 None [] in
  DemoDisk.synth 0 (Some (1004 # 1000)) (996 # 1000) None (snd first)
  = (Returned (DemoDisk.frame_of first), snd first).
Proof.
  intro first.
  apply (@get_synth_rounds_lam_and_omega DemoDisk.platform Demo.lcg Demo.lcg
           DemoDisk.env DemoDisk.env 2000 2005 3 0 1 (1004 # 1000) 1
           (996 # 1000) "lr_pr" None None [] (snd first)
           (mkPath "2000-2005_3" "lam1.00_om1.00_lr_pr-0.csv")
           (DemoDisk.frame_of first)).
  - exact demo_disk_lawful.
  - split; reflexivity.
  - split; reflexivity.
  - reflexivity.
  - reflexivity.
  - vm_compute. reflexivity.
Defined.

(** X20.  Of a multiplier dictionary the file name keeps, entry by entry,
    the first letter of the key and the thousandths of the value.  A call
    whose dictionaries print like those of an earlier call returns the
    frame generated for the earlier dictionaries. *)
Theorem get_synth_keeps_first_letters `{Platform} (R R' : RandomSource)
    (E E' : Environment)
    start_year end_year window seed lam omega smoothing
    (ncvs ncvs' nsduh nsduh' : option (list (string * Q)))
    (d d1 : disk) (p : path) (df : list final_row) :
  lawful_disk ->
  same_multipliers ncvs ncvs' ->
  same_multipliers nsduh nsduh' ->
  fst (_file_path start_year end_year window lam omega smoothing seed
                  ncvs nsduh d) = Returned p ->
  contents d p = None ->
  @get_synth R E _ start_year end_year window seed lam omega smoothing
    ncvs nsduh d = (Returned df, d1) ->
  @get_synth R' E' _ start_year end_year window seed lam omega smoothing
    ncvs' nsduh' d1
  = (read_csv (to_csv df), mkdir (directory p) d1).
Proof.
  intros Hlaw H1 H2 Hp Hnone Hget.
  refine (proj2 (served_from_path R R' E E' _ _ _ _ _ _ _ _ _ _ _ _ _ _ _ _ _ _
                   d d1 p df Hlaw Hp _ Hnone Hget)).
  rewrite <- Hp. f_equal. symmetry.
  apply file_path_same; auto.
  - destruct lam; [split; reflexivity|exact I].
  - split; reflexivity.
Qed.

(** X20 on the multipliers of 'drugs_use' and of 'dui', with
    [lam = 1]. *)
Lemma get_synth_keeps_first_letters_witness :
  let first := DemoDisk.synth 0 (Some 1%Q) 1 (Some [("drugs_use", 2%Q)]) [] in
  DemoDisk.synth 0 (Some 1%Q) 1 (Some [("dui", 2%Q)]) (snd first)
  = (Returned (DemoDisk.frame_of first), snd first).
Proof.
  intro first.
  apply (@get_synth_keeps_first_letters DemoDisk.platform Demo.lcg Demo.lcg
           DemoDisk.env DemoDisk.env 2000 2005 3 0 (Some 1%Q) 1 "lr_pr" None
           None (Some [("drugs_use", 2%Q)]) (Some [("dui", 2%Q)]) []
           (snd first)
           (mkPath "2000-2005_3" "lam1.00_om1.00_lr_pr_mduhd2000-0.csv")
           (DemoDisk.frame_of first)).
  - exact demo_disk_lawful.
  - exact I.
  - repeat constructor.
  - reflexivity.
  - reflexivity.
  - vm_compute. reflexivity.
Defined.

(** ** What is written, and when *)

(** X22.  [get_synth] writes one file at most, and only after the driver
    returned a frame for a path that held no file.  In every other case,
    whether the frame was read from the disk, the driver raised or the
    name could not be built, the files on the disk are those found. *)
Theorem get_synth_writes_only_after_success `{RandomSource} `{Environment}
    `{Platform} start_year end_year window seed lam omega smoothing
    rate_mult_ncvs rate_mult_nsduh (d d1 : disk)
    (o : outcome (list final_row)) :
  lawful_disk ->
  get_synth start_year end_year window seed lam omega smoothing
            rate_mult_ncvs rate_mult_nsduh d = (o, d1) ->
  (forall q, contents d1 q = contents d q)
  \/ (exists p df,
        fst (_file_path start_year end_year window lam omega smoothing seed
                        rate_mult_ncvs rate_mult_nsduh d) = Returned p
        /\ contents d p = None
        /\ rolling_crime_assignment start_year end_year window seed lam omega
             "arrest_rate_smooth" smoothing rate_mult_ncvs rate_mult_nsduh
           = Ok df
        /\ o = Returned df
        /\ d1 = write p (to_csv df) (mkdir (directory p) d)).
Proof.
  intros [_ Hm] Hget. unfold get_synth in Hget.
  destruct (file_path_effect start_year end_year window lam omega smoothing
              seed rate_mult_ncvs rate_mult_nsduh) as [op Hop].
  rewrite (Hop d) in Hget |- *. cbn [fst].
  destruct op as [p|e|].
  - destruct (contents (mkdir (directory p) d) p) as [text|] eqn:Ec.
    + left. inversion Hget; subst. intro q. apply Hm.
    + rewrite Hm in Ec.
      destruct (rolling_crime_assignment _ _ _ _ _ _ _ _ _ _) as [df|e|] eqn:Er;
        inversion Hget; subst.
      * right. exists p, df. auto.
      * left. intro q. apply Hm.
      * left. intro q. apply Hm.
  - left. inversion Hget; subst. reflexivity.
  - left. inversion Hget; subst. reflexivity.
Qed.

(** X22 on a run without any window: the driver raises, and a file that
    was on the disk is still there. *)
Lemma get_synth_writes_only_after_success_witness :
  let stale := [(mkPath "2000-2005_3" "nolam_om1.00_lr_pr-7.csv", [])] in
  let run := @get_synth Demo.lcg DemoDisk.env DemoDisk.platform
               2000 2001 3 0 None 1 "lr_pr" None None stale in
  (forall q, @contents DemoDisk.platform (snd run) q
             = @contents DemoDisk.platform stale q)
  \/ (exists p df,
        fst (@_file_path DemoDisk.platform 2000 2001 3 None 1 "lr_pr" 0 None
               None stale) = Returned p
        /\ @contents DemoDisk.platform stale p = None
        /\ @rolling_crime_assignment Demo.lcg DemoDisk.env 2000 2001 3 0 None
             1 "arrest_rate_smooth" "lr_pr" None None = Ok df
        /\ fst run = Returned df
        /\ snd run = @write DemoDisk.platform p (@to_csv DemoDisk.platform df)
                       (@mkdir DemoDisk.platform (directory p) stale)).
Proof.
  intros stale run.
  apply (@get_synth_writes_only_after_success Demo.lcg DemoDisk.env
           DemoDisk.platform 2000 2001 3 0 None 1 "lr_pr" None None stale
           (snd run) (fst run)).
  - exact demo_disk_lawful.
  - vm_compute. reflexivity.
Defined.

Lemma main_file_path `{Platform} (d : disk) :
  _file_path 1992 2012 3 (Some 1%Q) 1%Q "lr_pr" 0 None None d
  = (Returned (mkPath "1992-2012_3" "lam1.00_om1.00_lr_pr-0.csv"),
     mkdir "1992-2012_3" d).
Proof. reflexivity. Qed.

(** X23.  [main] does not look at the cache: it runs the driver for
    1992..2012 with a window of 3, [lam = 1], [omega = 1] and seed 0, and
    when the driver returns it writes the frame to
    '1992-2012_3/lam1.00_om1.00_lr_pr-0.csv' over whatever was there;
    [get_synth] called with these arguments then returns that frame read
    back.  When the driver does not return, [main] has not touched the
    disk. *)
Theorem main_refreshes_the_cache `{Platform} (R R' : RandomSource)
    (E E' : Environment) (d d1 : disk) (o : outcome unit) :
  lawful_disk ->
  @main R E _ d = (o, d1) ->
  (exists df,
     o = Returned tt
     /\ @rolling_crime_assignment R E 1992 2012 3 0 (Some 1%Q) 1%Q
          "arrest_rate_smooth" "lr_pr" None None = Ok df
     /\ contents d1 (mkPath "1992-2012_3" "lam1.00_om1.00_lr_pr-0.csv")
        = Some (to_csv df)
     /\ @get_synth R' E' _ 1992 2012 3 0 (Some 1%Q) 1%Q "lr_pr" None None d1
        = (read_csv (to_csv df), mkdir "1992-2012_3" d1))
  \/ (d1 = d
      /\ o <> Returned tt
      /\ forall df,
           @rolling_crime_assignment R E 1992 2012 3 0 (Some 1%Q) 1%Q
             "arrest_rate_smooth" "lr_pr" None None <> Ok df).
Proof.
  intros [Hw Hm] Hmain. unfold main in Hmain.
  cbv zeta in Hmain. rewrite main_file_path in Hmain.
  destruct (@rolling_crime_assignment R E 1992 2012 3 0 (Some 1%Q) 1%Q
              "arrest_rate_smooth" "lr_pr" None None) as [df|e|] eqn:Er;
    inversion Hmain; subst; clear Hmain.
  - left. exists df. cbn [directory].
    repeat split; try reflexivity.
    + apply Hw.
    + unfold get_synth. rewrite main_file_path.
      rewrite Hm, Hw. reflexivity.
  - right. repeat split; discriminate.
  - right. repeat split; discriminate.
Qed.

(** X23 on a disk that holds an older file under the name. *)
Lemma main_refreshes_the_cache_witness :
  let stale := [(mkPath "1992-2012_3" "lam1.00_om1.00_lr_pr-0.csv", [])] in
  let run := @main Demo.lcg DemoDisk.env DemoDisk.platform stale in
  (exists df,
     fst run = Returned tt
     /\ @rolling_crime_assignment Demo.lcg DemoDisk.env 1992 2012 3 0
          (Some 1%Q) 1%Q "arrest_rate_smooth" "lr_pr" None None = Ok df
     /\ @contents DemoDisk.platform (snd run)
          (mkPath "1992-2012_3" "lam1.00_om1.00_lr_pr-0.csv")
        = Some df
     /\ @get_synth Demo.lcg_offset (Demo.env [] []) DemoDisk.platform
          1992 2012 3 0 (Some 1%Q) 1%Q "lr_pr" None None (snd run)
        = (Returned df, snd run))
  \/ (snd run = stale
      /\ fst run <> Returned tt
      /\ forall df,
           @rolling_crime_assignment Demo.lcg DemoDisk.env 1992 2012 3 0
             (Some 1%Q) 1%Q "arrest_rate_smooth" "lr_pr" None None <> Ok df).
Proof.
  intros stale run.
  apply (@main_refreshes_the_cache DemoDisk.platform Demo.lcg Demo.lcg_offset
           DemoDisk.env (Demo.env [] []) stale (snd run) (fst run)).
  - exact demo_disk_lawful.
  - vm_compute. reflexivity.
Defined.

(** ** When the name cannot be built *)

Lemma comprehension_raises {A B} (f : A -> outcome B) (l : list A) :
  (forall a, f a <> Undetermined) ->
  comprehension f l <> Undetermined
  /\ forall e, comprehension f l = Raised e ->
                exists a, In a l /\ f a = Raised e.
Proof.
  intro Hf. induction l as [|a l [IHu IHr]]; cbn [comprehension].
  - split; [discriminate|]. intros e F. discriminate F.
  - destruct (f a) as [b|e0|] eqn:Ea; cbn [and_then].
    + destruct (comprehension f l) as [bs|e1|]; cbn [and_then].
      * split; [discriminate|]. intros e F. discriminate F.
      * split; [discriminate|]. intros e F. injection F as <-.
        destruct (IHr e1 eq_refl) as (a' & Hin & Ha').
        exists a'. split; [now right|exact Ha'].
      * now contradiction IHu.
    + split; [discriminate|]. intros e F. injection F as <-.
      exists a. split; [now left|exact Ea].
    + now contradiction (Hf a).
Qed.

Lemma rate2string_raises `{Platform} (dct : list (string * Q)) :
  _rate2string dct <> Undetermined
  /\ forall e, _rate2string dct = Raised e ->
       exists kv, In kv dct
         /\ ((fst kv = "" /\ e = IndexError_string_index)
             \/ (float_mul (snd kv) 1000%Q = FNaN
                 /\ e = Lower ValueError_nan_to_int)
             \/ (exists s, float_mul (snd kv) 1000%Q = FInf s
                           /\ e = Lower OverflowError_inf_to_int)).
Proof.
  unfold _rate2string.
  match goal with
  | |- context [comprehension ?f dct] =>
      assert (Hf : forall kv, f kv <> Undetermined);
      [|destruct (comprehension_raises f dct Hf) as [Hu Hr];
        destruct (comprehension f dct) as [parts|e0|] eqn:Ec; cbn [and_then]]
  end.
  - intros [k v]. cbn [fst snd]. destruct k as [|c k]; cbn; [discriminate|].
    destruct (float_mul v 1000%Q); cbn; discriminate.
  - split; [discriminate|]. intros e F. discriminate F.
  - split; [discriminate|]. intros e F. injection F as <-.
    destruct (Hr e0 eq_refl) as ([k v] & Hin & Hkv). cbn [fst snd] in Hkv.
    exists (k, v). split; [exact Hin|]. cbn [fst snd].
    destruct k as [|c k]; cbn in Hkv.
    + injection Hkv as <-. left. split; reflexivity.
    + destruct (float_mul v 1000%Q) as [q|neg|]; cbn in Hkv;
        try discriminate; injection Hkv as <-.
      * right. right. exists neg. split; reflexivity.
      * right. left. split; reflexivity.
  - now contradiction Hu.
Qed.

(** X24.  [_file_path] can fail in one place only, the printing of a
    multiplier dictionary: on an entry with an empty key ([k[0]] raises
    [IndexError]) or on one whose product with 1000 is not finite ([int]
    raises).  The directory is not created then.  Without dictionaries it
    always returns. *)
Theorem file_path_exceptions `{Platform} start_year end_year window lam omega
    smoothing seed rate_mult_ncvs rate_mult_nsduh (d : disk) :
  (forall p, fst (_file_path start_year end_year window lam omega smoothing
                             seed rate_mult_ncvs rate_mult_nsduh d)
             <> Returned p) ->
  snd (_file_path start_year end_year window lam omega smoothing seed
                  rate_mult_ncvs rate_mult_nsduh d) = d
  /\ exists e dct kv,
       fst (_file_path start_year end_year window lam omega smoothing seed
                       rate_mult_ncvs rate_mult_nsduh d) = Raised e
       /\ (rate_mult_ncvs = Some dct \/ rate_mult_nsduh = Some dct)
       /\ In kv dct
       /\ ((fst kv = "" /\ e = IndexError_string_index)
           \/ (float_mul (snd kv) 1000%Q = FNaN
               /\ e = Lower ValueError_nan_to_int)
           \/ (exists s, float_mul (snd kv) 1000%Q = FInf s
                         /\ e = Lower OverflowError_inf_to_int)).
Proof.
  unfold _file_path. intro Hfail.
  destruct rate_mult_ncvs as [dct1|]; cbn [and_then] in *.
  - destruct (rate2string_raises dct1) as [Hu1 Hr1].
    destruct (_rate2string dct1) as [r1|e1|]; cbn [and_then] in *.
    + destruct rate_mult_nsduh as [dct2|]; cbn [and_then] in *.
      * destruct (rate2string_raises dct2) as [Hu2 Hr2].
        destruct (_rate2string dct2) as [r2|e2|]; cbn [and_then fst snd] in *.
        -- now contradiction (Hfail _ eq_refl).
        -- split; [reflexivity|].
           destruct (Hr2 e2 eq_refl) as (kv & Hin & Hkv).
           exists e2, dct2, kv. auto.
        -- now contradiction Hu2.
      * now contradiction (Hfail _ eq_refl).
    + cbn [fst snd]. split; [reflexivity|].
      destruct (Hr1 e1 eq_refl) as (kv & Hin & Hkv).
      exists e1, dct1, kv. auto.
    + now contradiction Hu1.
  - destruct rate_mult_nsduh as [dct2|]; cbn [and_then] in *.
    + destruct (rate2string_raises dct2) as [Hu2 Hr2].
      destruct (_rate2string dct2) as [r2|e2|]; cbn [and_then fst snd] in *.
      * now contradiction (Hfail _ eq_refl).
      * split; [reflexivity|].
        destruct (Hr2 e2 eq_refl) as (kv & Hin & Hkv).
        exists e2, dct2, kv. auto.
      * now contradiction Hu2.
    + now contradiction (Hfail _ eq_refl).
Qed.

(** X24 on a dictionary whose second key is empty. *)
Lemma file_path_exceptions_witness :
  let dct := [("assault", 2%Q); ("", 1%Q)] in
  snd (@_file_path DemoDisk.platform 2000 2005 3 None 1 "lr_pr" 0 (Some dct)
         None []) = []
  /\ exists e dct' kv,
       fst (@_file_path DemoDisk.platform 2000 2005 3 None 1 "lr_pr" 0
              (Some dct) None []) = Raised e
       /\ (Some dct = Some dct' \/ None = Some dct')
       /\ In kv dct'
       /\ ((fst kv = "" /\ e = IndexError_string_index)
           \/ (@float_mul DemoDisk.platform (snd kv) 1000%Q = FNaN
               /\ e = Lower ValueError_nan_to_int)
           \/ (exists s, @float_mul DemoDisk.platform (snd kv) 1000%Q = FInf s
                         /\ e = Lower OverflowError_inf_to_int)).
Proof.
  intro dct.
  apply (@file_path_exceptions DemoDisk.platform 2000 2005 3 None 1 "lr_pr" 0
           (Some dct) None []).
  intros p F. vm_compute in F. discriminate F.
Defined.

Local Close Scope string_scope.
